(** * Sigilborn: the summoning (breeding) engine

    A shallow embedding of [src/game/classes.ts], [src/game/genetics.ts] and
    [src/game/summoning.ts].

    - JavaScript numbers that hold counts, stats, costs and hours are
      integers ([Z]).  Numbers that hold probabilities and draws of
      [Math.random()] are exact rationals ([Q]): the development idealises
      IEEE doubles, as the specification does when it speaks of a uniform
      draw in [0,1).
    - Objects that the program shares by reference and updates in place
      (profiles, stat blocks, genomes) live in a store; the random source,
      the clock and the id generator are streams read through a cursor.
      Effectful functions run in a state-and-failure monad over that world. *)

From Stdlib Require Import ZArith QArith Qround Lia Lqa String List.
From Stdlib Require Import Qpower DecimalString DecimalZ DecimalPos.
From stdpp Require Import gmap strings pretty.
Import ListNotations.
Open Scope Z_scope.

(* ------------------------------------------------------------------ *)
(** * Types ([types.ts] is not distributed; the shapes are read off the
      object literals and accesses of the three modules) *)

Inductive SigilClass := ember | thorn | veil | tidecaller | sparkwright | hollow.
Inductive Profession := mining | fishing | foraging | gardening.
Inductive ActiveAbility :=
  power_strike | keen_eye | swift_hands | iron_will
| deep_focus | lucky_find | second_wind | elemental_surge.
Inductive PassiveAbility :=
  sturdy | nimble | scholar | harvester | enduring | fortunate | resilient | prodigy.
Inductive StatName := str | dex | agi | vit | end_ | int | wis | lck.
Inductive Rarity := common | uncommon | rare | legendary | mythic.

#[global] Instance SigilClass_eq_dec : EqDecision SigilClass.
Proof. solve_decision. Defined.
#[global] Instance Profession_eq_dec : EqDecision Profession.
Proof. solve_decision. Defined.
#[global] Instance StatName_eq_dec : EqDecision StatName.
Proof. solve_decision. Defined.
#[global] Instance Rarity_eq_dec : EqDecision Rarity.
Proof. solve_decision. Defined.

(** An object with one entry per stat key: [SigilStats] holds integers,
    [StatGrowthRates] holds probabilities. *)
Record PerStat (A : Type) := mkPerStat {
  s_str : A; s_dex : A; s_agi : A; s_vit : A;
  s_end : A; s_int : A; s_wis : A; s_lck : A
}.
Arguments mkPerStat {A}.
Arguments s_str {A}.
Arguments s_dex {A}.
Arguments s_agi {A}.
Arguments s_vit {A}.
Arguments s_end {A}.
Arguments s_int {A}.
Arguments s_wis {A}.
Arguments s_lck {A}.

Definition SigilStats := PerStat Z.
Definition StatGrowthRates := PerStat Q.

(** [stats[key]] *)
Definition stat_get {A} (s : PerStat A) (k : StatName) : A :=
  match k with
  | str => s_str s | dex => s_dex s | agi => s_agi s | vit => s_vit s
  | end_ => s_end s | int => s_int s | wis => s_wis s | lck => s_lck s
  end.

(** [stats[key] = v] *)
Definition stat_set {A} (s : PerStat A) (k : StatName) (v : A) : PerStat A :=
  match k with
  | str => mkPerStat v (s_dex s) (s_agi s) (s_vit s) (s_end s) (s_int s) (s_wis s) (s_lck s)
  | dex => mkPerStat (s_str s) v (s_agi s) (s_vit s) (s_end s) (s_int s) (s_wis s) (s_lck s)
  | agi => mkPerStat (s_str s) (s_dex s) v (s_vit s) (s_end s) (s_int s) (s_wis s) (s_lck s)
  | vit => mkPerStat (s_str s) (s_dex s) (s_agi s) v (s_end s) (s_int s) (s_wis s) (s_lck s)
  | end_ => mkPerStat (s_str s) (s_dex s) (s_agi s) (s_vit s) v (s_int s) (s_wis s) (s_lck s)
  | int => mkPerStat (s_str s) (s_dex s) (s_agi s) (s_vit s) (s_end s) v (s_wis s) (s_lck s)
  | wis => mkPerStat (s_str s) (s_dex s) (s_agi s) (s_vit s) (s_end s) (s_int s) v (s_lck s)
  | lck => mkPerStat (s_str s) (s_dex s) (s_agi s) (s_vit s) (s_end s) (s_int s) (s_wis s) v
  end.

Record ClassDefinition := {
  cd_name : string;
  cd_role : string;
  primaryStats : StatName * StatName;
  cd_profession : Profession;
  baseStats : SigilStats;
  primaryGrowth : StatGrowthRates;
  secondaryGrowth : StatGrowthRates
}.

Record StatBonus := { count : nat; amount : Z; random : bool }.

Record RarityDefinition := {
  rd_name : string;
  chance : Q;
  statBonuses : list StatBonus
}.

Record GeneLayers (T : Type) := mkLayers { dominant : T; recessive : T; hidden : T }.
Arguments mkLayers {T}.
Arguments dominant {T}.
Arguments recessive {T}.
Arguments hidden {T}.

(** A genome object.  Its six slots are held by value: the layer objects
    are only ever read, and [inheritGenes] builds new ones. *)
Record SigilGenome := {
  gene_class : GeneLayers SigilClass;
  gene_subclass : GeneLayers SigilClass;
  gene_profession : GeneLayers Profession;
  activeAbility : GeneLayers ActiveAbility;
  passiveAbility : GeneLayers PassiveAbility;
  statBoost : GeneLayers StatName
}.

(** References into the store. *)
Definition loc := positive.

(** A profile object.  [stats] and [genes] are references: the stat block
    and the genome are objects of their own.  The two growth-rate fields
    alias the tables of the class registry, which nothing writes. *)
Record SigilProfile := {
  id : string;
  name : string;
  class : SigilClass;
  subclass : SigilClass;
  rarity : Rarity;
  generation : Z;
  level : Z;
  xp : Z;
  xpToNextLevel : Z;
  stats : loc;
  statGrowthPrimary : StatGrowthRates;
  statGrowthSecondary : StatGrowthRates;
  genes : loc;
  profession : Profession;
  professionSkillLevel : Z;
  stamina : Z;
  maxStamina : Z;
  hp : Z;
  maxHp : Z;
  mp : Z;
  maxMp : Z;
  summonsRemaining : Z;
  maxSummons : Z;
  summonCooldownEnd : option string;
  parentIds : option (string * string);
  owner : string;
  createdAt : string
}.

Record SummonRecord := {
  sr_id : string;
  parent1Id : string;
  parent2Id : string;
  offspringId : string;
  sr_cost : Z;
  sr_generation : Z;
  timestamp : string
}.

(* ------------------------------------------------------------------ *)
(** * classes.ts: the class and rarity registry *)

Definition stats8 (a b c d e f g h : Z) : SigilStats := mkPerStat a b c d e f g h.
Definition rates8 (a b c d e f g h : Q) : StatGrowthRates := mkPerStat a b c d e f g h.

Definition CLASS_DEFINITIONS (c : SigilClass) : ClassDefinition :=
  match c with
  | ember =>
    {| cd_name := "Ember"; cd_role := "Warrior";
       primaryStats := (str, end_); cd_profession := mining;
       baseStats := stats8 12 7 8 9 11 5 4 6;
       primaryGrowth := rates8 0.75 0.20 0.30 0.35 0.70 0.10 0.10 0.20;
       secondaryGrowth := rates8 0.30 0.10 0.15 0.20 0.30 0.05 0.05 0.10 |}
  | thorn =>
    {| cd_name := "Thorn"; cd_role := "Cultivator";
       primaryStats := (vit, wis); cd_profession := gardening;
       baseStats := stats8 5 6 5 12 9 8 11 6;
       primaryGrowth := rates8 0.10 0.15 0.10 0.75 0.35 0.30 0.70 0.20;
       secondaryGrowth := rates8 0.05 0.10 0.05 0.30 0.20 0.15 0.30 0.10 |}
  | veil =>
    {| cd_name := "Veil"; cd_role := "Oracle";
       primaryStats := (int, wis); cd_profession := foraging;
       baseStats := stats8 4 7 6 7 5 13 12 8;
       primaryGrowth := rates8 0.05 0.20 0.15 0.20 0.10 0.80 0.70 0.30;
       secondaryGrowth := rates8 0.05 0.10 0.10 0.10 0.05 0.35 0.30 0.15 |}
  | tidecaller =>
    {| cd_name := "Tidecaller"; cd_role := "Merchant";
       primaryStats := (agi, lck); cd_profession := fishing;
       baseStats := stats8 6 8 11 7 6 8 7 12;
       primaryGrowth := rates8 0.15 0.30 0.70 0.20 0.15 0.25 0.20 0.75;
       secondaryGrowth := rates8 0.10 0.15 0.30 0.10 0.10 0.15 0.10 0.30 |}
  | sparkwright =>
    {| cd_name := "Sparkwright"; cd_role := "Builder";
       primaryStats := (int, dex); cd_profession := mining;
       baseStats := stats8 7 11 6 6 7 13 7 8;
       primaryGrowth := rates8 0.20 0.70 0.15 0.15 0.20 0.75 0.20 0.30;
       secondaryGrowth := rates8 0.10 0.30 0.10 0.10 0.10 0.35 0.10 0.15 |}
  | hollow =>
    {| cd_name := "Hollow"; cd_role := "Phantom";
       primaryStats := (agi, str); cd_profession := fishing;
       baseStats := stats8 10 8 12 4 5 9 6 11;
       primaryGrowth := rates8 0.65 0.25 0.75 0.05 0.10 0.30 0.15 0.45;
       secondaryGrowth := rates8 0.25 0.15 0.30 0.05 0.05 0.15 0.10 0.20 |}
  end.

Definition bonus (c : nat) (a : Z) : StatBonus :=
  {| count := c; amount := a; random := false |}.

Definition RARITY_DEFINITIONS (r : Rarity) : RarityDefinition :=
  match r with
  | common => {| rd_name := "Common"; chance := 0.75%Q; statBonuses := [] |}
  | uncommon =>
    {| rd_name := "Uncommon"; chance := 0.20%Q; statBonuses := [bonus 2 1] |}
  | rare =>
    {| rd_name := "Rare"; chance := 0.04%Q;
       statBonuses := [bonus 3 1; {| count := 1; amount := 1; random := true |}] |}
  | legendary =>
    {| rd_name := "Legendary"; chance := 0.009%Q;
       statBonuses := [bonus 3 1; bonus 2 1; bonus 1 2] |}
  | mythic =>
    {| rd_name := "Mythic"; chance := 0.001%Q;
       statBonuses := [bonus 3 2; bonus 3 1; bonus 1 1] |}
  end.

(** [Object.entries(RARITY_DEFINITIONS)]: the keys in insertion order. *)
Definition RARITY_KEYS : list Rarity := [common; uncommon; rare; legendary; mythic].

Definition STAT_KEYS : list StatName := [str; dex; agi; vit; end_; int; wis; lck].

(** [roll < bound] on numbers. *)
Definition Qltb (x y : Q) : bool :=
  (Qnum x * QDen y <? Qnum y * QDen x)%Z.

(** The loop of [rollRarity] from a given cumulative value. *)
Fixpoint rollRarity_from (roll cumulative : Q) (entries : list Rarity) : Rarity :=
  match entries with
  | [] => common
  | r :: rest =>
    let cumulative := (cumulative + chance (RARITY_DEFINITIONS r))%Q in
    if Qltb roll cumulative then r else rollRarity_from roll cumulative rest
  end.

(** [rollRarity()], given the value of its one draw. *)
Definition rollRarity_at (roll : Q) : Rarity := rollRarity_from roll 0 RARITY_KEYS.

Definition calculateMaxHp (s : SigilStats) (level : Z) : Z :=
  50 + (s_vit s * 5) + (level * 10).

Definition calculateMaxMp (s : SigilStats) (level : Z) : Z :=
  25 + (s_int s * 3) + (s_wis s * 2) + (level * 5).

Definition calculateMaxStamina (level : Z) : Z :=
  let bonus := level / 2 in
  Z.min (25 + bonus) 50.

(** [Math.floor(100 * Math.pow(1.1, level - 1))] for an integer level. *)
Definition xpForLevel (level : Z) : Z :=
  if level <=? 0 then 0
  else Qfloor (100 * Qpower 1.1 (level - 1))%Q.

Definition getClassProfession (c : SigilClass) : Profession :=
  cd_profession (CLASS_DEFINITIONS c).

(* ------------------------------------------------------------------ *)
(** * The world: store, random source, clock, id generator *)

Inductive obj :=
| OProfile (p : SigilProfile)
| OStats (s : SigilStats)
| OGenome (g : SigilGenome).

(** [randoms], [clock] and [ulids] are what [Math.random()], [Date.now()]
    (in milliseconds) and [ulid()] will answer, call after call; [drawn],
    [ticks] and [issued] count the calls made so far. *)
Record World := mkWorld {
  heap : gmap loc obj;
  randoms : nat -> Q;
  drawn : nat;
  clock : nat -> Z;
  ticks : nat;
  ulids : nat -> string;
  issued : nat
}.

Definition with_heap (h : gmap loc obj) (w : World) : World :=
  mkWorld h (randoms w) (drawn w) (clock w) (ticks w) (ulids w) (issued w).
Definition with_drawn (n : nat) (w : World) : World :=
  mkWorld (heap w) (randoms w) n (clock w) (ticks w) (ulids w) (issued w).
Definition with_ticks (n : nat) (w : World) : World :=
  mkWorld (heap w) (randoms w) (drawn w) (clock w) n (ulids w) (issued w).
Definition with_issued (n : nat) (w : World) : World :=
  mkWorld (heap w) (randoms w) (drawn w) (clock w) (ticks w) (ulids w) n.

(** [Math.random()] answers in [0,1). *)
Definition draws_in_unit (w : World) : Prop :=
  forall n, (0 <= randoms w n)%Q /\ (randoms w n < 1)%Q.

(** A computation returns a value and the next world, or stops.  It
    stops where JavaScript throws a [TypeError] (a property read through a
    reference that holds no object of the expected shape) and where an
    index computed from a draw outside [0,1) would read [undefined];
    [Math.random()] gives no such draw. *)
Definition M (A : Type) : Type := World -> option (A * World).

Definition ret {A} (a : A) : M A := fun w => Some (a, w).
Definition bind {A B} (m : M A) (k : A -> M B) : M B :=
  fun w => match m w with
           | Some (a, w') => k a w'
           | None => None
           end.
Definition fail {A} : M A := fun _ => None.

Notation "x <- m ;; k" := (bind m (fun x => k))
  (at level 100, m at next level, right associativity).
Notation "m ;;; k" := (bind m (fun _ => k))
  (at level 100, right associativity).

Definition mathRandom : M Q :=
  fun w => Some (randoms w (drawn w), with_drawn (S (drawn w)) w).
Definition dateNow : M Z :=
  fun w => Some (clock w (ticks w), with_ticks (S (ticks w)) w).
Definition ulid : M string :=
  fun w => Some (ulids w (issued w), with_issued (S (issued w)) w).

(** A fresh object ([{...}], [{...o}]). *)
Definition alloc (o : obj) : M loc :=
  fun w => let l := fresh (dom (heap w)) in
           Some (l, with_heap (<[l := o]> (heap w)) w).

Definition readProfile (l : loc) : M SigilProfile :=
  fun w => match heap w !! l with Some (OProfile p) => Some (p, w) | _ => None end.
Definition readStats (l : loc) : M SigilStats :=
  fun w => match heap w !! l with Some (OStats s) => Some (s, w) | _ => None end.
Definition readGenome (l : loc) : M SigilGenome :=
  fun w => match heap w !! l with Some (OGenome g) => Some (g, w) | _ => None end.

(** Assignments to the fields of an existing object. *)
Definition writeProfile (l : loc) (p : SigilProfile) : M unit :=
  fun w => match heap w !! l with
           | Some (OProfile _) => Some (tt, with_heap (<[l := OProfile p]> (heap w)) w)
           | _ => None
           end.
Definition writeStats (l : loc) (s : SigilStats) : M unit :=
  fun w => match heap w !! l with
           | Some (OStats _) => Some (tt, with_heap (<[l := OStats s]> (heap w)) w)
           | _ => None
           end.

(** [parent.f] *)
Definition field {A} (l : loc) (f : SigilProfile -> A) : M A :=
  p <- readProfile l ;; ret (f p).

(** [for (const x of xs) body] *)
Fixpoint forEach {A} (xs : list A) (body : A -> M unit) : M unit :=
  match xs with
  | [] => ret tt
  | x :: rest => body x ;;; forEach rest body
  end.

(** [arr[i]] for a number [i]; [None] is [undefined]. *)
Definition at_index {A} (arr : list A) (i : Z) : option A :=
  if i <? 0 then None else nth_error arr (Z.to_nat i).

(** [stats[key] += n] *)
Definition addToStat (l : loc) (k : StatName) (n : Z) : M unit :=
  s <- readStats l ;; writeStats l (stat_set s k (stat_get s k + n)).

(** The date functions of the JavaScript runtime: [toISOString] prints
    milliseconds since the epoch (time values are taken within the range
    of [Date], where it does not throw), [parseDate s] is the time value
    of [new Date(s)], [None] for an invalid date (whose comparisons are
    all false). *)
Class DateApi := {
  toISOString : Z -> string;
  parseDate : string -> option Z
}.

(* ------------------------------------------------------------------ *)
(** * classes.ts: the stat synthesizer *)

(** [Math.floor(Math.random() * n)] given the draw. *)
Definition floorTimes (r : Q) (n : Z) : Z := Qfloor (r * inject_Z n).

Definition generateBaseStats (sigilClass : SigilClass) : M loc :=
  let base := baseStats (CLASS_DEFINITIONS sigilClass) in
  stats <- alloc (OStats base) ;;
  forEach STAT_KEYS (fun key =>
    r <- mathRandom ;;
    let variance := floorTimes r 5 - 2 in
    s <- readStats stats ;;
    writeStats stats (stat_set s key (Z.max 1 (stat_get s key + variance)))) ;;;
  ret stats.

(** [available.splice(idx, 1)[0]], with what is left of [available]. *)
Definition splice1 {A} (idx : Z) (available : list A) : option (A * list A) :=
  match at_index available idx with
  | Some x => Some (x, firstn (Z.to_nat idx) available ++ skipn (S (Z.to_nat idx)) available)
  | None => None
  end.

(** The inner loop of [applyRarityBonuses]: [n] iterations are left. *)
Fixpoint bonusPass (result : loc) (b : StatBonus) (n : nat)
    (available : list StatName) : M unit :=
  match n with
  | O => ret tt
  | S n' =>
    if (length available =? 0)%nat then ret tt
    else
      r <- mathRandom ;;
      let idx := if random b
                 then floorTimes r (Z.of_nat (length available))
                 else floorTimes r (Z.of_nat (length available)) in
      match splice1 idx available with
      | Some (stat, available') =>
        addToStat result stat (amount b) ;;;
        bonusPass result b n' available'
      | None => fail
      end
  end.

Definition applyRarityBonuses (stats : loc) (rarity : Rarity) : M loc :=
  s <- readStats stats ;;
  result <- alloc (OStats s) ;;
  let def := RARITY_DEFINITIONS rarity in
  forEach (statBonuses def) (fun b =>
    bonusPass result b (count b) STAT_KEYS) ;;;
  ret result.

Definition rollStatGrowth (currentStats : loc)
    (primaryGrowth secondaryGrowth : StatGrowthRates) : M loc :=
  s <- readStats currentStats ;;
  result <- alloc (OStats s) ;;
  forEach STAT_KEYS (fun key =>
    r1 <- mathRandom ;;
    (if Qltb r1 (stat_get primaryGrowth key) then addToStat result key 1 else ret tt) ;;;
    r2 <- mathRandom ;;
    (if Qltb r2 (stat_get secondaryGrowth key) then addToStat result key 1 else ret tt)) ;;;
  ret result.

(** [rollRarity()] *)
Definition rollRarity : M Rarity :=
  roll <- mathRandom ;; ret (rollRarity_at roll).

(* ------------------------------------------------------------------ *)
(** * genetics.ts *)

Definition CLASSES : list SigilClass :=
  [ember; thorn; veil; tidecaller; sparkwright; hollow].
Definition PROFESSIONS : list Profession := [mining; fishing; foraging; gardening].
Definition ACTIVE_ABILITIES : list ActiveAbility :=
  [power_strike; keen_eye; swift_hands; iron_will;
   deep_focus; lucky_find; second_wind; elemental_surge].
Definition PASSIVE_ABILITIES : list PassiveAbility :=
  [sturdy; nimble; scholar; harvester; enduring; fortunate; resilient; prodigy].
Definition STAT_NAMES : list StatName := [str; dex; agi; vit; end_; int; wis; lck].

Definition DOMINANT_CHANCE : Q := 0.75.
Definition RECESSIVE_CHANCE : Q := 0.1875.
Definition HIDDEN_CHANCE : Q := 0.0625.
Definition MUTATION_RATE : Q := 0.02.

(** [arr[Math.floor(r * arr.length)]] *)
Definition pick {T} (arr : list T) (r : Q) : option T :=
  at_index arr (floorTimes r (Z.of_nat (length arr))).

Definition randomFrom {T} (arr : list T) : M T :=
  r <- mathRandom ;;
  match pick arr r with
  | Some x => ret x
  | None => fail
  end.

(** The branches of [selectGene] on its draw. *)
Definition selectGene_at {T} (layers : GeneLayers T) (roll : Q) : T :=
  if Qltb roll DOMINANT_CHANCE then dominant layers
  else if Qltb roll (DOMINANT_CHANCE + RECESSIVE_CHANCE) then recessive layers
  else hidden layers.

Definition selectGene {T} (layers : GeneLayers T) : M T :=
  roll <- mathRandom ;; ret (selectGene_at layers roll).

Definition maybeMutate {T} (gene : T) (pool : list T) : M T :=
  r <- mathRandom ;;
  if Qltb r MUTATION_RATE then randomFrom pool else ret gene.

Definition inheritSlot {T} (p1 p2 : GeneLayers T) (pool : list T) : M (GeneLayers T) :=
  fromP1 <- selectGene p1 ;;
  fromP2 <- selectGene p2 ;;
  hidden <- randomFrom pool ;;
  d <- maybeMutate fromP1 pool ;;
  r <- maybeMutate fromP2 pool ;;
  h <- maybeMutate hidden pool ;;
  ret (mkLayers d r h).

(** [inheritSlot(parent1.f, parent2.f, pool)] on two genome objects. *)
Definition inheritField {T} (parent1 parent2 : loc)
    (f : SigilGenome -> GeneLayers T) (pool : list T) : M (GeneLayers T) :=
  g1 <- readGenome parent1 ;;
  g2 <- readGenome parent2 ;;
  inheritSlot (f g1) (f g2) pool.

Definition inheritGenes (parent1 parent2 : loc) : M loc :=
  c <- inheritField parent1 parent2 gene_class CLASSES ;;
  sc <- inheritField parent1 parent2 gene_subclass CLASSES ;;
  pr <- inheritField parent1 parent2 gene_profession PROFESSIONS ;;
  aa <- inheritField parent1 parent2 activeAbility ACTIVE_ABILITIES ;;
  pa <- inheritField parent1 parent2 passiveAbility PASSIVE_ABILITIES ;;
  sb <- inheritField parent1 parent2 statBoost STAT_NAMES ;;
  alloc (OGenome {| gene_class := c; gene_subclass := sc; gene_profession := pr;
                    activeAbility := aa; passiveAbility := pa; statBoost := sb |}).

Definition professionForClass (sigilClass : SigilClass) : Profession :=
  match sigilClass with
  | ember => mining
  | thorn => gardening
  | veil => foraging
  | tidecaller => fishing
  | sparkwright => mining
  | hollow => fishing
  end.

(** [arr.includes(x)] on a pair of ids. *)
Definition includes (ids : string * string) (x : string) : bool :=
  String.eqb (fst ids) x || String.eqb (snd ids) x.

Definition areTooRelated (sigil1ParentIds sigil2ParentIds : option (string * string))
    (sigil1Id sigil2Id : string) : bool :=
  if match sigil1ParentIds with
     | Some ids => includes ids sigil2Id
     | None => false
     end then true
  else if match sigil2ParentIds with
          | Some ids => includes ids sigil1Id
          | None => false
          end then true
  else match sigil1ParentIds, sigil2ParentIds with
       | Some ids1, Some ids2 =>
         let sameParents :=
           String.eqb (fst ids1) (fst ids2) && String.eqb (snd ids1) (snd ids2) in
         let swappedParents :=
           String.eqb (fst ids1) (snd ids2) && String.eqb (snd ids1) (fst ids2) in
         if sameParents || swappedParents then true else false
       | _, _ => false
       end.

(* ------------------------------------------------------------------ *)
(** * summoning.ts *)

Definition BASE_COST : Z := 2000.
Definition COST_PER_SUMMON : Z := 1000.
Definition COST_PER_GENERATION : Z := 500.

Definition GEN0_BASE_COOLDOWN_HOURS : Z := 4.
Definition GEN0_COOLDOWN_INCREMENT_HOURS : Z := 4.

Definition GEN0_MAX_SUMMONS : Z := 10.

Definition parentCost (parent : SigilProfile) : Z :=
  let summonsUsed := maxSummons parent - summonsRemaining parent in
  BASE_COST
  + (COST_PER_SUMMON * summonsUsed)
  + (COST_PER_GENERATION * generation parent).

Definition calculateSummonCost (parent1 parent2 : SigilProfile) : Z :=
  let cost1 := parentCost parent1 in
  let cost2 := parentCost parent2 in
  Z.max cost1 cost2.

Definition cooldownHours (parent : SigilProfile) : Z :=
  let summonsUsed := maxSummons parent - summonsRemaining parent in
  if generation parent =? 0 then
    GEN0_BASE_COOLDOWN_HOURS + (GEN0_COOLDOWN_INCREMENT_HOURS * summonsUsed)
  else (24 + 8 * generation parent) * (summonsUsed + 1).

(** [parent.summonsRemaining = v] and [parent.summonCooldownEnd = v] *)
Definition set_summonsRemaining (v : Z) (p : SigilProfile) : SigilProfile :=
  {| id := id p; name := name p; class := class p; subclass := subclass p;
     rarity := rarity p; generation := generation p; level := level p; xp := xp p;
     xpToNextLevel := xpToNextLevel p; stats := stats p;
     statGrowthPrimary := statGrowthPrimary p;
     statGrowthSecondary := statGrowthSecondary p; genes := genes p;
     profession := profession p; professionSkillLevel := professionSkillLevel p;
     stamina := stamina p; maxStamina := maxStamina p; hp := hp p; maxHp := maxHp p;
     mp := mp p; maxMp := maxMp p;
     summonsRemaining := v;
     maxSummons := maxSummons p; summonCooldownEnd := summonCooldownEnd p;
     parentIds := parentIds p; owner := owner p; createdAt := createdAt p |}.

Definition set_summonCooldownEnd (v : option string) (p : SigilProfile) : SigilProfile :=
  {| id := id p; name := name p; class := class p; subclass := subclass p;
     rarity := rarity p; generation := generation p; level := level p; xp := xp p;
     xpToNextLevel := xpToNextLevel p; stats := stats p;
     statGrowthPrimary := statGrowthPrimary p;
     statGrowthSecondary := statGrowthSecondary p; genes := genes p;
     profession := profession p; professionSkillLevel := professionSkillLevel p;
     stamina := stamina p; maxStamina := maxStamina p; hp := hp p; maxHp := maxHp p;
     mp := mp p; maxMp := maxMp p;
     summonsRemaining := summonsRemaining p;
     maxSummons := maxSummons p; summonCooldownEnd := v;
     parentIds := parentIds p; owner := owner p; createdAt := createdAt p |}.

Record SummonEligibility := {
  eligible : bool;
  reason : option string;
  cost : option Z;
  cooldownHoursP1 : option Z;
  cooldownHoursP2 : option Z
}.

Definition ineligible (why : string) : SummonEligibility :=
  {| eligible := false; reason := Some why; cost := None;
     cooldownHoursP1 := None; cooldownHoursP2 := None |}.

Record SummonResult := {
  offspring : loc;
  record : SummonRecord;
  res_cost : Z
}.

Definition RARITY_TIERS : list Rarity := [common; uncommon; rare; legendary; mythic].

(** [arr.indexOf(x)], [-1] when [x] is absent. *)
Fixpoint indexOf_from {A} `{EqDecision A} (arr : list A) (x : A) (i : Z) : Z :=
  match arr with
  | [] => -1
  | y :: rest => if decide (y = x) then i else indexOf_from rest x (i + 1)
  end.
Definition indexOf {A} `{EqDecision A} (arr : list A) (x : A) : Z := indexOf_from arr x 0.

(** The branches of [rollOffspringRarity] on its draw. *)
Definition rollOffspringRarity_at (p1Rarity p2Rarity : Rarity) (roll : Q) : Rarity :=
  let p1Tier := indexOf RARITY_TIERS p1Rarity in
  let p2Tier := indexOf RARITY_TIERS p2Rarity in
  let avgTier := (inject_Z (p1Tier + p2Tier) / 2)%Q in
  let bonus := (avgTier * 0.03)%Q in
  if Qltb roll (0.001 + bonus * 0.01) then mythic
  else if Qltb roll (0.009 + bonus * 0.05) then legendary
  else if Qltb roll (0.04 + bonus * 0.1) then rare
  else if Qltb roll (0.20 + bonus * 0.15) then uncommon
  else common.

Definition rollOffspringRarity (p1Rarity p2Rarity : Rarity) : M Rarity :=
  roll <- mathRandom ;; ret (rollOffspringRarity_at p1Rarity p2Rarity roll).

Section Summoning.
Context {D : DateApi}.

(** [new Date().toISOString()] *)
Definition nowISO : M string := t <- dateNow ;; ret (toISOString t).

Definition cooldownEndTime (parent : loc) : M string :=
  hours <- (p <- readProfile parent ;; ret (cooldownHours p)) ;;
  now <- dateNow ;;
  ret (toISOString (now + hours * 60 * 60 * 1000)).

(** A string is truthy when it is not empty. *)
Definition truthy (s : string) : bool := negb (String.eqb s "").

(** [parent.summonCooldownEnd && new Date(parent.summonCooldownEnd) > new Date()]:
    the clock is read only when the field is a truthy string. *)
Definition onCooldown (p : SigilProfile) : M bool :=
  match summonCooldownEnd p with
  | Some s =>
    if truthy s then
      now <- dateNow ;;
      ret match parseDate s with
          | Some t => now <? t
          | None => false
          end
    else ret false
  | None => ret false
  end.

Definition cooldownMessage (p : SigilProfile) : string :=
  name p +:+ " is on cooldown until " +:+
  match summonCooldownEnd p with Some s => s | None => "null" end.

Definition checkSummonEligibility (parent1 parent2 : loc) : M SummonEligibility :=
  p1 <- readProfile parent1 ;;
  p2 <- readProfile parent2 ;;
  if String.eqb (id p1) (id p2) then
    ret (ineligible "Cannot summon with self")
  else if areTooRelated (parentIds p1) (parentIds p2) (id p1) (id p2) then
    ret (ineligible "Parents are too closely related (siblings or parent-child)")
  else if summonsRemaining p1 <=? 0 then
    ret (ineligible (name p1 +:+ " has no summons remaining"))
  else if summonsRemaining p2 <=? 0 then
    ret (ineligible (name p2 +:+ " has no summons remaining"))
  else
    c1 <- onCooldown p1 ;;
    if c1 then ret (ineligible (cooldownMessage p1))
    else
      c2 <- onCooldown p2 ;;
      if c2 then ret (ineligible (cooldownMessage p2))
      else
        let cost := calculateSummonCost p1 p2 in
        ret {| eligible := true; reason := None; cost := Some cost;
               cooldownHoursP1 := Some (cooldownHours p1);
               cooldownHoursP2 := Some (cooldownHours p2) |}.

Definition executeSummon (parent1 parent2 : loc) (offspringName owner_ : string)
    : M SummonResult :=
  cost <- (p1 <- readProfile parent1 ;; p2 <- readProfile parent2 ;;
           ret (calculateSummonCost p1 p2)) ;;
  generation_ <- (g1 <- field parent1 generation ;; g2 <- field parent2 generation ;;
                  ret (Z.max g1 g2 + 1)) ;;
  genes_ <- (gl1 <- field parent1 genes ;; gl2 <- field parent2 genes ;;
             inheritGenes gl1 gl2) ;;
  sigilClass <- (g <- readGenome genes_ ;; ret (dominant (gene_class g))) ;;
  subclass_ <- (g <- readGenome genes_ ;; ret (dominant (gene_subclass g))) ;;
  rarity_ <- (r1 <- field parent1 rarity ;; r2 <- field parent2 rarity ;;
              rollOffspringRarity r1 r2) ;;
  stats0 <- generateBaseStats sigilClass ;;
  boostedStat <- (g <- readGenome genes_ ;; ret (dominant (statBoost g))) ;;
  addToStat stats0 boostedStat 2 ;;;
  stats_ <- (if decide (rarity_ <> common)
             then applyRarityBonuses stats0 rarity_
             else ret stats0) ;;
  weakerParentSummons <- (s1 <- field parent1 summonsRemaining ;;
                          s2 <- field parent2 summonsRemaining ;;
                          ret (Z.min s1 s2)) ;;
  let maxSummons_ := Z.max 1 (weakerParentSummons - 1) in
  offspringId_ <- ulid ;;
  profession_ <- (g <- readGenome genes_ ;; ret (dominant (gene_profession g))) ;;
  hp_ <- (s <- readStats stats_ ;; ret (calculateMaxHp s 1)) ;;
  maxHp_ <- (s <- readStats stats_ ;; ret (calculateMaxHp s 1)) ;;
  mp_ <- (s <- readStats stats_ ;; ret (calculateMaxMp s 1)) ;;
  maxMp_ <- (s <- readStats stats_ ;; ret (calculateMaxMp s 1)) ;;
  pid1 <- field parent1 id ;;
  pid2 <- field parent2 id ;;
  createdAt_ <- nowISO ;;
  offspring_ <- alloc (OProfile
    {| id := offspringId_;
       name := offspringName;
       class := sigilClass;
       subclass := subclass_;
       rarity := rarity_;
       generation := generation_;
       level := 1;
       xp := 0;
       xpToNextLevel := xpForLevel 1;
       stats := stats_;
       statGrowthPrimary := primaryGrowth (CLASS_DEFINITIONS sigilClass);
       statGrowthSecondary := secondaryGrowth (CLASS_DEFINITIONS subclass_);
       genes := genes_;
       profession := profession_;
       professionSkillLevel := 0;
       stamina := 25;
       maxStamina := calculateMaxStamina 1;
       hp := hp_;
       maxHp := maxHp_;
       mp := mp_;
       maxMp := maxMp_;
       summonsRemaining := maxSummons_;
       maxSummons := maxSummons_;
       summonCooldownEnd := None;
       parentIds := Some (pid1, pid2);
       owner := owner_;
       createdAt := createdAt_ |}) ;;
  recordId <- ulid ;;
  rp1 <- field parent1 id ;;
  rp2 <- field parent2 id ;;
  timestamp_ <- nowISO ;;
  let record_ :=
    {| sr_id := recordId; parent1Id := rp1; parent2Id := rp2;
       offspringId := offspringId_; sr_cost := cost; sr_generation := generation_;
       timestamp := timestamp_ |} in
  ret {| offspring := offspring_; record := record_; res_cost := cost |}.

Definition applySummonToParent (parent : loc) : M unit :=
  (p <- readProfile parent ;;
   writeProfile parent (set_summonsRemaining (summonsRemaining p - 1) p)) ;;;
  e <- cooldownEndTime parent ;;
  p <- readProfile parent ;;
  writeProfile parent (set_summonCooldownEnd (Some e) p).

End Summoning.

(* ------------------------------------------------------------------ *)
(** * Vocabulary of the statements *)

(** The draws that [rollOffspringRarity] maps to a tier form one interval
    [tierLower <= r < tierUpper] of [0,1) (lemma [roll_tier_interval]);
    its length is the probability of the tier under a uniform draw. *)
Definition parentBonus (p1 p2 : Rarity) : Q :=
  (inject_Z (indexOf RARITY_TIERS p1 + indexOf RARITY_TIERS p2) / 2 * 0.03)%Q.

Definition tierUpper (p1 p2 t : Rarity) : Q :=
  match t with
  | mythic => 0.001 + parentBonus p1 p2 * 0.01
  | legendary => 0.009 + parentBonus p1 p2 * 0.05
  | rare => 0.04 + parentBonus p1 p2 * 0.1
  | uncommon => 0.20 + parentBonus p1 p2 * 0.15
  | common => 1
  end%Q.

Definition tierLower (p1 p2 t : Rarity) : Q :=
  match t with
  | mythic => 0
  | legendary => tierUpper p1 p2 mythic
  | rare => tierUpper p1 p2 legendary
  | uncommon => tierUpper p1 p2 rare
  | common => tierUpper p1 p2 uncommon
  end%Q.

Definition tierMeasure (p1 p2 t : Rarity) : Q :=
  (tierUpper p1 p2 t - tierLower p1 p2 t)%Q.

(** How many of the [n] evenly spaced draws [0/n, 1/n, ..., (n-1)/n] a
    roll [f] maps to the tier [t]. *)
Definition gridDraws (n : nat) : list Q :=
  map (fun k => (inject_Z (Z.of_nat k) / inject_Z (Z.of_nat n))%Q) (seq 0 n).
Definition countTier (f : Q -> Rarity) (n : nat) (t : Rarity) : nat :=
  length (filter (fun r => bool_decide (f r = t)) (gridDraws n)).

(** The same for [rollRarity], which accumulates the registry's chances
    from [common] upwards. *)
Definition baseUpper (t : Rarity) : Q :=
  match t with
  | common => 0.75 | uncommon => 0.95 | rare => 0.99 | legendary => 0.999 | mythic => 1
  end%Q.
Definition baseLower (t : Rarity) : Q :=
  match t with
  | common => 0 | uncommon => 0.75 | rare => 0.95 | legendary => 0.99 | mythic => 0.999
  end%Q.

(** [wp m w Q]: run from [w], [m] returns, and the value and the world
    it returns satisfy [Q]. *)
Definition wp {A} (m : M A) (w : World) (Q : A -> World -> Prop) : Prop :=
  match m w with
  | Some (a, w') => Q a w'
  | None => False
  end.

(** What [maybeMutate] returns and how many draws it takes, given the
    draw of its check and the next draw. *)
Definition mutated_at {T} (gene : T) (pool : list T) (check next : Q) : option T :=
  if Qltb check MUTATION_RATE then pick pool next else Some gene.
Definition mutation_draws (check : Q) : nat :=
  if Qltb check MUTATION_RATE then 2%nat else 1%nat.

(** The selection rule: [v] is the layer of [layers] that the draw [r]
    selects (dominant below 0.75, recessive from 0.75 to 0.9375, hidden
    above). *)
Definition selects {T} (layers : GeneLayers T) (r : Q) (v : T) : Prop :=
  ((r < 0.75)%Q -> v = dominant layers)
  /\ ((0.75 <= r)%Q -> (r < 0.9375)%Q -> v = recessive layers)
  /\ ((0.9375 <= r)%Q -> v = hidden layers).

(** The mutation rule at position [pos] of the draws [rnd]: when the
    check draw is below 0.02 the value is replaced by the pool value that
    the next draw picks and two draws are used; otherwise the value stays
    and one draw is used. *)
Definition mutates {T} (v : T) (pool : list T) (rnd : nat -> Q) (pos : nat)
    (out : T) (next : nat) : Prop :=
  ((rnd pos < 0.02)%Q -> pick pool (rnd (S pos)) = Some out /\ next = (2 + pos)%nat)
  /\ ((0.02 <= rnd pos)%Q -> out = v /\ next = (1 + pos)%nat).

(** Streams and a world for examples. *)
Definition streamOf {A} (l : list A) (d : A) (n : nat) : A := nth n l d.

Definition sampleParent (i : string) (gen remaining maxS : Z)
    (cd : option string) (parents : option (string * string))
    (r : Rarity) (st gn : loc) : SigilProfile :=
  {| id := i; name := i; class := ember; subclass := thorn; rarity := r;
     generation := gen; level := 1; xp := 0; xpToNextLevel := 100; stats := st;
     statGrowthPrimary := primaryGrowth (CLASS_DEFINITIONS ember);
     statGrowthSecondary := secondaryGrowth (CLASS_DEFINITIONS thorn);
     genes := gn; profession := mining; professionSkillLevel := 0;
     stamina := 25; maxStamina := 25; hp := 105; maxHp := 105; mp := 53; maxMp := 53;
     summonsRemaining := remaining; maxSummons := maxS; summonCooldownEnd := cd;
     parentIds := parents; owner := "owner"; createdAt := "1970-01-01T00:00:00.000Z" |}.

(** The same with only the fields that cost and cooldown read. *)
Definition sampleProfile (i : string) (gen remaining maxS : Z) : SigilProfile :=
  sampleParent i gen remaining maxS None None common 1%positive 2%positive.

Definition parentA : SigilProfile :=
  sampleParent "A" 2 5 7 None None rare 1%positive 2%positive.
Definition parentB : SigilProfile :=
  sampleParent "B" 1 3 3 None None mythic 4%positive 5%positive.

Definition genomeA : SigilGenome :=
  {| gene_class := mkLayers ember thorn veil;
     gene_subclass := mkLayers thorn veil hollow;
     gene_profession := mkLayers mining fishing foraging;
     activeAbility := mkLayers power_strike keen_eye swift_hands;
     passiveAbility := mkLayers sturdy nimble scholar;
     statBoost := mkLayers str dex agi |}.

Definition genomeB : SigilGenome :=
  {| gene_class := mkLayers tidecaller sparkwright hollow;
     gene_subclass := mkLayers hollow ember thorn;
     gene_profession := mkLayers gardening foraging fishing;
     activeAbility := mkLayers iron_will deep_focus lucky_find;
     passiveAbility := mkLayers harvester enduring fortunate;
     statBoost := mkLayers vit end_ int |}.

Definition sampleDraws : nat -> Q :=
  streamOf [0.8; 0.5; 0.99; 0.01; 0.4; 0.5; 0.5;
            0.95; 0.1; 0.3; 0.6; 0.015; 0.7; 0.9]%Q 0.5%Q.

Definition sampleHeap : gmap loc obj :=
  <[1%positive := OStats (baseStats (CLASS_DEFINITIONS ember))]>
  (<[2%positive := OGenome genomeA]>
  (<[3%positive := OProfile parentA]>
  (<[4%positive := OStats (baseStats (CLASS_DEFINITIONS tidecaller))]>
  (<[5%positive := OGenome genomeB]>
  (<[6%positive := OProfile parentB]> ∅))))).

Definition sampleWorld : World :=
  {| heap := sampleHeap;
     randoms := sampleDraws; drawn := 0;
     clock := fun n => 1000 + Z.of_nat n; ticks := 0;
     ulids := fun n => match n with O => "01OFFSPRING" | _ => "01RECORD" end;
     issued := 0 |}.

(** The four obstacles to a summoning, as the rules state them. *)
Definition sameIdentity (p1 p2 : SigilProfile) : Prop := id p1 = id p2.

Definition inPair (x : string) (ids : string * string) : Prop :=
  x = fst ids \/ x = snd ids.

(** One is a recorded parent of the other, or both have the same two
    parents in either order. *)
Definition related (p1 p2 : SigilProfile) : Prop :=
  (exists ids, parentIds p1 = Some ids /\ inPair (id p2) ids)
  \/ (exists ids, parentIds p2 = Some ids /\ inPair (id p1) ids)
  \/ (exists ids1 ids2, parentIds p1 = Some ids1 /\ parentIds p2 = Some ids2
        /\ ((fst ids1 = fst ids2 /\ snd ids1 = snd ids2)
            \/ (fst ids1 = snd ids2 /\ snd ids1 = fst ids2))).

Definition exhausted (p : SigilProfile) : Prop := summonsRemaining p <= 0.

Section Cooling.
Context {D : DateApi}.

(** The cooldown end is set (a string that is not empty) and denotes a
    time after [now]. *)
Definition cooling (now : Z) (p : SigilProfile) : Prop :=
  exists s t, summonCooldownEnd p = Some s /\ s <> ""
              /\ parseDate s = Some t /\ now < t.

End Cooling.

(** The clock is read for a parent only when its cooldown end is set. *)
Definition cooldownSet (p : SigilProfile) : bool :=
  match summonCooldownEnd p with
  | Some s => truthy s
  | None => false
  end.

(** A date interface for examples: one string is a date, 5000 ms after
    the epoch; every time prints as that string. *)
Definition sampleDates : DateApi :=
  {| toISOString := fun _ => "1970-01-01T00:00:05.000Z";
     parseDate := fun s =>
       if String.eqb s "1970-01-01T00:00:05.000Z" then Some 5000 else None |}.

(** Two profiles agree on every field but [summonsRemaining] and
    [summonCooldownEnd]. *)
Definition same_other_fields (p p' : SigilProfile) : Prop :=
  id p' = id p /\ name p' = name p /\ class p' = class p /\ subclass p' = subclass p
  /\ rarity p' = rarity p /\ generation p' = generation p /\ level p' = level p
  /\ xp p' = xp p /\ xpToNextLevel p' = xpToNextLevel p /\ stats p' = stats p
  /\ statGrowthPrimary p' = statGrowthPrimary p
  /\ statGrowthSecondary p' = statGrowthSecondary p
  /\ genes p' = genes p /\ profession p' = profession p
  /\ professionSkillLevel p' = professionSkillLevel p
  /\ stamina p' = stamina p /\ maxStamina p' = maxStamina p
  /\ hp p' = hp p /\ maxHp p' = maxHp p /\ mp p' = mp p /\ maxMp p' = maxMp p
  /\ maxSummons p' = maxSummons p /\ parentIds p' = parentIds p
  /\ owner p' = owner p /\ createdAt p' = createdAt p.

(** Two siblings, bred from the same parents recorded in opposite order. *)
Definition siblingWorld : World :=
  with_heap
    (<[7%positive := OProfile (sampleParent "C" 3 4 4 None (Some ("A", "B")) common
                                 1%positive 2%positive)]>
    (<[8%positive := OProfile (sampleParent "D" 3 4 4 None (Some ("B", "A")) common
                                 4%positive 5%positive)]> sampleHeap))
    sampleWorld.

(** The value [generateBaseStats] gives a stat of base value [base] when
    its draw is [r]: the base plus [Math.floor(r * 5) - 2], at least 1. *)
Definition jitter (base : Z) (r : Q) : Z := Z.max 1 (base + (floorTimes r 5 - 2)).

(** The eight stats take the draws [d], [d+1], ..., [d+7] of [rnd], in
    the order of [STAT_KEYS]. *)
Definition jitteredStats (base : SigilStats) (rnd : nat -> Q) (d : nat) : SigilStats :=
  mkPerStat
    (jitter (s_str base) (rnd d)) (jitter (s_dex base) (rnd (1 + d)%nat))
    (jitter (s_agi base) (rnd (2 + d)%nat)) (jitter (s_vit base) (rnd (3 + d)%nat))
    (jitter (s_end base) (rnd (4 + d)%nat)) (jitter (s_int base) (rnd (5 + d)%nat))
    (jitter (s_wis base) (rnd (6 + d)%nat)) (jitter (s_lck base) (rnd (7 + d)%nat)).

(** Every stat of [s'] is at least the same stat of [s]. *)
Definition stats_le (s s' : SigilStats) : Prop :=
  forall k, stat_get s k <= stat_get s' k.

Definition stats_positive (s : SigilStats) : Prop := forall k, 1 <= stat_get s k.

(** The budget invariant of a profile. *)
Definition summons_ok (p : SigilProfile) : Prop :=
  0 <= summonsRemaining p /\ summonsRemaining p <= maxSummons p /\ 1 <= maxSummons p.

(** The object that is being raised: the world is [w0] but for the
    stats at [l], which are at least [s], and the number of draws. *)
Definition raised (l : loc) (s : SigilStats) h r ck t u i (w : World) : Prop :=
  exists s' d', stats_le s s' /\ w = mkWorld (<[l := OStats s']> h) r d' ck t u i.


(** [hc] has every object of [h] unchanged, and no profile object that
    [h] does not have. *)
Definition grown (h hc : gmap loc obj) : Prop :=
  (forall l o, h !! l = Some o -> hc !! l = Some o)
  /\ (forall l q, hc !! l = Some (OProfile q) -> h !! l = Some (OProfile q)).

(** The fields of an offspring [o] of the parents [p1] and [p2], with
    stat block [s] and genome [G]. *)
Definition offspring_fields (p1 p2 : SigilProfile) (offspringName owner_ : string)
    (o : SigilProfile) (s : SigilStats) (G : SigilGenome) : Prop :=
  name o = offspringName /\ owner o = owner_
  /\ class o = dominant (gene_class G)
  /\ subclass o = dominant (gene_subclass G)
  /\ profession o = dominant (gene_profession G)
  /\ statGrowthPrimary o = primaryGrowth (CLASS_DEFINITIONS (class o))
  /\ statGrowthSecondary o = secondaryGrowth (CLASS_DEFINITIONS (subclass o))
  /\ professionSkillLevel o = 0
  /\ generation o = Z.max (generation p1) (generation p2) + 1
  /\ maxSummons o = Z.max 1 (Z.min (summonsRemaining p1) (summonsRemaining p2) - 1)
  /\ summonsRemaining o = maxSummons o
  /\ level o = 1 /\ xp o = 0 /\ xpToNextLevel o = xpForLevel 1
  /\ hp o = calculateMaxHp s 1 /\ maxHp o = calculateMaxHp s 1
  /\ mp o = calculateMaxMp s 1 /\ maxMp o = calculateMaxMp s 1
  /\ stamina o = 25 /\ maxStamina o = calculateMaxStamina 1
  /\ summonCooldownEnd o = None
  /\ parentIds o = Some (id p1, id p2).

(** What a summoning leaves: the result [res] and the world [w'], from
    the store [h]. *)
Definition summoned (p1 p2 : SigilProfile) (offspringName owner_ : string)
    (h : gmap loc obj) (res : SummonResult) (w' : World) : Prop :=
  exists o s G d0,
    (forall l x, h !! l = Some x -> heap w' !! l = Some x)
    /\ h !! offspring res = None
    /\ heap w' !! offspring res = Some (OProfile o)
    /\ (forall l q, heap w' !! l = Some (OProfile q) ->
          l = offspring res \/ h !! l = Some (OProfile q))
    /\ h !! stats o = None /\ heap w' !! stats o = Some (OStats s)
    /\ h !! genes o = None /\ heap w' !! genes o = Some (OGenome G)
    /\ offspring_fields p1 p2 offspringName owner_ o s G
    /\ stats_le (jitteredStats (baseStats (CLASS_DEFINITIONS (class o))) (randoms w') d0) s
    /\ res_cost res = calculateSummonCost p1 p2
    /\ sr_cost (record res) = calculateSummonCost p1 p2
    /\ parent1Id (record res) = id p1 /\ parent2Id (record res) = id p2
    /\ offspringId (record res) = id o
    /\ sr_generation (record res) = generation o.

Definition not_profile (x : obj) : Prop :=
  match x with OProfile _ => False | _ => True end.


(** Every profile of the store satisfies the budget invariant. *)
Definition store_ok (w : World) : Prop :=
  forall l p, heap w !! l = Some (OProfile p) -> summons_ok p.
(* ------------------------------------------------------------------ *)
(** * classes.ts: quest stats *)

Definition getQuestStats (p : Profession) : StatName * StatName :=
  match p with
  | mining => (str, end_)
  | fishing => (agi, lck)
  | foraging => (dex, int)
  | gardening => (wis, vit)
  end.

(* ------------------------------------------------------------------ *)
(** * genetics.ts: generation-0 genomes and gene readers *)

(** [CLASSES.filter((c) => c !== sigilClass)] *)
Definition otherClasses (sigilClass : SigilClass) : list SigilClass :=
  List.filter (fun c => negb (bool_decide (c = sigilClass))) CLASSES.

Definition generateGen0Genes (sigilClass : SigilClass) : M loc :=
  let others := otherClasses sigilClass in
  c_r <- randomFrom others ;;
  c_h <- randomFrom CLASSES ;;
  s_d <- randomFrom CLASSES ;;
  s_r <- randomFrom CLASSES ;;
  s_h <- randomFrom CLASSES ;;
  p_r <- randomFrom PROFESSIONS ;;
  p_h <- randomFrom PROFESSIONS ;;
  a_d <- randomFrom ACTIVE_ABILITIES ;;
  a_r <- randomFrom ACTIVE_ABILITIES ;;
  a_h <- randomFrom ACTIVE_ABILITIES ;;
  v_d <- randomFrom PASSIVE_ABILITIES ;;
  v_r <- randomFrom PASSIVE_ABILITIES ;;
  v_h <- randomFrom PASSIVE_ABILITIES ;;
  b_d <- randomFrom STAT_NAMES ;;
  b_r <- randomFrom STAT_NAMES ;;
  b_h <- randomFrom STAT_NAMES ;;
  alloc (OGenome
    {| gene_class := mkLayers sigilClass c_r c_h;
       gene_subclass := mkLayers s_d s_r s_h;
       gene_profession := mkLayers (professionForClass sigilClass) p_r p_h;
       activeAbility := mkLayers a_d a_r a_h;
       passiveAbility := mkLayers v_d v_r v_h;
       statBoost := mkLayers b_d b_r b_h |}).

Definition hasProfessionBonus (genes_ : SigilGenome) (p : Profession) : bool :=
  bool_decide (dominant (gene_profession genes_) = p).

Definition getStatBoostGene (genes_ : SigilGenome) : StatName :=
  dominant (statBoost genes_).

(* ------------------------------------------------------------------ *)
(** * leveling.ts *)

Definition MAX_LEVEL : Z := 100.

(** [String(n)] for an integer. *)
Definition numToString (n : Z) : string := pretty n.

(** The [{ ok, reason? }] answers of [canLevelUp] and [canQuest]. *)
Record Verdict := { ok : bool; verdict_reason : option string }.

Definition canLevelUp (sigil : SigilProfile) : Verdict :=
  if MAX_LEVEL <=? level sigil then
    {| ok := false;
       verdict_reason :=
         Some ("Already at max level (" +:+ numToString MAX_LEVEL +:+ ")") |}
  else if xp sigil <? xpToNextLevel sigil then
    {| ok := false;
       verdict_reason :=
         Some ("Need " +:+ numToString (xpToNextLevel sigil - xp sigil)
               +:+ " more XP (" +:+ numToString (xp sigil) +:+ "/"
               +:+ numToString (xpToNextLevel sigil) +:+ ")") |}
  else {| ok := true; verdict_reason := None |}.

(** The ten fields that [levelUp] assigns; the other seventeen are copied. *)
Definition leveled (p : SigilProfile) (level_ xp_ xpToNextLevel_ : Z) (stats_ : loc)
    (maxHp_ hp_ maxMp_ mp_ maxStamina_ stamina_ : Z) : SigilProfile :=
  {| id := id p; name := name p; class := class p; subclass := subclass p;
     rarity := rarity p; generation := generation p;
     level := level_; xp := xp_; xpToNextLevel := xpToNextLevel_; stats := stats_;
     statGrowthPrimary := statGrowthPrimary p;
     statGrowthSecondary := statGrowthSecondary p; genes := genes p;
     profession := profession p; professionSkillLevel := professionSkillLevel p;
     stamina := stamina_; maxStamina := maxStamina_; hp := hp_; maxHp := maxHp_;
     mp := mp_; maxMp := maxMp_;
     summonsRemaining := summonsRemaining p;
     maxSummons := maxSummons p; summonCooldownEnd := summonCooldownEnd p;
     parentIds := parentIds p; owner := owner p; createdAt := createdAt p |}.

Definition set_level (v : Z) (p : SigilProfile) : SigilProfile :=
  leveled p v (xp p) (xpToNextLevel p) (stats p)
          (maxHp p) (hp p) (maxMp p) (mp p) (maxStamina p) (stamina p).
Definition set_xp (v : Z) (p : SigilProfile) : SigilProfile :=
  leveled p (level p) v (xpToNextLevel p) (stats p)
          (maxHp p) (hp p) (maxMp p) (mp p) (maxStamina p) (stamina p).
Definition set_xpToNextLevel (v : Z) (p : SigilProfile) : SigilProfile :=
  leveled p (level p) (xp p) v (stats p)
          (maxHp p) (hp p) (maxMp p) (mp p) (maxStamina p) (stamina p).
Definition set_stats (v : loc) (p : SigilProfile) : SigilProfile :=
  leveled p (level p) (xp p) (xpToNextLevel p) v
          (maxHp p) (hp p) (maxMp p) (mp p) (maxStamina p) (stamina p).
Definition set_maxHp (v : Z) (p : SigilProfile) : SigilProfile :=
  leveled p (level p) (xp p) (xpToNextLevel p) (stats p)
          v (hp p) (maxMp p) (mp p) (maxStamina p) (stamina p).
Definition set_hp (v : Z) (p : SigilProfile) : SigilProfile :=
  leveled p (level p) (xp p) (xpToNextLevel p) (stats p)
          (maxHp p) v (maxMp p) (mp p) (maxStamina p) (stamina p).
Definition set_maxMp (v : Z) (p : SigilProfile) : SigilProfile :=
  leveled p (level p) (xp p) (xpToNextLevel p) (stats p)
          (maxHp p) (hp p) v (mp p) (maxStamina p) (stamina p).
Definition set_mp (v : Z) (p : SigilProfile) : SigilProfile :=
  leveled p (level p) (xp p) (xpToNextLevel p) (stats p)
          (maxHp p) (hp p) (maxMp p) v (maxStamina p) (stamina p).
Definition set_maxStamina (v : Z) (p : SigilProfile) : SigilProfile :=
  leveled p (level p) (xp p) (xpToNextLevel p) (stats p)
          (maxHp p) (hp p) (maxMp p) (mp p) v (stamina p).
Definition set_stamina (v : Z) (p : SigilProfile) : SigilProfile :=
  leveled p (level p) (xp p) (xpToNextLevel p) (stats p)
          (maxHp p) (hp p) (maxMp p) (mp p) (maxStamina p) v.

(** [sigil.f = v], where [v] may read the object as it is then. *)
Definition assign (sigil : loc) (set : SigilProfile -> SigilProfile) : M unit :=
  p <- readProfile sigil ;; writeProfile sigil (set p).

Record LevelUpResult := {
  newLevel : Z;
  oldStats : loc;
  newStats : loc;
  statChanges : list (StatName * Z);
  rarityBonusApplied : bool;
  newMaxHp : Z;
  newMaxMp : Z;
  newMaxStamina : Z
}.

(** [while (s2 === s1) s2 = statKeys[...]]: [fuel] bounds the number of
    iterations; the computation stops when it is used up. *)
Fixpoint rerollWhileSame (fuel : nat) (statKeys : list StatName)
    (s1 s2 : StatName) : M StatName :=
  if decide (s2 = s1) then
    match fuel with
    | O => fail
    | S fuel' =>
      s2' <- randomFrom statKeys ;;
      rerollWhileSame fuel' statKeys s1 s2'
    end
  else ret s2.

(** The loop that fills [statChanges]: one entry per key whose value
    changed, in the order of the keys. *)
Definition changesOf (old new : SigilStats) : list (StatName * Z) :=
  List.filter (fun kv => negb (snd kv =? 0))
    (map (fun key => (key, stat_get new key - stat_get old key)) STAT_KEYS).

Definition levelUp (fuel : nat) (sigil : loc) (chosenStatBonus : option StatName)
    : M LevelUpResult :=
  oldStats_ <- (st <- field sigil stats ;; s <- readStats st ;; alloc (OStats s)) ;;
  classDef <- (c <- field sigil class ;; ret (CLASS_DEFINITIONS c)) ;;
  subclassDef <- (c <- field sigil subclass ;; ret (CLASS_DEFINITIONS c)) ;;
  newStats0 <- (st <- field sigil stats ;;
                rollStatGrowth st (primaryGrowth classDef) (secondaryGrowth subclassDef)) ;;
  match chosenStatBonus with
  | Some chosen => addToStat newStats0 chosen 1
  | None => ret tt
  end ;;;
  r <- mathRandom ;;
  (if Qltb r 0.5 then
     let statKeys := [str; dex; agi; vit; end_; int; wis; lck] in
     s1 <- randomFrom statKeys ;;
     s2 <- randomFrom statKeys ;;
     s2 <- rerollWhileSame fuel statKeys s1 s2 ;;
     addToStat newStats0 s1 1 ;;;
     addToStat newStats0 s2 1
   else ret tt) ;;;
  newLevel_ <- (l <- field sigil level ;; ret (l + 1)) ;;
  rarityBonusApplied_ <-
    (rar <- field sigil rarity ;;
     ret ((Z.rem newLevel_ 5 =? 0) && negb (bool_decide (rar = common)))) ;;
  newStats_ <- (if rarityBonusApplied_
                then rar <- field sigil rarity ;; applyRarityBonuses newStats0 rar
                else ret newStats0) ;;
  statChanges_ <- (new <- readStats newStats_ ;; old <- readStats oldStats_ ;;
                   ret (changesOf old new)) ;;
  newMaxHp_ <- (s <- readStats newStats_ ;; ret (calculateMaxHp s newLevel_)) ;;
  newMaxMp_ <- (s <- readStats newStats_ ;; ret (calculateMaxMp s newLevel_)) ;;
  let newMaxStamina_ := calculateMaxStamina newLevel_ in
  assign sigil (set_level newLevel_) ;;;
  assign sigil (fun p => set_xp (xp p - xpToNextLevel p) p) ;;;
  assign sigil (set_xpToNextLevel (xpForLevel newLevel_)) ;;;
  assign sigil (set_stats newStats_) ;;;
  assign sigil (set_maxHp newMaxHp_) ;;;
  assign sigil (set_hp newMaxHp_) ;;;
  assign sigil (set_maxMp newMaxMp_) ;;;
  assign sigil (set_mp newMaxMp_) ;;;
  assign sigil (set_maxStamina newMaxStamina_) ;;;
  (if Z.rem newLevel_ 2 =? 0
   then assign sigil (fun p => set_stamina (Z.min (stamina p + 1) newMaxStamina_) p)
   else ret tt) ;;;
  ret {| newLevel := newLevel_; oldStats := oldStats_; newStats := newStats_;
         statChanges := statChanges_; rarityBonusApplied := rarityBonusApplied_;
         newMaxHp := newMaxHp_; newMaxMp := newMaxMp_;
         newMaxStamina := newMaxStamina_ |}.

(** The loop of [totalXpToLevel]: [n] iterations are left, the next is [i]. *)
Fixpoint totalXp_loop (n : nat) (i total : Z) : Z :=
  match n with
  | O => total
  | S n' => totalXp_loop n' (i + 1) (total + xpForLevel i)
  end.

Definition totalXpToLevel (targetLevel : Z) : Z :=
  totalXp_loop (Z.to_nat (targetLevel - 1)) 1 0.

(* ------------------------------------------------------------------ *)
(** * quests.ts *)

Definition STAMINA_COST : Z := 5.
Definition STAMINA_RECOVERY_MINUTES : Z := 20.

Record DropTableEntry := {
  entry_name : string;
  entry_rarity : Rarity;
  baseChance : Q;
  lckScaling : Q
}.

Record QuestItemDrop := {
  drop_name : string;
  quantity : Z;
  drop_rarity : Rarity
}.

Definition dropEntry (n : string) (r : Rarity) (b s : Q) : DropTableEntry :=
  {| entry_name := n; entry_rarity := r; baseChance := b; lckScaling := s |}.

Definition DROP_TABLES (p : Profession) : list DropTableEntry :=
  match p with
  | mining =>
    [dropEntry "Iron Shard" common 0.3 0.005;
     dropEntry "Gold Nugget" uncommon 0.1 0.005;
     dropEntry "Crystal Core" rare 0.02 0.003;
     dropEntry "Summoning Stone" legendary 0.003 0.001]
  | fishing =>
    [dropEntry "Common Fish" common 0.4 0.005;
     dropEntry "Rare Fish" uncommon 0.12 0.005;
     dropEntry "Golden Koi" rare 0.025 0.003;
     dropEntry "Abyssal Pearl" legendary 0.004 0.001]
  | foraging =>
    [dropEntry "Herb Bundle" common 0.35 0.005;
     dropEntry "Rare Mushroom" uncommon 0.1 0.005;
     dropEntry "Ancient Root" rare 0.02 0.003;
     dropEntry "Spirit Blossom" legendary 0.003 0.001]
  | gardening =>
    [dropEntry "Seed Pouch" common 0.3 0.005;
     dropEntry "Enchanted Bloom" uncommon 0.1 0.005;
     dropEntry "Life Essence" rare 0.02 0.003;
     dropEntry "Genesis Seed" legendary 0.003 0.001]
  end.

Definition canQuest (sigil : SigilProfile) : Verdict :=
  if stamina sigil <? STAMINA_COST then
    {| ok := false;
       verdict_reason :=
         Some ("Insufficient stamina (" +:+ numToString (stamina sigil) +:+ "/"
               +:+ numToString STAMINA_COST +:+ " needed)") |}
  else if hp sigil <=? 0 then
    {| ok := false; verdict_reason := Some "Sigil is exhausted (0 HP)" |}
  else {| ok := true; verdict_reason := None |}.

(** The loop of [rollDrops] over what is left of the table; [drops] is
    the array filled so far. *)
Fixpoint rollDrops_loop (table : list DropTableEntry) (lck_ : Z)
    (drops : list QuestItemDrop) : M (list QuestItemDrop) :=
  match table with
  | [] => ret drops
  | entry :: rest =>
    let chance_ := (baseChance entry + inject_Z lck_ * lckScaling entry)%Q in
    r <- mathRandom ;;
    if Qltb r chance_
    then rollDrops_loop rest lck_
           (drops ++ [{| drop_name := entry_name entry; quantity := 1;
                         drop_rarity := entry_rarity entry |}])
    else rollDrops_loop rest lck_ drops
  end.

Definition rollDrops (questType : Profession) (lck_ : Z) : M (list QuestItemDrop) :=
  rollDrops_loop (DROP_TABLES questType) lck_ [].

(** The loop of [recommendQuest] over what is left of the four quests. *)
Fixpoint recommend_loop (sigil : loc) (quests : list Profession)
    (bestQuest : Profession) (bestScore : Z) : M Profession :=
  match quests with
  | [] => ret bestQuest
  | quest :: rest =>
    let '(p, s) := getQuestStats quest in
    statScore <- (st <- field sigil stats ;; a <- readStats st ;;
                  st' <- field sigil stats ;; b <- readStats st' ;;
                  ret (stat_get a p + stat_get b s)) ;;
    geneBonus <- (gl <- field sigil genes ;; g <- readGenome gl ;;
                  ret (if hasProfessionBonus g quest then 20 else 0)) ;;
    let score := statScore + geneBonus in
    if bestScore <? score
    then recommend_loop sigil rest quest score
    else recommend_loop sigil rest bestQuest bestScore
  end.

Definition recommendQuest (sigil : loc) : M Profession :=
  bestQuest <- field sigil profession ;;
  recommend_loop sigil [mining; fishing; foraging; gardening] bestQuest 0.

Section Quests.
Context {D : DateApi}.

(** [None] is [NaN]: the time value of an invalid date. *)
Definition calculateStaminaRecovery (lastCheckTime : string)
    (currentStamina maxStamina_ : Z) : M (option Z) :=
  now <- dateNow ;;
  ret match parseDate lastCheckTime with
      | Some last =>
        let elapsed := now - last in
        let minutesElapsed := (inject_Z elapsed / inject_Z (1000 * 60))%Q in
        let recovered :=
          Qfloor (minutesElapsed / inject_Z STAMINA_RECOVERY_MINUTES) in
        Some (Z.min (currentStamina + recovered) maxStamina_)
      | None => None
      end.

End Quests.

(* ------------------------------------------------------------------ *)
(** * Vocabulary of the further statements *)

(** The rank of a tier in [RARITY_TIERS]. *)
Definition tierRank (r : Rarity) : Z := indexOf RARITY_TIERS r.

(** A date interface that prints a time value in decimal and reads it
    back, for examples that need both directions. *)
Definition decimalDates : DateApi :=
  {| toISOString := fun t => NilZero.string_of_int (Z.to_int t);
     parseDate := fun s => option_map Z.of_int (NilZero.int_of_string s) |}.

(** Printing a time value and parsing it gives the time value back. *)
Definition dates_round_trip (D : DateApi) : Prop :=
  forall t, parseDate (toISOString t) = Some t /\ toISOString t <> "".

(** [m], run from [w], refuses, for identity or for kinship. *)
Definition refused_as_kin (m : M SummonEligibility) (w : World) : Prop :=
  exists v w',
    m w = Some (v, w') /\ eligible v = false
    /\ (v = ineligible "Cannot summon with self"
        \/ v = ineligible "Parents are too closely related (siblings or parent-child)").

(** [m], run from [w], refuses. *)
Definition refused (m : M SummonEligibility) (w : World) : Prop :=
  exists v w', m w = Some (v, w') /\ eligible v = false.

(** The drop that [rollDrops] pushes for a table entry, and the chance
    it compares the draw with. *)
Definition dropOf (entry : DropTableEntry) : QuestItemDrop :=
  {| drop_name := entry_name entry; quantity := 1; drop_rarity := entry_rarity entry |}.
Definition dropChance (entry : DropTableEntry) (lck_ : Z) : Q :=
  (baseChance entry + inject_Z lck_ * lckScaling entry)%Q.

(** The entries of [table] whose draw, the [d]-th and following of [rnd],
    is below their chance. *)
Fixpoint droppedEntries (table : list DropTableEntry) (lck_ : Z)
    (rnd : nat -> Q) (d : nat) : list DropTableEntry :=
  match table with
  | [] => []
  | entry :: rest =>
    if Qltb (rnd d) (dropChance entry lck_)
    then entry :: droppedEntries rest lck_ rnd (S d)
    else droppedEntries rest lck_ rnd (S d)
  end.

(** The score that [recommendQuest] gives a quest. *)
Definition questScore (s : SigilStats) (g : SigilGenome) (quest : Profession) : Z :=
  stat_get s (fst (getQuestStats quest)) + stat_get s (snd (getQuestStats quest))
  + (if hasProfessionBonus g quest then 20 else 0).

(** The position of a quest in the order in which [recommendQuest] tries
    them. *)
Definition questRank (quest : Profession) : Z :=
  match quest with mining => 0 | fishing => 1 | foraging => 2 | gardening => 3 end.

(** Among any [fuel] draws in a row, not all pick the same stat. *)
Definition no_long_run (fuel : nat) (rnd : nat -> Q) : Prop :=
  forall a s1, exists k, (k < fuel)%nat /\ pick STAT_KEYS (rnd (a + k)%nat) <> Some s1.

(** A world for the examples of [levelUp]: the draws alternate between
    0.1 and 0.6. *)
Definition alternating (n : nat) : Q := if Nat.even n then 0.1%Q else 0.6%Q.

(** [parentA] with the experience for its next level. *)
Definition veteranA : SigilProfile :=
  leveled parentA 1 150 100 1%positive 105 105 53 53 25 25.

Definition levelWorld : World :=
  {| heap := <[3%positive := OProfile veteranA]> sampleHeap;
     randoms := alternating; drawn := 0;
     clock := fun n => 1000 + Z.of_nat n; ticks := 0;
     ulids := fun _ => "01ID";
     issued := 0 |}.

(** What [levelUp] leaves, from a store [h] in which [sigil] is the
    profile [p] with stat block [s]: the result [res] and the world [w']. *)
Definition leveledUp (p : SigilProfile) (s : SigilStats) (h : gmap loc obj)
    (sigil : loc) (chosen : option StatName) (res : LevelUpResult) (w' : World) : Prop :=
  exists s',
    let lv := level p + 1 in
    heap w' !! sigil
    = Some (OProfile
        (leveled p lv (xp p - xpToNextLevel p) (xpForLevel lv) (newStats res)
           (calculateMaxHp s' lv) (calculateMaxHp s' lv)
           (calculateMaxMp s' lv) (calculateMaxMp s' lv)
           (calculateMaxStamina lv)
           (if Z.rem lv 2 =? 0
            then Z.min (stamina p + 1) (calculateMaxStamina lv)
            else stamina p)))
    /\ h !! newStats res = None /\ heap w' !! newStats res = Some (OStats s')
    /\ h !! oldStats res = None /\ heap w' !! oldStats res = Some (OStats s)
    /\ newStats res <> oldStats res
    /\ (forall l x, l <> sigil -> h !! l = Some x -> heap w' !! l = Some x)
    /\ stats_le s s'
    /\ (forall c, chosen = Some c -> stat_get s c + 1 <= stat_get s' c)
    /\ newLevel res = lv
    /\ statChanges res = changesOf s s'
    /\ rarityBonusApplied res
       = ((Z.rem lv 5 =? 0) && negb (bool_decide (rarity p = common)))
    /\ newMaxHp res = calculateMaxHp s' lv
    /\ newMaxMp res = calculateMaxMp s' lv
    /\ newMaxStamina res = calculateMaxStamina lv.

(** [1] when the growth roll [r] succeeds against [rate], else [0]. *)
Definition grow1 (rate r : Q) : Z := if Qltb r rate then 1 else 0.

(** The place of a stat in [STAT_KEYS]. *)
Definition statIndex (k : StatName) : nat :=
  match k with
  | str => 0 | dex => 1 | agi => 2 | vit => 3
  | end_ => 4 | int => 5 | wis => 6 | lck => 7
  end.

(** The sum of the eight stats. *)
Definition statSum (s : SigilStats) : Z :=
  fold_right Z.add 0 (map (stat_get s) STAT_KEYS).

(** Of a list of bonus entries: the points they hand out, the draws they
    take, and the most that one stat can get. *)
Definition bonusPoints (bs : list StatBonus) : Z :=
  fold_right Z.add 0 (map (fun b => Z.of_nat (count b) * amount b) bs).
Definition bonusDraws (bs : list StatBonus) : nat :=
  fold_right Nat.add 0%nat (map count bs).
Definition bonusCap (bs : list StatBonus) : Z :=
  fold_right Z.add 0 (map amount bs).

(** The entry [b] with its [random] flag turned over. *)
Definition flipRandom (b : StatBonus) : StatBonus :=
  {| count := count b; amount := amount b; random := negb (random b) |}.
(* ------------------------------------------------------------------ *)
(** * Numbers *)

Lemma Qltb_lt (x y : Q) : Qltb x y = true <-> (x < y)%Q.
Proof. unfold Qltb, Qlt. apply Z.ltb_lt. Qed.

Lemma Qltb_ge (x y : Q) : Qltb x y = false <-> (y <= x)%Q.
Proof. unfold Qltb, Qle. rewrite Z.ltb_ge. reflexivity. Qed.

Ltac case_Qltb :=
  match goal with
  | |- context [Qltb ?x ?y] =>
    let E := fresh "E" in
    destruct (Qltb x y) eqn:E;
    [apply Qltb_lt in E | apply Qltb_ge in E]
  end.

Lemma Qfloor_iff (x : Q) (z : Z) :
  Qfloor x = z <-> (inject_Z z <= x)%Q /\ (x < inject_Z (z + 1))%Q.
Proof.
  split.
  - intros <-. split; [apply Qfloor_le | apply Qlt_floor].
  - intros [Hlo Hhi].
    assert (z <= Qfloor x) as H1.
    { rewrite <- (Qfloor_Z z). apply Qfloor_resp_le, Hlo. }
    assert (Qfloor x < z + 1) as H2.
    { rewrite Zlt_Qlt. eapply Qle_lt_trans; [apply Qfloor_le | exact Hhi]. }
    lia.
Qed.

(** [Math.floor(r * n)] is an index below [n] when [r] is in [0,1). *)
Lemma floorTimes_range (r : Q) (n : Z) :
  (0 <= r)%Q -> (r < 1)%Q -> 0 < n -> 0 <= floorTimes r n < n.
Proof.
  intros H0 H1 Hn. unfold floorTimes.
  assert (0 < inject_Z n)%Q as Hn' by (rewrite (Zlt_Qlt 0 n) in Hn; exact Hn).
  split.
  - rewrite <- (Qfloor_Z 0). apply Qfloor_resp_le. simpl.
    apply Qmult_le_0_compat; [exact H0 | apply Qlt_le_weak, Hn'].
  - rewrite Zlt_Qlt. eapply Qle_lt_trans; [apply Qfloor_le |].
    apply Qlt_le_trans with (1 * inject_Z n)%Q.
    + apply Qmult_lt_compat_r; assumption.
    + rewrite Qmult_1_l. apply Qle_refl.
Qed.

(** Each index is hit by the draws of an interval of length [1/n]. *)
Lemma floorTimes_uniform (r : Q) (n i : Z) :
  0 < n ->
  floorTimes r n = i <->
  (inject_Z i / inject_Z n <= r)%Q /\ (r < inject_Z (i + 1) / inject_Z n)%Q.
Proof.
  intros Hn. unfold floorTimes. rewrite Qfloor_iff.
  assert (0 < inject_Z n)%Q as Hn' by (rewrite (Zlt_Qlt 0 n) in Hn; exact Hn).
  split; intros [Ha Hb]; split.
  - apply Qle_shift_div_r; assumption.
  - apply Qlt_shift_div_l; assumption.
  - setoid_replace (inject_Z i) with (inject_Z i / inject_Z n * inject_Z n)%Q
      using relation Qeq by (field; lra).
    apply Qmult_le_compat_r; [exact Ha | apply Qlt_le_weak, Hn'].
  - setoid_replace (inject_Z (i + 1)) with (inject_Z (i + 1) / inject_Z n * inject_Z n)%Q
      using relation Qeq by (field; lra).
    apply Qmult_lt_compat_r; assumption.
Qed.

(* ------------------------------------------------------------------ *)
(** * The offspring rarity roll *)

Lemma parentBonus_range (p1 p2 : Rarity) :
  (0 <= parentBonus p1 p2)%Q /\ (parentBonus p1 p2 <= 0.12)%Q.
Proof. destruct p1, p2; split; compute; discriminate. Qed.

Lemma rollOffspringRarity_at_unfold (p1 p2 : Rarity) (roll : Q) :
  rollOffspringRarity_at p1 p2 roll =
  if Qltb roll (tierUpper p1 p2 mythic) then mythic
  else if Qltb roll (tierUpper p1 p2 legendary) then legendary
  else if Qltb roll (tierUpper p1 p2 rare) then rare
  else if Qltb roll (tierUpper p1 p2 uncommon) then uncommon
  else common.
Proof. reflexivity. Qed.

(** The draws mapped to a tier are exactly those of its interval. *)
Lemma roll_tier_interval (p1 p2 t : Rarity) (r : Q) :
  (0 <= r)%Q -> (r < 1)%Q ->
  rollOffspringRarity_at p1 p2 r = t <->
  (tierLower p1 p2 t <= r)%Q /\ (r < tierUpper p1 p2 t)%Q.
Proof.
  intros H0 H1. rewrite rollOffspringRarity_at_unfold.
  destruct (parentBonus_range p1 p2) as [Hb0 Hb1].
  unfold tierLower, tierUpper.
  set (b := parentBonus p1 p2) in *.
  repeat case_Qltb; destruct t; split;
    first [ discriminate | intros _; split; lra | intros [? ?]; try reflexivity; lra ].
Qed.

(** The intervals of the five tiers tile [0,1) in the order mythic,
    legendary, rare, uncommon, common. *)
Lemma tier_intervals_ordered (p1 p2 t : Rarity) :
  (0 <= tierLower p1 p2 t)%Q /\ (tierLower p1 p2 t < tierUpper p1 p2 t)%Q
  /\ (tierUpper p1 p2 t <= 1)%Q.
Proof.
  destruct (parentBonus_range p1 p2) as [Hb0 Hb1].
  unfold tierLower, tierUpper.
  set (b := parentBonus p1 p2) in *.
  destruct t; repeat split; lra.
Qed.

Lemma rollRarity_at_interval (t : Rarity) (r : Q) :
  (0 <= r)%Q -> (r < 1)%Q ->
  rollRarity_at r = t <-> (baseLower t <= r)%Q /\ (r < baseUpper t)%Q.
Proof.
  intros H0 H1. unfold rollRarity_at, RARITY_KEYS, rollRarity_from.
  cbn [RARITY_DEFINITIONS chance].
  assert (E1 : (0 + 0.75 == 0.75)%Q) by reflexivity.
  assert (E2 : (0 + 0.75 + 0.20 == 0.95)%Q) by reflexivity.
  assert (E3 : (0 + 0.75 + 0.20 + 0.04 == 0.99)%Q) by reflexivity.
  assert (E4 : (0 + 0.75 + 0.20 + 0.04 + 0.009 == 0.999)%Q) by reflexivity.
  assert (E5 : (0 + 0.75 + 0.20 + 0.04 + 0.009 + 0.001 == 1)%Q) by reflexivity.
  repeat case_Qltb; destruct t; unfold baseLower, baseUpper; split;
    first [ discriminate | intros _; split; lra | intros [? ?]; try reflexivity; lra ].
Qed.

(** What [rollRarity] gives each tier is the registry's chance. *)
Lemma rollRarity_measure (t : Rarity) :
  (baseUpper t - baseLower t == chance (RARITY_DEFINITIONS t))%Q.
Proof. destruct t; reflexivity. Qed.

(** C1.  What the code does.  With two common parents a draw is mapped
    to mythic on [0, 0.001), legendary on [0.001, 0.009), rare on
    [0.009, 0.04), uncommon on [0.04, 0.20) and common on [0.20, 1): the
    probabilities are 0.001, 0.008, 0.031, 0.16 and 0.80.  Only mythic has
    the registry's chance; legendary, rare, uncommon and common have not.
    The draw 0.0095 gives rare, although mythic and legendary together
    have registry chance 0.010; the draw 0.22 gives common, although
    common has registry chance 0.75 only if the other four tiers fill
    [0, 0.25).  Of 1000 evenly spaced draws, 1, 8, 31, 160 and 800 fall in
    the five tiers; [rollRarity] gives 1, 9, 40, 200 and 750, each tier
    its registry chance.  With
    two mythic parents mythic has probability 0.0022: more than 0.001,
    less than one percent. *)
Theorem rollOffspringRarity_distribution :
  (forall t r, (0 <= r)%Q -> (r < 1)%Q ->
     rollOffspringRarity_at common common r = t <->
     (tierLower common common t <= r)%Q /\ (r < tierUpper common common t)%Q)
  /\ (forall t, (0 <= tierLower common common t)%Q
                /\ (tierLower common common t < tierUpper common common t)%Q
                /\ (tierUpper common common t <= 1)%Q)
  /\ (tierMeasure common common mythic == 0.001)%Q
  /\ (tierMeasure common common legendary == 0.008)%Q
  /\ (tierMeasure common common rare == 0.031)%Q
  /\ (tierMeasure common common uncommon == 0.16)%Q
  /\ (tierMeasure common common common == 0.80)%Q
  /\ (tierMeasure common common mythic == chance (RARITY_DEFINITIONS mythic))%Q
  /\ ~ (tierMeasure common common legendary == chance (RARITY_DEFINITIONS legendary))%Q
  /\ ~ (tierMeasure common common rare == chance (RARITY_DEFINITIONS rare))%Q
  /\ ~ (tierMeasure common common uncommon == chance (RARITY_DEFINITIONS uncommon))%Q
  /\ ~ (tierMeasure common common common == chance (RARITY_DEFINITIONS common))%Q
  /\ rollOffspringRarity_at common common 0.0095 = rare
  /\ rollOffspringRarity_at common common 0.22 = common
  /\ map (countTier (rollOffspringRarity_at common common) 1000)
         [mythic; legendary; rare; uncommon; common]
     = [1; 8; 31; 160; 800]%nat
  /\ map (countTier rollRarity_at 1000) [mythic; legendary; rare; uncommon; common]
     = [1; 9; 40; 200; 750]%nat
  /\ (forall t, (baseUpper t - baseLower t == chance (RARITY_DEFINITIONS t))%Q)
  /\ (forall t r, (0 <= r)%Q -> (r < 1)%Q ->
        rollRarity_at r = t <-> (baseLower t <= r)%Q /\ (r < baseUpper t)%Q)
  /\ (forall r, (0 <= r)%Q -> (r < 1)%Q ->
        rollOffspringRarity_at mythic mythic r = mythic <-> (r < 0.0022)%Q)
  /\ (tierMeasure mythic mythic mythic == 0.0022)%Q
  /\ (chance (RARITY_DEFINITIONS mythic) < tierMeasure mythic mythic mythic)%Q
  /\ (tierMeasure mythic mythic mythic < 0.01)%Q.
Proof.
  split; [intros t r H0 H1; apply roll_tier_interval; assumption |].
  split; [intros t; apply tier_intervals_ordered |].
  do 6 (split; [reflexivity |]).
  do 4 (split; [compute; discriminate |]).
  do 2 (split; [reflexivity |]).
  do 2 (split; [vm_compute; reflexivity |]).
  split; [apply rollRarity_measure |].
  split; [intros t r H0 H1; apply rollRarity_at_interval; assumption |].
  split.
  { intros r H0 H1. rewrite (roll_tier_interval mythic mythic mythic r H0 H1).
    assert (E : (tierUpper mythic mythic mythic == 0.0022)%Q) by reflexivity.
    rewrite E. unfold tierLower.
    split; [intros [_ Hr]; exact Hr | intros Hr; split; assumption]. }
  split; [reflexivity |].
  split; reflexivity.
Qed.

(* ------------------------------------------------------------------ *)
(** * Cost and cooldown *)

(** C2.  A parent costs 2000, plus 1000 per summon consumed, plus 500 per
    generation; a summoning costs the larger of the two parents' costs,
    not their sum: costs 2500 and 3200 give 3200, and two generation-0
    parents with nothing consumed give 2000. *)
Theorem calculateSummonCost_max (parent1 parent2 : SigilProfile) :
  parentCost parent1 =
    2000 + 1000 * (maxSummons parent1 - summonsRemaining parent1)
    + 500 * generation parent1
  /\ calculateSummonCost parent1 parent2 =
       Z.max (parentCost parent1) (parentCost parent2)
  /\ (forall c1 c2, parentCost parent1 = c1 -> parentCost parent2 = c2 ->
        calculateSummonCost parent1 parent2 = Z.max c1 c2
        /\ (c1 = 2500 -> c2 = 3200 -> calculateSummonCost parent1 parent2 = 3200))
  /\ (generation parent1 = 0 -> generation parent2 = 0 ->
      summonsRemaining parent1 = maxSummons parent1 ->
      summonsRemaining parent2 = maxSummons parent2 ->
      calculateSummonCost parent1 parent2 = 2000).
Proof.
  unfold calculateSummonCost, parentCost, BASE_COST, COST_PER_SUMMON, COST_PER_GENERATION.
  repeat split; intros; subst; try lia.
Qed.

Lemma calculateSummonCost_max_witness :
  calculateSummonCost (sampleProfile "a" 1 9 9)
                      (sampleProfile "b" 2 9 9) = 3000
  /\ calculateSummonCost (sampleProfile "a" 0 10 10)
                         (sampleProfile "b" 0 10 10) = 2000.
Proof.
  split.
  - destruct (calculateSummonCost_max (sampleProfile "a" 1 9 9)
                (sampleProfile "b" 2 9 9)) as (_ & _ & H & _).
    destruct (H 2500 3000 eq_refl eq_refl) as [-> _]. reflexivity.
  - apply (calculateSummonCost_max (sampleProfile "a" 0 10 10)
             (sampleProfile "b" 0 10 10)); reflexivity.
Defined.

(** C6.  With [used = maxSummons - summonsRemaining], the cooldown is
    [4 + 4 * used] hours for generation 0 and
    [(24 + 8 * generation) * (used + 1)] hours from generation 1 on; it
    reads three fields of the parent itself and nothing else, and two
    parents can have different cooldowns. *)
Theorem cooldownHours_schedule (parent other : SigilProfile) :
  let used := maxSummons parent - summonsRemaining parent in
  (generation parent = 0 -> cooldownHours parent = 4 + 4 * used)
  /\ (1 <= generation parent ->
      cooldownHours parent = (24 + 8 * generation parent) * (used + 1))
  /\ (generation other = generation parent ->
      maxSummons other = maxSummons parent ->
      summonsRemaining other = summonsRemaining parent ->
      cooldownHours other = cooldownHours parent)
  /\ cooldownHours (sampleProfile "a" 0 8 10)
     <> cooldownHours (sampleProfile "b" 2 8 10).
Proof.
  unfold cooldownHours, GEN0_BASE_COOLDOWN_HOURS, GEN0_COOLDOWN_INCREMENT_HOURS.
  cbv zeta. repeat split.
  - intros ->. reflexivity.
  - intros Hg. destruct (Z.eqb_spec (generation parent) 0); [lia | reflexivity].
  - intros -> -> ->. reflexivity.
  - discriminate.
Qed.

Lemma cooldownHours_schedule_witness :
  cooldownHours (sampleProfile "a" 0 8 10) = 12
  /\ cooldownHours (sampleProfile "b" 2 8 10) = 120.
Proof.
  split.
  - destruct (cooldownHours_schedule (sampleProfile "a" 0 8 10)
                (sampleProfile "a" 0 8 10)) as (H & _).
    exact (H eq_refl).
  - destruct (cooldownHours_schedule (sampleProfile "b" 2 8 10)
                (sampleProfile "b" 2 8 10)) as (_ & H & _).
    apply H. simpl. lia.
Defined.

(* ------------------------------------------------------------------ *)
(** * Reasoning about computations *)

Lemma wp_ret {A} (a : A) w (Q : A -> World -> Prop) : Q a w -> wp (ret a) w Q.
Proof. intros H. exact H. Qed.

Lemma wp_bind {A B} (m : M A) (k : A -> M B) w (Q : B -> World -> Prop) :
  wp m w (fun a w' => wp (k a) w' Q) -> wp (bind m k) w Q.
Proof.
  unfold wp, bind. destruct (m w) as [[a w'] |]; [intros H; exact H | intros []].
Qed.

Lemma wp_mono {A} (m : M A) w (Q Q' : A -> World -> Prop) :
  wp m w Q -> (forall a w', Q a w' -> Q' a w') -> wp m w Q'.
Proof.
  unfold wp. destruct (m w) as [[a w'] |]; [intros H HQ; apply HQ, H | intros []].
Qed.

Lemma wp_run {A} (m : M A) w (Q : A -> World -> Prop) :
  wp m w Q <-> exists a w', m w = Some (a, w') /\ Q a w'.
Proof.
  unfold wp. split.
  - destruct (m w) as [[a w'] |]; [intros H; exists a, w'; split; [reflexivity | exact H] | intros []].
  - intros (a & w' & -> & H). exact H.
Qed.

Lemma wp_mathRandom w (Q : Q -> World -> Prop) :
  Q (randoms w (drawn w)) (with_drawn (S (drawn w)) w) -> wp mathRandom w Q.
Proof. intros H. exact H. Qed.

Lemma wp_dateNow w (Q : Z -> World -> Prop) :
  Q (clock w (ticks w)) (with_ticks (S (ticks w)) w) -> wp dateNow w Q.
Proof. intros H. exact H. Qed.

Lemma wp_ulid w (Q : string -> World -> Prop) :
  Q (ulids w (issued w)) (with_issued (S (issued w)) w) -> wp ulid w Q.
Proof. intros H. exact H. Qed.

Lemma wp_alloc o w (Q : loc -> World -> Prop) :
  Q (fresh (dom (heap w))) (with_heap (<[fresh (dom (heap w)) := o]> (heap w)) w) ->
  wp (alloc o) w Q.
Proof. intros H. exact H. Qed.

Lemma wp_readProfile l p w (Q : SigilProfile -> World -> Prop) :
  heap w !! l = Some (OProfile p) -> Q p w -> wp (readProfile l) w Q.
Proof. intros Hl H. unfold wp, readProfile. rewrite Hl. exact H. Qed.

Lemma wp_readStats l s w (Q : SigilStats -> World -> Prop) :
  heap w !! l = Some (OStats s) -> Q s w -> wp (readStats l) w Q.
Proof. intros Hl H. unfold wp, readStats. rewrite Hl. exact H. Qed.

Lemma wp_readGenome l g w (Q : SigilGenome -> World -> Prop) :
  heap w !! l = Some (OGenome g) -> Q g w -> wp (readGenome l) w Q.
Proof. intros Hl H. unfold wp, readGenome. rewrite Hl. exact H. Qed.

Lemma wp_writeProfile l p0 p w (Q : unit -> World -> Prop) :
  heap w !! l = Some (OProfile p0) ->
  Q tt (with_heap (<[l := OProfile p]> (heap w)) w) -> wp (writeProfile l p) w Q.
Proof. intros Hl H. unfold wp, writeProfile. rewrite Hl. exact H. Qed.

Lemma wp_writeStats l s0 s w (Q : unit -> World -> Prop) :
  heap w !! l = Some (OStats s0) ->
  Q tt (with_heap (<[l := OStats s]> (heap w)) w) -> wp (writeStats l s) w Q.
Proof. intros Hl H. unfold wp, writeStats. rewrite Hl. exact H. Qed.

Lemma wp_field {A} l (f : SigilProfile -> A) p w (Q : A -> World -> Prop) :
  heap w !! l = Some (OProfile p) -> Q (f p) w -> wp (field l f) w Q.
Proof.
  intros Hl H. unfold field. apply wp_bind.
  eapply wp_readProfile; [exact Hl |]. apply wp_ret, H.
Qed.

Lemma wp_addToStat l k n s w (Q : unit -> World -> Prop) :
  heap w !! l = Some (OStats s) ->
  Q tt (with_heap (<[l := OStats (stat_set s k (stat_get s k + n))]> (heap w)) w) ->
  wp (addToStat l k n) w Q.
Proof.
  intros Hl H. unfold addToStat. apply wp_bind.
  eapply wp_readStats; [exact Hl |].
  eapply wp_writeStats; [exact Hl | exact H].
Qed.

Lemma fresh_loc_None (h : gmap loc obj) : h !! fresh (dom h) = None.
Proof. apply not_elem_of_dom, is_fresh. Qed.

(* ------------------------------------------------------------------ *)
(** * Inheritance of genes *)

Lemma draws_with_drawn w n : draws_in_unit w -> draws_in_unit (with_drawn n w).
Proof. intros H. exact H. Qed.

Lemma at_index_Some {A} (arr : list A) (i : Z) :
  0 <= i < Z.of_nat (length arr) -> exists x, at_index arr i = Some x /\ In x arr.
Proof.
  intros [H0 H1]. unfold at_index.
  destruct (Z.ltb_spec i 0); [lia |].
  destruct (nth_error arr (Z.to_nat i)) as [x |] eqn:E.
  - exists x. split; [reflexivity | eapply nth_error_In, E].
  - apply nth_error_None in E. lia.
Qed.

(** [randomFrom] on a pool that is not empty returns one of its values. *)
Lemma pick_Some {T} (pool : list T) (r : Q) :
  (0 <= r)%Q -> (r < 1)%Q -> pool <> [] -> exists x, pick pool r = Some x /\ In x pool.
Proof.
  intros H0 H1 Hp. unfold pick. apply at_index_Some.
  apply floorTimes_range; try assumption.
  destruct pool; [congruence | simpl length; lia].
Qed.

(** Each position of the pool is picked by an interval of draws of
    length [1 / pool.length]. *)
Lemma pick_uniform {T} (pool : list T) (r : Q) (i : nat) :
  (0 <= r)%Q -> (r < 1)%Q -> (i < length pool)%nat ->
  (inject_Z (Z.of_nat i) / inject_Z (Z.of_nat (length pool)) <= r)%Q ->
  (r < inject_Z (Z.of_nat i + 1) / inject_Z (Z.of_nat (length pool)))%Q ->
  pick pool r = nth_error pool i.
Proof.
  intros H0 H1 Hi Hlo Hhi. unfold pick, at_index.
  assert (floorTimes r (Z.of_nat (length pool)) = Z.of_nat i) as ->.
  { apply floorTimes_uniform; [lia | split; assumption]. }
  destruct (Z.ltb_spec (Z.of_nat i) 0); [lia |].
  rewrite Nat2Z.id. reflexivity.
Qed.

(** The three branches of [selectGene]: dominant below 0.75, recessive
    from 0.75 to 0.9375, hidden from there on. *)
Lemma selectGene_at_cases {T} (layers : GeneLayers T) (r : Q) :
  ((r < 0.75)%Q -> selectGene_at layers r = dominant layers)
  /\ ((0.75 <= r)%Q -> (r < 0.9375)%Q -> selectGene_at layers r = recessive layers)
  /\ ((0.9375 <= r)%Q -> selectGene_at layers r = hidden layers).
Proof.
  unfold selectGene_at, DOMINANT_CHANCE, RECESSIVE_CHANCE.
  assert (E : (0.75 + 0.1875 == 0.9375)%Q) by reflexivity.
  repeat split; intros; repeat case_Qltb; try reflexivity; lra.
Qed.

Lemma wp_randomFrom {T} (pool : list T) w (Q : T -> World -> Prop) :
  draws_in_unit w -> pool <> [] ->
  (forall x, pick pool (randoms w (drawn w)) = Some x ->
             Q x (with_drawn (S (drawn w)) w)) ->
  wp (randomFrom pool) w Q.
Proof.
  intros Hd Hp HQ. unfold randomFrom. apply wp_bind, wp_mathRandom.
  destruct (Hd (drawn w)) as [H0 H1].
  destruct (pick_Some pool _ H0 H1 Hp) as (x & Hx & _).
  rewrite Hx. apply wp_ret, HQ, Hx.
Qed.

Lemma wp_selectGene {T} (layers : GeneLayers T) w (Q : T -> World -> Prop) :
  Q (selectGene_at layers (randoms w (drawn w))) (with_drawn (S (drawn w)) w) ->
  wp (selectGene layers) w Q.
Proof. intros H. unfold selectGene. apply wp_bind, wp_mathRandom, wp_ret, H. Qed.

Lemma wp_maybeMutate {T} (gene : T) (pool : list T) w (Q : T -> World -> Prop) :
  draws_in_unit w -> pool <> [] ->
  (forall x,
     mutated_at gene pool (randoms w (drawn w)) (randoms w (S (drawn w))) = Some x ->
     Q x (with_drawn (mutation_draws (randoms w (drawn w)) + drawn w) w)) ->
  wp (maybeMutate gene pool) w Q.
Proof.
  intros Hd Hp HQ. unfold maybeMutate. apply wp_bind, wp_mathRandom.
  unfold mutated_at, mutation_draws in HQ.
  destruct (Qltb (randoms w (drawn w)) MUTATION_RATE).
  - apply wp_randomFrom; [apply draws_with_drawn, Hd | exact Hp |].
    intros x Hx. apply (HQ x Hx).
  - apply wp_ret, HQ. reflexivity.
Qed.

(** [inheritSlot] as a function of the draws it consumes.  With [c] the
    number of draws made before the call: draws [c] and [c+1] select from
    parent 1 and parent 2, draw [c+2] picks the hidden value, and each of
    the three values then has a mutation check of its own, followed by a
    draw of its own when the check succeeds. *)
Lemma inheritSlot_draws {T} (p1 p2 : GeneLayers T) (pool : list T) w :
  draws_in_unit w -> pool <> [] ->
  let rnd := randoms w in
  let c := drawn w in
  let cD := (3 + c)%nat in
  let cR := (mutation_draws (rnd cD) + cD)%nat in
  let cH := (mutation_draws (rnd cR) + cR)%nat in
  let cEnd := (mutation_draws (rnd cH) + cH)%nat in
  exists L h0,
    inheritSlot p1 p2 pool w = Some (L, with_drawn cEnd w)
    /\ pick pool (rnd (2 + c)%nat) = Some h0
    /\ mutated_at (selectGene_at p1 (rnd c)) pool (rnd cD) (rnd (S cD))
       = Some (dominant L)
    /\ mutated_at (selectGene_at p2 (rnd (1 + c)%nat)) pool (rnd cR) (rnd (S cR))
       = Some (recessive L)
    /\ mutated_at h0 pool (rnd cH) (rnd (S cH)) = Some (hidden L).
Proof.
  intros Hd Hp rnd c cD cR cH cEnd.
  assert (wp (inheritSlot p1 p2 pool) w (fun L w' =>
            w' = with_drawn cEnd w
            /\ exists h0, pick pool (rnd (2 + c)%nat) = Some h0
            /\ mutated_at (selectGene_at p1 (rnd c)) pool (rnd cD) (rnd (S cD))
               = Some (dominant L)
            /\ mutated_at (selectGene_at p2 (rnd (1 + c)%nat)) pool (rnd cR) (rnd (S cR))
               = Some (recessive L)
            /\ mutated_at h0 pool (rnd cH) (rnd (S cH)) = Some (hidden L))) as H.
  { unfold inheritSlot.
    apply wp_bind, wp_selectGene.
    apply wp_bind, wp_selectGene.
    apply wp_bind, wp_randomFrom; [exact Hd | exact Hp |]. intros h0 Hh0.
    apply wp_bind, wp_maybeMutate; [exact Hd | exact Hp |]. intros d Hd'.
    apply wp_bind, wp_maybeMutate; [exact Hd | exact Hp |]. intros r Hr'.
    apply wp_bind, wp_maybeMutate; [exact Hd | exact Hp |]. intros h Hh'.
    apply wp_ret. split; [reflexivity |].
    exists h0. repeat split; assumption. }
  apply wp_run in H. destruct H as (L & w' & Hrun & -> & h0 & H1 & H2 & H3 & H4).
  exists L, h0. repeat split; assumption.
Qed.

Lemma wp_inheritSlot {T} (p1 p2 : GeneLayers T) (pool : list T) w
    (Q : GeneLayers T -> World -> Prop) :
  draws_in_unit w -> pool <> [] ->
  (forall L n, inheritSlot p1 p2 pool w = Some (L, with_drawn n w) ->
               Q L (with_drawn n w)) ->
  wp (inheritSlot p1 p2 pool) w Q.
Proof.
  intros Hd Hp HQ.
  destruct (inheritSlot_draws p1 p2 pool w Hd Hp) as (L & h0 & Hrun & _).
  apply wp_run. eexists _, _. split; [exact Hrun |]. apply HQ, Hrun.
Qed.

Lemma wp_inheritField {T} (l1 l2 : loc) (f : SigilGenome -> GeneLayers T)
    (pool : list T) g1 g2 w (Q : GeneLayers T -> World -> Prop) :
  draws_in_unit w -> pool <> [] ->
  heap w !! l1 = Some (OGenome g1) -> heap w !! l2 = Some (OGenome g2) ->
  (forall L n, inheritSlot (f g1) (f g2) pool w = Some (L, with_drawn n w) ->
               Q L (with_drawn n w)) ->
  wp (inheritField l1 l2 f pool) w Q.
Proof.
  intros Hd Hp H1 H2 HQ. unfold inheritField.
  apply wp_bind. eapply wp_readGenome; [exact H1 |].
  apply wp_bind. eapply wp_readGenome; [exact H2 |].
  apply wp_inheritSlot; assumption.
Qed.

(** [inheritGenes] runs [inheritSlot] on the six slots one after the
    other, each on the pool of its slot and from the draws left by the
    one before, and puts the six results in a new genome object. *)
Lemma inheritGenes_slots (l1 l2 : loc) (g1 g2 : SigilGenome) w :
  draws_in_unit w ->
  heap w !! l1 = Some (OGenome g1) -> heap w !! l2 = Some (OGenome g2) ->
  exists G n1 n2 n3 n4 n5 n6,
    inheritSlot (gene_class g1) (gene_class g2) CLASSES w
      = Some (gene_class G, with_drawn n1 w)
    /\ inheritSlot (gene_subclass g1) (gene_subclass g2) CLASSES (with_drawn n1 w)
      = Some (gene_subclass G, with_drawn n2 w)
    /\ inheritSlot (gene_profession g1) (gene_profession g2) PROFESSIONS (with_drawn n2 w)
      = Some (gene_profession G, with_drawn n3 w)
    /\ inheritSlot (activeAbility g1) (activeAbility g2) ACTIVE_ABILITIES (with_drawn n3 w)
      = Some (activeAbility G, with_drawn n4 w)
    /\ inheritSlot (passiveAbility g1) (passiveAbility g2) PASSIVE_ABILITIES (with_drawn n4 w)
      = Some (passiveAbility G, with_drawn n5 w)
    /\ inheritSlot (statBoost g1) (statBoost g2) STAT_NAMES (with_drawn n5 w)
      = Some (statBoost G, with_drawn n6 w)
    /\ inheritGenes l1 l2 w
      = Some (fresh (dom (heap w)),
              with_heap (<[fresh (dom (heap w)) := OGenome G]> (heap w))
                        (with_drawn n6 w)).
Proof.
  intros Hd H1 H2.
  assert (wp (inheritGenes l1 l2) w (fun l w' =>
    exists G n1 n2 n3 n4 n5 n6,
    inheritSlot (gene_class g1) (gene_class g2) CLASSES w
      = Some (gene_class G, with_drawn n1 w)
    /\ inheritSlot (gene_subclass g1) (gene_subclass g2) CLASSES (with_drawn n1 w)
      = Some (gene_subclass G, with_drawn n2 w)
    /\ inheritSlot (gene_profession g1) (gene_profession g2) PROFESSIONS (with_drawn n2 w)
      = Some (gene_profession G, with_drawn n3 w)
    /\ inheritSlot (activeAbility g1) (activeAbility g2) ACTIVE_ABILITIES (with_drawn n3 w)
      = Some (activeAbility G, with_drawn n4 w)
    /\ inheritSlot (passiveAbility g1) (passiveAbility g2) PASSIVE_ABILITIES (with_drawn n4 w)
      = Some (passiveAbility G, with_drawn n5 w)
    /\ inheritSlot (statBoost g1) (statBoost g2) STAT_NAMES (with_drawn n5 w)
      = Some (statBoost G, with_drawn n6 w)
    /\ l = fresh (dom (heap w))
    /\ w' = with_heap (<[fresh (dom (heap w)) := OGenome G]> (heap w))
                      (with_drawn n6 w))) as H.
  { unfold inheritGenes.
    apply wp_bind. eapply wp_inheritField; try eassumption; [discriminate |].
    intros c n1 E1.
    apply wp_bind. eapply wp_inheritField; try eassumption; [discriminate |].
    intros sc n2 E2.
    apply wp_bind. eapply wp_inheritField; try eassumption; [discriminate |].
    intros pr n3 E3.
    apply wp_bind. eapply wp_inheritField; try eassumption; [discriminate |].
    intros aa n4 E4.
    apply wp_bind. eapply wp_inheritField; try eassumption; [discriminate |].
    intros pa n5 E5.
    apply wp_bind. eapply wp_inheritField; try eassumption; [discriminate |].
    intros sb n6 E6.
    apply wp_alloc.
    eexists _, n1, n2, n3, n4, n5, n6. cbn [gene_class gene_subclass gene_profession
      activeAbility passiveAbility statBoost].
    repeat split; try eassumption. }
  apply wp_run in H.
  destruct H as (l & w' & Hrun & G & n1 & n2 & n3 & n4 & n5 & n6
                 & E1 & E2 & E3 & E4 & E5 & E6 & -> & ->).
  exists G, n1, n2, n3, n4, n5, n6. repeat split; assumption.
Qed.

Lemma selectGene_at_selects {T} (layers : GeneLayers T) (r : Q) :
  selects layers r (selectGene_at layers r).
Proof. apply selectGene_at_cases. Qed.

Lemma mutated_at_mutates {T} (v : T) (pool : list T) (rnd : nat -> Q) (pos : nat) out :
  mutated_at v pool (rnd pos) (rnd (S pos)) = Some out ->
  mutates v pool rnd pos out (mutation_draws (rnd pos) + pos)%nat.
Proof.
  unfold mutated_at, mutation_draws, mutates, MUTATION_RATE. intros H.
  case_Qltb; split; intros Hc; try lra.
  - split; [exact H | reflexivity].
  - split; [congruence | reflexivity].
Qed.

Lemma streamOf_unit (l : list Q) (d : Q) :
  Forall (fun q => (0 <= q)%Q /\ (q < 1)%Q) l -> (0 <= d)%Q /\ (d < 1)%Q ->
  forall n, (0 <= streamOf l d n)%Q /\ (streamOf l d n < 1)%Q.
Proof.
  intros Hl Hd n. unfold streamOf. revert n.
  induction Hl as [| q l Hq _ IH]; intros [| n]; simpl; auto.
Qed.

Lemma sampleWorld_draws : draws_in_unit sampleWorld.
Proof.
  unfold draws_in_unit. change (randoms sampleWorld) with sampleDraws.
  unfold sampleDraws. apply streamOf_unit; [| split; [discriminate | reflexivity]].
  repeat constructor; discriminate.
Qed.

(** C4.  For every slot: the offspring's dominant layer is the value
    selected from parent 1 and its recessive layer the value selected from
    parent 2, selection giving the dominant layer for a draw below 0.75,
    the recessive layer from 0.75 to 0.9375 and the hidden layer above
    (weights 0.75, 0.1875, 0.0625); the hidden layer is picked from the
    pool by a draw of its own; each of the three values is then replaced,
    when a check draw of its own is below 0.02, by the pool value that one
    more draw picks; a draw picks position [i] of the pool exactly on an
    interval of length [1 / pool.length].  [inheritGenes] applies this to
    the six slots in turn, each from the draws the previous one left. *)
Theorem inheritSlot_layers {T} (p1 p2 : GeneLayers T) (pool : list T)
    (l1 l2 : loc) (g1 g2 : SigilGenome) (w : World) :
  draws_in_unit w -> pool <> [] ->
  heap w !! l1 = Some (OGenome g1) -> heap w !! l2 = Some (OGenome g2) ->
  (exists (L : GeneLayers T) (fromP1 fromP2 fresh_hidden : T) (cR cH cEnd : nat),
      inheritSlot p1 p2 pool w = Some (L, with_drawn cEnd w)
      /\ selects p1 (randoms w (drawn w)) fromP1
      /\ selects p2 (randoms w (1 + drawn w)%nat) fromP2
      /\ pick pool (randoms w (2 + drawn w)%nat) = Some fresh_hidden
      /\ mutates fromP1 pool (randoms w) (3 + drawn w)%nat (dominant L) cR
      /\ mutates fromP2 pool (randoms w) cR (recessive L) cH
      /\ mutates fresh_hidden pool (randoms w) cH (hidden L) cEnd)
  /\ (forall (r : Q) (i : nat),
        (0 <= r)%Q -> (r < 1)%Q -> (i < length pool)%nat ->
        (inject_Z (Z.of_nat i) / inject_Z (Z.of_nat (length pool)) <= r)%Q ->
        (r < inject_Z (Z.of_nat i + 1) / inject_Z (Z.of_nat (length pool)))%Q ->
        pick pool r = nth_error pool i)
  /\ (DOMINANT_CHANCE == 0.75 /\ RECESSIVE_CHANCE == 0.9375 - 0.75
      /\ HIDDEN_CHANCE == 1 - 0.9375 /\ MUTATION_RATE == 0.02)%Q
  /\ (exists G n1 n2 n3 n4 n5 n6,
        inheritSlot (gene_class g1) (gene_class g2) CLASSES w
          = Some (gene_class G, with_drawn n1 w)
        /\ inheritSlot (gene_subclass g1) (gene_subclass g2) CLASSES (with_drawn n1 w)
          = Some (gene_subclass G, with_drawn n2 w)
        /\ inheritSlot (gene_profession g1) (gene_profession g2) PROFESSIONS
             (with_drawn n2 w)
          = Some (gene_profession G, with_drawn n3 w)
        /\ inheritSlot (activeAbility g1) (activeAbility g2) ACTIVE_ABILITIES
             (with_drawn n3 w)
          = Some (activeAbility G, with_drawn n4 w)
        /\ inheritSlot (passiveAbility g1) (passiveAbility g2) PASSIVE_ABILITIES
             (with_drawn n4 w)
          = Some (passiveAbility G, with_drawn n5 w)
        /\ inheritSlot (statBoost g1) (statBoost g2) STAT_NAMES (with_drawn n5 w)
          = Some (statBoost G, with_drawn n6 w)
        /\ inheritGenes l1 l2 w
          = Some (fresh (dom (heap w)),
                  with_heap (<[fresh (dom (heap w)) := OGenome G]> (heap w))
                            (with_drawn n6 w))).
Proof.
  intros Hd Hp H1 H2. split; [| split; [| split]].
  - destruct (inheritSlot_draws p1 p2 pool w Hd Hp) as (L & h0 & Hrun & Hh & HD & HR & HH).
    eexists L, _, _, h0, _, _, _. split; [exact Hrun |].
    split; [apply selectGene_at_selects |].
    split; [apply selectGene_at_selects |].
    split; [exact Hh |].
    split; [apply mutated_at_mutates, HD |].
    split; [apply mutated_at_mutates, HR | apply mutated_at_mutates, HH].
  - intros r i. apply pick_uniform.
  - repeat split; reflexivity.
  - apply inheritGenes_slots; assumption.
Qed.

Example inheritSlot_sample :
  inheritSlot (gene_class genomeA) (gene_class genomeB) CLASSES sampleWorld
  = Some (mkLayers veil tidecaller hollow, with_drawn 7 sampleWorld).
Proof. vm_compute. reflexivity. Qed.

Lemma inheritSlot_layers_witness :
  exists L cEnd,
    inheritSlot (gene_class genomeA) (gene_class genomeB) CLASSES sampleWorld
    = Some (L, with_drawn cEnd sampleWorld).
Proof.
  destruct (inheritSlot_layers (gene_class genomeA) (gene_class genomeB) CLASSES
              2%positive 5%positive genomeA genomeB sampleWorld
              sampleWorld_draws ltac:(discriminate) eq_refl eq_refl)
    as [(L & _ & _ & _ & _ & _ & cEnd & H & _) _].
  exists L, cEnd. exact H.
Defined.

(* ------------------------------------------------------------------ *)
(** * Eligibility *)

Lemma includes_inPair (ids : string * string) (x : string) :
  includes ids x = true <-> inPair x ids.
Proof.
  unfold includes, inPair. rewrite orb_true_iff, !String.eqb_eq.
  split; intros [H | H]; auto.
Qed.

Lemma areTooRelated_related (p1 p2 : SigilProfile) :
  areTooRelated (parentIds p1) (parentIds p2) (id p1) (id p2) = true <-> related p1 p2.
Proof.
  unfold areTooRelated, related.
  destruct (parentIds p1) as [ids1 |], (parentIds p2) as [ids2 |].
  - destruct (includes ids1 (id p2)) eqn:E1.
    { split; [intros _ | reflexivity]. left. exists ids1.
      split; [reflexivity | apply includes_inPair, E1]. }
    destruct (includes ids2 (id p1)) eqn:E2.
    { split; [intros _ | reflexivity]. right. left. exists ids2.
      split; [reflexivity | apply includes_inPair, E2]. }
    destruct ((fst ids1 =? fst ids2)%string && (snd ids1 =? snd ids2)%string
              || (fst ids1 =? snd ids2)%string && (snd ids1 =? fst ids2)%string) eqn:E3.
    + split; [intros _ | reflexivity]. right. right. exists ids1, ids2.
      split; [reflexivity |]. split; [reflexivity |].
      rewrite orb_true_iff, !andb_true_iff, !String.eqb_eq in E3. exact E3.
    + split; [discriminate |]. intros [H | [H | H]]; exfalso.
      * destruct H as (ids & [= <-] & H). apply includes_inPair in H. congruence.
      * destruct H as (ids & [= <-] & H). apply includes_inPair in H. congruence.
      * destruct H as (i1 & i2 & [= <-] & [= <-] & H).
        rewrite <- !String.eqb_eq, <- !andb_true_iff, <- orb_true_iff in H. congruence.
  - destruct (includes ids1 (id p2)) eqn:E1.
    { split; [intros _ | reflexivity]. left. exists ids1.
      split; [reflexivity | apply includes_inPair, E1]. }
    split; [discriminate |]. intros [H | [H | H]]; exfalso.
    + destruct H as (ids & [= <-] & H). apply includes_inPair in H. congruence.
    + destruct H as (ids & [=] & _).
    + destruct H as (i1 & i2 & _ & [=] & _).
  - destruct (includes ids2 (id p1)) eqn:E2.
    { split; [intros _ | reflexivity]. right. left. exists ids2.
      split; [reflexivity | apply includes_inPair, E2]. }
    split; [discriminate |]. intros [H | [H | H]]; exfalso.
    + destruct H as (ids & [=] & _).
    + destruct H as (ids & [= <-] & H). apply includes_inPair in H. congruence.
    + destruct H as (i1 & i2 & [=] & _).
  - split; [discriminate |]. intros [H | [H | H]]; exfalso.
    + destruct H as (ids & [=] & _).
    + destruct H as (ids & [=] & _).
    + destruct H as (i1 & i2 & [=] & _).
Qed.

Section EligibilityFacts.
Context {D : DateApi}.

Lemma onCooldown_run (p : SigilProfile) (w : World) :
  exists b,
    onCooldown p w
    = Some (b, with_ticks ((if cooldownSet p then 1 else 0) + ticks w) w)
    /\ (b = true <-> cooling (clock w (ticks w)) p).
Proof.
  unfold onCooldown, cooldownSet, cooling.
  destruct (summonCooldownEnd p) as [s |].
  - unfold truthy. destruct (String.eqb_spec s "") as [-> | Hs]; simpl negb; cbv iota.
    + exists false. split; [destruct w; reflexivity |].
      split; [discriminate |]. intros (s & t & [= <-] & Hn & _). congruence.
    + unfold bind, dateNow, ret.
      destruct (parseDate s) as [t |] eqn:Ep.
      * exists (clock w (ticks w) <? t). split; [reflexivity |].
        rewrite Z.ltb_lt. split.
        -- intros Hlt. exists s, t. auto.
        -- intros (s' & t' & [= <-] & _ & Ep' & Hlt). congruence.
      * exists false. split; [reflexivity |].
        split; [discriminate |]. intros (s' & t' & [= <-] & _ & Ep' & _). congruence.
  - exists false. split; [destruct w; reflexivity |].
    split; [discriminate |]. intros (s & t & [=] & _).
Qed.

End EligibilityFacts.

Section EligibilityTheorem.
Context {D : DateApi}.

Ltac eligibility_cases :=
  repeat match goal with
  | |- _ /\ _ => split
  | |- _ <-> _ => split
  end;
  intros;
  try reflexivity; try discriminate; try tauto.

(** C3.  [checkSummonEligibility] refuses exactly when the two profiles
    are one identity, or are related, or one of them has no summons left,
    or one of them is on cooldown; it reports the first of these reasons in
    that order (parent 1 before parent 2), with the text of the source:
    "Cannot summon with self", "Parents are too closely related (siblings
    or parent-child)", the parent's name followed by " has no summons
    remaining", the parent's name followed by " is on cooldown until " and
    the cooldown end of that parent; a refusal carries no cost and no
    cooldown hours.  Otherwise it accepts, without a reason, and returns
    the cost and the cooldown of each parent.  It changes no object.  The
    time a cooldown end is compared with is the reading of the clock made
    for that parent. *)
Theorem checkSummonEligibility_order (parent1 parent2 : loc)
    (p1 p2 : SigilProfile) (w : World) :
  heap w !! parent1 = Some (OProfile p1) ->
  heap w !! parent2 = Some (OProfile p2) ->
  let now1 := clock w (ticks w) in
  let now2 := clock w ((if cooldownSet p1 then 1 else 0) + ticks w)%nat in
  exists res w',
    checkSummonEligibility parent1 parent2 w = Some (res, w')
    /\ heap w' = heap w
    /\ (eligible res = false <->
        sameIdentity p1 p2 \/ related p1 p2 \/ exhausted p1 \/ exhausted p2
        \/ cooling now1 p1 \/ cooling now2 p2)
    /\ (eligible res = false <-> exists why, reason res = Some why)
    /\ (sameIdentity p1 p2 ->
        res = {| eligible := false;
                 reason := Some "Cannot summon with self";
                 cost := None; cooldownHoursP1 := None; cooldownHoursP2 := None |})
    /\ (~ sameIdentity p1 p2 -> related p1 p2 ->
        res = {| eligible := false;
                 reason := Some "Parents are too closely related (siblings or parent-child)";
                 cost := None; cooldownHoursP1 := None; cooldownHoursP2 := None |})
    /\ (~ sameIdentity p1 p2 -> ~ related p1 p2 -> exhausted p1 ->
        res = {| eligible := false;
                 reason := Some (name p1 +:+ " has no summons remaining");
                 cost := None; cooldownHoursP1 := None; cooldownHoursP2 := None |})
    /\ (~ sameIdentity p1 p2 -> ~ related p1 p2 -> ~ exhausted p1 -> exhausted p2 ->
        res = {| eligible := false;
                 reason := Some (name p2 +:+ " has no summons remaining");
                 cost := None; cooldownHoursP1 := None; cooldownHoursP2 := None |})
    /\ (~ sameIdentity p1 p2 -> ~ related p1 p2 -> ~ exhausted p1 -> ~ exhausted p2 ->
        cooling now1 p1 ->
        exists ends,
          summonCooldownEnd p1 = Some ends
          /\ res = {| eligible := false;
                   reason := Some (name p1 +:+ " is on cooldown until " +:+ ends);
                   cost := None; cooldownHoursP1 := None; cooldownHoursP2 := None |})
    /\ (~ sameIdentity p1 p2 -> ~ related p1 p2 -> ~ exhausted p1 -> ~ exhausted p2 ->
        ~ cooling now1 p1 -> cooling now2 p2 ->
        exists ends,
          summonCooldownEnd p2 = Some ends
          /\ res = {| eligible := false;
                   reason := Some (name p2 +:+ " is on cooldown until " +:+ ends);
                   cost := None; cooldownHoursP1 := None; cooldownHoursP2 := None |})
    /\ (~ sameIdentity p1 p2 -> ~ related p1 p2 -> ~ exhausted p1 -> ~ exhausted p2 ->
        ~ cooling now1 p1 -> ~ cooling now2 p2 ->
        res = {| eligible := true; reason := None;
                 cost := Some (calculateSummonCost p1 p2);
                 cooldownHoursP1 := Some (cooldownHours p1);
                 cooldownHoursP2 := Some (cooldownHours p2) |}).
Proof.
  intros H1 H2 now1 now2.
  unfold checkSummonEligibility.
  unfold bind at 1. unfold readProfile at 1. rewrite H1.
  unfold bind at 1. unfold readProfile at 1. rewrite H2.
  pose proof (areTooRelated_related p1 p2) as Hrel.
  unfold sameIdentity, exhausted.
  destruct (String.eqb_spec (id p1) (id p2)) as [Hid | Hid].
  { eexists _, _. split; [reflexivity |]. split; [reflexivity |].
    eligibility_cases; eexists; reflexivity. }
  destruct (areTooRelated (parentIds p1) (parentIds p2) (id p1) (id p2)).
  { assert (related p1 p2) by (apply Hrel; reflexivity).
    eexists _, _. split; [reflexivity |]. split; [reflexivity |].
    eligibility_cases; eexists; reflexivity. }
  assert (~ related p1 p2) as Hnr by (intros H; apply Hrel in H; discriminate).
  destruct (Z.leb_spec (summonsRemaining p1) 0) as [He1 | He1].
  { eexists _, _. split; [reflexivity |]. split; [reflexivity |].
    eligibility_cases; eexists; reflexivity. }
  destruct (Z.leb_spec (summonsRemaining p2) 0) as [He2 | He2].
  { eexists _, _. split; [reflexivity |]. split; [reflexivity |].
    eligibility_cases; first [lia | eexists; reflexivity]. }
  unfold bind at 1.
  destruct (onCooldown_run p1 w) as (c1 & -> & Hc1).
  fold now1 in Hc1.
  destruct c1.
  { assert (cooling now1 p1) as Hcool by (apply Hc1; reflexivity).
    destruct Hcool as (ends & t & Hends & Hcool).
    assert (cooling now1 p1) by (exists ends, t; split; assumption).
    eexists _, _. split; [reflexivity |]. split; [reflexivity |].
    unfold cooldownMessage. rewrite Hends.
    eligibility_cases;
      first [lia | eexists; reflexivity | exists ends; split; reflexivity]. }
  assert (~ cooling now1 p1) as Hn1 by (intros H; apply Hc1 in H; discriminate).
  unfold bind at 1.
  destruct (onCooldown_run p2
              (with_ticks ((if cooldownSet p1 then 1 else 0) + ticks w) w))
    as (c2 & -> & Hc2).
  cbn [clock ticks with_ticks] in Hc2. fold now2 in Hc2.
  destruct c2.
  { assert (cooling now2 p2) as Hcool by (apply Hc2; reflexivity).
    destruct Hcool as (ends & t & Hends & Hcool).
    assert (cooling now2 p2) by (exists ends, t; split; assumption).
    eexists _, _. split; [reflexivity |]. split; [reflexivity |].
    unfold cooldownMessage. rewrite Hends.
    eligibility_cases;
      first [lia | eexists; reflexivity | exists ends; split; reflexivity]. }
  assert (~ cooling now2 p2) as Hn2 by (intros H; apply Hc2 in H; discriminate).
  eexists _, _. split; [reflexivity |]. split; [reflexivity |].
  eligibility_cases; try lia.
  - exfalso. intuition lia.
  - destruct H as [why [=]].
Qed.

End EligibilityTheorem.

Example checkSummonEligibility_sample :
  @checkSummonEligibility sampleDates 3%positive 6%positive sampleWorld
  = Some ({| eligible := true; reason := None; cost := Some 5000;
             cooldownHoursP1 := Some 120; cooldownHoursP2 := Some 32 |},
          sampleWorld).
Proof. vm_compute. reflexivity. Qed.

(** A parent on cooldown: the clock reads 1000 ms, the cooldown ends at
    5000 ms. *)
Example checkSummonEligibility_cooldown_sample :
  exists w',
    @checkSummonEligibility sampleDates 3%positive 6%positive
      (with_heap (<[3%positive :=
                     OProfile (set_summonCooldownEnd
                                 (Some "1970-01-01T00:00:05.000Z") parentA)]>
                    sampleHeap) sampleWorld)
    = Some ({| eligible := false;
               reason := Some "A is on cooldown until 1970-01-01T00:00:05.000Z";
               cost := None; cooldownHoursP1 := None; cooldownHoursP2 := None |}, w').
Proof. eexists. vm_compute. reflexivity. Qed.

Lemma checkSummonEligibility_order_witness :
  exists w',
    @checkSummonEligibility sampleDates 7%positive 8%positive siblingWorld
    = Some ({| eligible := false;
               reason := Some "Parents are too closely related (siblings or parent-child)";
               cost := None; cooldownHoursP1 := None; cooldownHoursP2 := None |}, w').
Proof.
  destruct (@checkSummonEligibility_order sampleDates 7%positive 8%positive
              (sampleParent "C" 3 4 4 None (Some ("A", "B")) common 1%positive 2%positive)
              (sampleParent "D" 3 4 4 None (Some ("B", "A")) common 4%positive 5%positive)
              siblingWorld eq_refl eq_refl)
    as (res & w' & Hrun & _ & _ & _ & _ & Hrel & _).
  exists w'. rewrite Hrun. f_equal. f_equal. apply Hrel.
  - discriminate.
  - right. right. eexists _, _. split; [reflexivity |]. split; [reflexivity |].
    right. split; reflexivity.
Defined.

(* ------------------------------------------------------------------ *)
(** * Side effects on a parent *)

Section ApplySummon.
Context {D : DateApi}.

Lemma applySummonToParent_run (parent : loc) (p : SigilProfile) (w : World) :
  heap w !! parent = Some (OProfile p) ->
  let used := set_summonsRemaining (summonsRemaining p - 1) p in
  let ends := toISOString (clock w (ticks w) + cooldownHours used * 60 * 60 * 1000) in
  applySummonToParent parent w
  = Some (tt, with_heap (<[parent := OProfile (set_summonCooldownEnd (Some ends) used)]>
                           (heap w))
                        (with_ticks (S (ticks w)) w)).
Proof.
  intros H used ends.
  assert (wp (applySummonToParent parent) w (fun _ w' =>
            w' = with_heap (<[parent := OProfile (set_summonCooldownEnd (Some ends) used)]>
                              (heap w))
                           (with_ticks (S (ticks w)) w))) as Hwp.
  { unfold applySummonToParent.
    apply wp_bind. apply wp_bind.
    eapply wp_readProfile; [exact H |].
    eapply wp_writeProfile; [exact H |].
    unfold cooldownEndTime.
    apply wp_bind. apply wp_bind. apply wp_bind.
    eapply wp_readProfile; [apply lookup_insert_eq |].
    apply wp_ret. apply wp_bind, wp_dateNow. apply wp_ret.
    apply wp_bind.
    eapply wp_readProfile; [apply lookup_insert_eq |].
    eapply wp_writeProfile; [apply lookup_insert_eq |].
    cbn [heap with_heap with_ticks clock ticks randoms drawn ulids issued].
    rewrite insert_insert_eq. reflexivity. }
  apply wp_run in Hwp. destruct Hwp as ([] & w' & -> & ->). reflexivity.
Qed.

End ApplySummon.

(* ------------------------------------------------------------------ *)
(** * The stat synthesizer *)

Ltac norm_world :=
  cbn [with_heap with_drawn with_ticks with_issued
       heap randoms drawn clock ticks ulids issued].

Lemma stat_get_set {A} (s : PerStat A) (k k' : StatName) (v : A) :
  stat_get (stat_set s k v) k' = if decide (k = k') then v else stat_get s k'.
Proof. destruct k, k'; reflexivity. Qed.

Lemma stats_le_refl s : stats_le s s.
Proof. intros k. lia. Qed.

Lemma stats_le_trans s1 s2 s3 : stats_le s1 s2 -> stats_le s2 s3 -> stats_le s1 s3.
Proof. intros H1 H2 k. specialize (H1 k). specialize (H2 k). lia. Qed.

Lemma stats_le_add s k n : 0 <= n -> stats_le s (stat_set s k (stat_get s k + n)).
Proof.
  intros Hn k'. rewrite stat_get_set. destruct (decide (k = k')) as [<- |]; lia.
Qed.

Lemma stats_le_positive s s' : stats_le s s' -> stats_positive s -> stats_positive s'.
Proof. intros H1 H2 k. specialize (H1 k). specialize (H2 k). lia. Qed.

(** One iteration of the loop of [generateBaseStats]. *)
Lemma wp_jitter_step (stats : loc) (key : StatName) (s : SigilStats)
    h r d ck t u i (Q : unit -> World -> Prop) :
  Q tt (mkWorld (<[stats := OStats (stat_set s key (jitter (stat_get s key) (r d)))]> h)
                r (S d) ck t u i) ->
  wp (r0 <- mathRandom ;;
      let variance := floorTimes r0 5 - 2 in
      s0 <- readStats stats ;;
      writeStats stats (stat_set s0 key (Z.max 1 (stat_get s0 key + variance))))
     (mkWorld (<[stats := OStats s]> h) r d ck t u i) Q.
Proof.
  intros H. apply wp_bind, wp_mathRandom. norm_world. cbv zeta.
  apply wp_bind. eapply wp_readStats; [apply lookup_insert_eq |].
  eapply wp_writeStats; [apply lookup_insert_eq |].
  norm_world. rewrite insert_insert_eq. exact H.
Qed.

(** [generateBaseStats] makes one new object and takes eight draws. *)
Lemma generateBaseStats_run (c : SigilClass) h r d ck t u i :
  generateBaseStats c (mkWorld h r d ck t u i)
  = Some (fresh (dom h),
          mkWorld (<[fresh (dom h) :=
                      OStats (jitteredStats (baseStats (CLASS_DEFINITIONS c)) r d)]> h)
                  r (8 + d) ck t u i).
Proof.
  assert (wp (generateBaseStats c) (mkWorld h r d ck t u i) (fun l w' =>
    l = fresh (dom h) /\
    w' = mkWorld (<[fresh (dom h) :=
                     OStats (jitteredStats (baseStats (CLASS_DEFINITIONS c)) r d)]> h)
                 r (8 + d) ck t u i)) as H.
  { unfold generateBaseStats. apply wp_bind, wp_alloc. norm_world.
    apply wp_bind. cbn [forEach STAT_KEYS].
    do 8 (apply wp_bind, wp_jitter_step).
    apply wp_ret, wp_ret. split; reflexivity. }
  apply wp_run in H. destruct H as (l & w' & -> & -> & ->). reflexivity.
Qed.

Lemma baseStats_at_least_4 (c : SigilClass) (k : StatName) :
  4 <= stat_get (baseStats (CLASS_DEFINITIONS c)) k.
Proof. destruct c, k; simpl; lia. Qed.

(** Each of the five jitters is drawn on an interval of length 1/5. *)
Lemma jitter_uniform (r : Q) (j : Z) :
  floorTimes r 5 - 2 = j <->
  (inject_Z (j + 2) / 5 <= r)%Q /\ (r < inject_Z (j + 3) / 5)%Q.
Proof.
  replace (j + 3) with (j + 2 + 1) by lia.
  rewrite <- (floorTimes_uniform r 5 (j + 2)) by lia. lia.
Qed.

Lemma jitteredStats_get (base : SigilStats) (rnd : nat -> Q) (d : nat) (k : StatName) :
  exists n, (n < 8)%nat /\ nth_error STAT_KEYS n = Some k
            /\ stat_get (jitteredStats base rnd d) k
               = jitter (stat_get base k) (rnd (n + d)%nat).
Proof.
  destruct k;
    [exists 0%nat | exists 1%nat | exists 2%nat | exists 3%nat
     | exists 4%nat | exists 5%nat | exists 6%nat | exists 7%nat];
    (split; [lia | split; reflexivity]).
Qed.

Lemma wp_forEach {A} (xs : list A) (body : A -> M unit) (Inv : World -> Prop) w :
  Inv w ->
  (forall x w0, In x xs -> Inv w0 -> wp (body x) w0 (fun _ w' => Inv w')) ->
  wp (forEach xs body) w (fun _ w' => Inv w').
Proof.
  revert w. induction xs as [| x xs IH]; intros w Hw Hbody; cbn [forEach].
  - apply wp_ret, Hw.
  - apply wp_bind. eapply wp_mono; [apply Hbody; [left; reflexivity | exact Hw] |].
    intros ? w' Hw'. apply IH; [exact Hw' |].
    intros y w0 Hy. apply Hbody. right. exact Hy.
Qed.

Lemma splice1_Some {A} (idx : Z) (available : list A) :
  0 <= idx < Z.of_nat (length available) ->
  exists x rest, splice1 idx available = Some (x, rest)
                 /\ nth_error available (Z.to_nat idx) = Some x
                 /\ length rest = Nat.pred (length available).
Proof.
  intros Hi. unfold splice1.
  destruct (at_index_Some available idx Hi) as (x & Hx & _). rewrite Hx.
  eexists _, _. split; [reflexivity |]. split.
  - unfold at_index in Hx. destruct (Z.ltb_spec idx 0); [lia | exact Hx].
  - rewrite length_app, length_firstn, length_skipn. lia.
Qed.

Lemma wp_bonusPass (l : loc) (b : StatBonus) (n : nat) (available : list StatName)
    (s : SigilStats) h r ck t u i w :
  0 <= amount b -> (forall k, (0 <= r k)%Q /\ (r k < 1)%Q) ->
  raised l s h r ck t u i w ->
  wp (bonusPass l b n available) w (fun _ w' => raised l s h r ck t u i w').
Proof.
  intros Ha Hr. revert available w.
  induction n as [| n IH]; intros available w Hw; cbn [bonusPass].
  - apply wp_ret, Hw.
  - destruct (Nat.eqb_spec (length available) 0) as [E | E]; [apply wp_ret, Hw |].
    destruct Hw as (s' & d' & Hle & ->).
    apply wp_bind, wp_mathRandom. norm_world.
    destruct (Hr d') as [H0 H1].
    assert (0 <= floorTimes (r d') (Z.of_nat (length available))
            < Z.of_nat (length available)) as Hidx
      by (apply floorTimes_range; [assumption .. | lia]).
    destruct (splice1_Some _ available Hidx) as (x & rest & Hs & _).
    assert ((if random b
             then floorTimes (r d') (Z.of_nat (length available))
             else floorTimes (r d') (Z.of_nat (length available)))
            = floorTimes (r d') (Z.of_nat (length available))) as -> by (destruct (random b); reflexivity).
    rewrite Hs.
    apply wp_bind. eapply wp_addToStat; [apply lookup_insert_eq |].
    norm_world. rewrite insert_insert_eq.
    apply IH. eexists _, _. split; [| reflexivity].
    eapply stats_le_trans; [exact Hle | apply stats_le_add, Ha].
Qed.

Lemma rarity_bonus_amounts (rarity_ : Rarity) (b : StatBonus) :
  In b (statBonuses (RARITY_DEFINITIONS rarity_)) -> 0 <= amount b.
Proof.
  destruct rarity_; cbn; intros H;
    repeat (destruct H as [<- | H]; [cbn; lia |]); destruct H.
Qed.

(** [applyRarityBonuses] copies the stats into one new object and only
    adds to the copy. *)
Lemma wp_applyRarityBonuses (stats : loc) (rarity_ : Rarity) (s : SigilStats)
    h r d ck t u i (Q : loc -> World -> Prop) :
  (forall k, (0 <= r k)%Q /\ (r k < 1)%Q) ->
  h !! stats = Some (OStats s) ->
  (forall s' d', stats_le s s' ->
     Q (fresh (dom h)) (mkWorld (<[fresh (dom h) := OStats s']> h) r d' ck t u i)) ->
  wp (applyRarityBonuses stats rarity_) (mkWorld h r d ck t u i) Q.
Proof.
  intros Hr Hs HQ. unfold applyRarityBonuses.
  apply wp_bind. eapply wp_readStats; [exact Hs |].
  apply wp_bind, wp_alloc. norm_world. cbv zeta.
  apply wp_bind.
  eapply wp_mono.
  - apply (wp_forEach _ _ (raised (fresh (dom h)) s h r ck t u i)).
    + exists s, d. split; [apply stats_le_refl | reflexivity].
    + intros b w0 Hb Hw0. apply wp_bonusPass; try assumption.
      eapply rarity_bonus_amounts, Hb.
  - intros ? w' (s' & d' & Hle & ->). apply wp_ret, HQ, Hle.
Qed.

Lemma wp_growth_step (l : loc) (key : StatName) (rate : Q) (s : SigilStats)
    h r ck t u i w :
  raised l s h r ck t u i w ->
  wp (r1 <- mathRandom ;;
      (if Qltb r1 rate then addToStat l key 1 else ret tt)) w
     (fun _ w' => raised l s h r ck t u i w').
Proof.
  intros (s' & d' & Hle & ->).
  apply wp_bind, wp_mathRandom. norm_world.
  destruct (Qltb (r d') rate).
  - eapply wp_addToStat; [apply lookup_insert_eq |].
    norm_world. rewrite insert_insert_eq.
    eexists _, _. split; [| reflexivity].
    eapply stats_le_trans; [exact Hle | apply stats_le_add; lia].
  - apply wp_ret. eexists _, _. split; [exact Hle | reflexivity].
Qed.

(** [rollStatGrowth] copies the stats into one new object and only adds
    to the copy. *)
Lemma wp_rollStatGrowth (currentStats : loc) (pg sg : StatGrowthRates) (s : SigilStats)
    h r d ck t u i (Q : loc -> World -> Prop) :
  h !! currentStats = Some (OStats s) ->
  (forall s' d', stats_le s s' ->
     Q (fresh (dom h)) (mkWorld (<[fresh (dom h) := OStats s']> h) r d' ck t u i)) ->
  wp (rollStatGrowth currentStats pg sg) (mkWorld h r d ck t u i) Q.
Proof.
  intros Hs HQ. unfold rollStatGrowth.
  apply wp_bind. eapply wp_readStats; [exact Hs |].
  apply wp_bind, wp_alloc. norm_world.
  apply wp_bind.
  eapply wp_mono.
  - apply (wp_forEach _ _ (raised (fresh (dom h)) s h r ck t u i)).
    + exists s, d. split; [apply stats_le_refl | reflexivity].
    + intros key w0 _ (s0 & d0 & Hle & ->).
      apply wp_bind, wp_mathRandom. norm_world.
      apply wp_bind.
      destruct (Qltb (r d0) (stat_get pg key)).
      * eapply wp_addToStat; [apply lookup_insert_eq |].
        norm_world. rewrite insert_insert_eq.
        apply wp_growth_step. eexists _, _. split; [| reflexivity].
        eapply stats_le_trans; [exact Hle | apply stats_le_add; lia].
      * apply wp_ret, wp_growth_step. eexists _, _. split; [exact Hle | reflexivity].
  - intros ? w' (s' & d' & Hle & ->). apply wp_ret, HQ, Hle.
Qed.

Lemma applyRarityBonuses_run (stats : loc) (rarity_ : Rarity) (s : SigilStats)
    h r d ck t u i :
  (forall k, (0 <= r k)%Q /\ (r k < 1)%Q) ->
  h !! stats = Some (OStats s) ->
  exists s' d',
    applyRarityBonuses stats rarity_ (mkWorld h r d ck t u i)
    = Some (fresh (dom h), mkWorld (<[fresh (dom h) := OStats s']> h) r d' ck t u i)
    /\ stats_le s s'.
Proof.
  intros Hr Hs.
  assert (wp (applyRarityBonuses stats rarity_) (mkWorld h r d ck t u i)
            (fun l w' => exists s' d',
               l = fresh (dom h)
               /\ w' = mkWorld (<[fresh (dom h) := OStats s']> h) r d' ck t u i
               /\ stats_le s s')) as H.
  { eapply wp_applyRarityBonuses; [exact Hr | exact Hs |].
    intros s' d' Hle. exists s', d'. repeat split. exact Hle. }
  apply wp_run in H. destruct H as (l & w' & Hrun & s' & d' & -> & -> & Hle).
  exists s', d'. split; assumption.
Qed.

Lemma rollStatGrowth_run (currentStats : loc) (pg sg : StatGrowthRates) (s : SigilStats)
    h r d ck t u i :
  h !! currentStats = Some (OStats s) ->
  exists s' d',
    rollStatGrowth currentStats pg sg (mkWorld h r d ck t u i)
    = Some (fresh (dom h), mkWorld (<[fresh (dom h) := OStats s']> h) r d' ck t u i)
    /\ stats_le s s'.
Proof.
  intros Hs.
  assert (wp (rollStatGrowth currentStats pg sg) (mkWorld h r d ck t u i)
            (fun l w' => exists s' d',
               l = fresh (dom h)
               /\ w' = mkWorld (<[fresh (dom h) := OStats s']> h) r d' ck t u i
               /\ stats_le s s')) as H.
  { eapply wp_rollStatGrowth; [exact Hs |].
    intros s' d' Hle. exists s', d'. repeat split. exact Hle. }
  apply wp_run in H. destruct H as (l & w' & Hrun & s' & d' & -> & -> & Hle).
  exists s', d'. split; assumption.
Qed.

(* ------------------------------------------------------------------ *)
(** * Synthesis of the offspring *)

Lemma grown_refl h : grown h h.
Proof. split; auto. Qed.

Lemma grown_lookup h hc l o : grown h hc -> h !! l = Some o -> hc !! l = Some o.
Proof. intros [H _]. apply H. Qed.

Lemma fresh_ne (h : gmap loc obj) l o : h !! l = Some o -> fresh (dom h) <> l.
Proof. intros H E. rewrite <- E, fresh_loc_None in H. discriminate. Qed.

Lemma lookup_alloc_old (h : gmap loc obj) l o x :
  h !! l = Some o -> <[fresh (dom h) := x]> h !! l = Some o.
Proof. intros H. rewrite lookup_insert_ne; [exact H | eapply fresh_ne, H]. Qed.

Lemma grown_alloc h hc x :
  grown h hc -> not_profile x -> grown h (<[fresh (dom hc) := x]> hc).
Proof.
  intros [H1 H2] Hx. split.
  - intros l o Hl. eapply lookup_alloc_old, H1, Hl.
  - intros l q. rewrite lookup_insert. case_decide as E.
    + intros [= ->]. destruct Hx.
    + apply H2.
Qed.

Lemma grown_fresh h hc : grown h hc -> h !! fresh (dom hc) = None.
Proof.
  intros [H1 _]. destruct (h !! fresh (dom hc)) as [o |] eqn:E; [| reflexivity].
  apply H1 in E. rewrite fresh_loc_None in E. discriminate.
Qed.

Lemma grown_write h hc l x :
  grown h hc -> h !! l = None -> not_profile x -> grown h (<[l := x]> hc).
Proof.
  intros [H1 H2] Hl Hx. split.
  - intros l' o Hl'. rewrite lookup_insert_ne; [apply H1, Hl' | congruence].
  - intros l' q. rewrite lookup_insert. case_decide as E.
    + intros [= ->]. destruct Hx.
    + apply H2.
Qed.

Lemma wp_inheritGenes (l1 l2 : loc) (g1 g2 : SigilGenome)
    h r d ck t u i (Q : loc -> World -> Prop) :
  (forall k, (0 <= r k)%Q /\ (r k < 1)%Q) ->
  h !! l1 = Some (OGenome g1) -> h !! l2 = Some (OGenome g2) ->
  (forall G d', Q (fresh (dom h))
                  (mkWorld (<[fresh (dom h) := OGenome G]> h) r d' ck t u i)) ->
  wp (inheritGenes l1 l2) (mkWorld h r d ck t u i) Q.
Proof.
  intros Hr H1 H2 HQ.
  destruct (inheritGenes_slots l1 l2 g1 g2 (mkWorld h r d ck t u i) Hr H1 H2)
    as (G & n1 & n2 & n3 & n4 & n5 & n6 & _ & _ & _ & _ & _ & _ & Hrun).
  apply wp_run. eexists _, _. split; [exact Hrun |]. apply HQ.
Qed.

Lemma wp_generateBaseStats (c : SigilClass) h r d ck t u i (Q : loc -> World -> Prop) :
  Q (fresh (dom h))
    (mkWorld (<[fresh (dom h) :=
                 OStats (jitteredStats (baseStats (CLASS_DEFINITIONS c)) r d)]> h)
             r (8 + d) ck t u i) ->
  wp (generateBaseStats c) (mkWorld h r d ck t u i) Q.
Proof.
  intros HQ. apply wp_run. eexists _, _.
  split; [apply generateBaseStats_run | exact HQ].
Qed.

Lemma jitteredStats_positive (base : SigilStats) (rnd : nat -> Q) (d : nat) :
  stats_positive (jitteredStats base rnd d).
Proof. intros k. destruct k; cbn; unfold jitter; lia. Qed.

Section Synthesis.
Context {D : DateApi}.

Lemma wp_nowISO w (Q : string -> World -> Prop) :
  Q (toISOString (clock w (ticks w))) (with_ticks (S (ticks w)) w) -> wp nowISO w Q.
Proof. intros H. unfold nowISO. apply wp_bind, wp_dateNow, wp_ret, H. Qed.

(** [executeSummon] run from a store [h] that has the two parents and
    their genomes. *)
Lemma executeSummon_spec (parent1 parent2 : loc) (offspringName owner_ : string)
    (p1 p2 : SigilProfile) (g1 g2 : SigilGenome) h r d ck t u i :
  (forall k, (0 <= r k)%Q /\ (r k < 1)%Q) ->
  h !! parent1 = Some (OProfile p1) -> h !! parent2 = Some (OProfile p2) ->
  h !! genes p1 = Some (OGenome g1) -> h !! genes p2 = Some (OGenome g2) ->
  wp (executeSummon parent1 parent2 offspringName owner_) (mkWorld h r d ck t u i)
     (fun res w' =>
        summoned p1 p2 offspringName owner_ h res w'
        /\ randoms w' = r /\ clock w' = ck /\ ulids w' = u).
Proof.
  intros Hr H1 H2 HG1 HG2. unfold executeSummon.
  (* cost *)
  apply wp_bind. apply wp_bind. eapply wp_readProfile; [exact H1 |].
  apply wp_bind. eapply wp_readProfile; [exact H2 |]. apply wp_ret.
  (* generation *)
  apply wp_bind. apply wp_bind. eapply wp_field; [exact H1 |].
  apply wp_bind. eapply wp_field; [exact H2 |]. apply wp_ret.
  (* genes *)
  apply wp_bind. apply wp_bind. eapply wp_field; [exact H1 |].
  apply wp_bind. eapply wp_field; [exact H2 |].
  eapply wp_inheritGenes; [exact Hr | exact HG1 | exact HG2 |].
  intros G dG.
  assert (grown h (<[fresh (dom h) := OGenome G]> h)) as HgrG
    by (apply grown_alloc; [apply grown_refl | exact I]).
  assert (h !! fresh (dom h) = None) as HlgNone by apply fresh_loc_None.
  assert (<[fresh (dom h) := OGenome G]> h !! fresh (dom h) = Some (OGenome G)) as HlgG
    by apply lookup_insert_eq.
  set (lg := fresh (dom h)) in *.
  set (hG := <[lg := OGenome G]> h) in *. clearbody hG.
  (* class, subclass *)
  apply wp_bind. apply wp_bind. eapply wp_readGenome; [exact HlgG |]. apply wp_ret.
  apply wp_bind. apply wp_bind. eapply wp_readGenome; [exact HlgG |]. apply wp_ret.
  (* rarity *)
  apply wp_bind. apply wp_bind. eapply wp_field; [eapply grown_lookup, H1; exact HgrG |].
  apply wp_bind. eapply wp_field; [eapply grown_lookup, H2; exact HgrG |].
  unfold rollOffspringRarity. apply wp_bind, wp_mathRandom, wp_ret. norm_world.
  set (rarity_ := rollOffspringRarity_at (rarity p1) (rarity p2) (r dG)).
  (* base stats *)
  apply wp_bind, wp_generateBaseStats.
  set (s0 := jitteredStats (baseStats (CLASS_DEFINITIONS (dominant (gene_class G)))) r (S dG)).
  assert (grown h (<[fresh (dom hG) := OStats s0]> hG)) as HgrS
    by (apply grown_alloc; [exact HgrG | exact I]).
  assert (h !! fresh (dom hG) = None) as HlsNone by (apply grown_fresh, HgrG).
  assert (<[fresh (dom hG) := OStats s0]> hG !! lg = Some (OGenome G)) as HlgS
    by (eapply lookup_alloc_old, HlgG).
  set (ls := fresh (dom hG)) in *.
  (* boosted stat *)
  apply wp_bind. apply wp_bind. eapply wp_readGenome; [exact HlgS |]. apply wp_ret.
  apply wp_bind. eapply wp_addToStat; [apply lookup_insert_eq |]. norm_world.
  rewrite insert_insert_eq.
  set (s1 := stat_set s0 (dominant (statBoost G))
               (stat_get s0 (dominant (statBoost G)) + 2)).
  assert (stats_le s0 s1) as Hs01 by (apply stats_le_add; lia).
  assert (grown h (<[ls := OStats s1]> hG)) as HgrS1
    by (apply grown_write; [exact HgrG | exact HlsNone | exact I]).
  assert (<[ls := OStats s1]> hG !! lg = Some (OGenome G)) as HlgS1.
  { rewrite lookup_insert_ne; [exact HlgG |]. subst ls. eapply fresh_ne, HlgG. }
  clear HgrS HlgS.
  (* rarity bonuses *)
  apply wp_bind.
  assert (forall Q : loc -> World -> Prop,
    (forall hS lS s dS,
        grown h hS -> hS !! lg = Some (OGenome G) ->
        h !! lS = None -> hS !! lS = Some (OStats s) -> stats_le s0 s ->
        Q lS (mkWorld hS r dS ck t u i)) ->
    wp (if decide (rarity_ <> common)
        then applyRarityBonuses ls rarity_ else ret ls)
       (mkWorld (<[ls := OStats s1]> hG) r (8 + S dG) ck t u i) Q) as Hbonus.
  { intros Q HQ. destruct (decide (rarity_ <> common)).
    - eapply wp_applyRarityBonuses; [exact Hr | apply lookup_insert_eq |].
      intros s' d' Hle. apply (HQ _ _ s').
      + apply grown_alloc; [exact HgrS1 | exact I].
      + eapply lookup_alloc_old, HlgS1.
      + apply grown_fresh, HgrS1.
      + apply lookup_insert_eq.
      + eapply stats_le_trans; eassumption.
    - apply wp_ret, (HQ _ _ s1); try assumption. apply lookup_insert_eq. }
  apply Hbonus. clear Hbonus. intros hS lS s dS HgrH HlgH HlSNone HlS Hs0s.
  (* summons *)
  apply wp_bind. apply wp_bind. eapply wp_field; [eapply grown_lookup, H1; exact HgrH |].
  apply wp_bind. eapply wp_field; [eapply grown_lookup, H2; exact HgrH |]. apply wp_ret. cbv zeta.
  apply wp_bind, wp_ulid. norm_world.
  apply wp_bind. apply wp_bind. eapply wp_readGenome; [exact HlgH |]. apply wp_ret.
  do 4 (apply wp_bind; apply wp_bind; (eapply wp_readStats; [exact HlS |]); apply wp_ret).
  apply wp_bind. eapply wp_field; [eapply grown_lookup, H1; exact HgrH |].
  apply wp_bind. eapply wp_field; [eapply grown_lookup, H2; exact HgrH |].
  apply wp_bind, wp_nowISO. norm_world.
  apply wp_bind, wp_alloc. norm_world.
  assert (h !! fresh (dom hS) = None) as HloNone by (apply grown_fresh, HgrH).
  set (lo := fresh (dom hS)) in *.
  apply wp_bind, wp_ulid. norm_world.
  apply wp_bind. eapply wp_field; [eapply lookup_alloc_old, grown_lookup, H1; exact HgrH |].
  apply wp_bind. eapply wp_field; [eapply lookup_alloc_old, grown_lookup, H2; exact HgrH |].
  apply wp_bind, wp_nowISO. norm_world.
  apply wp_ret. norm_world. split; [| repeat split].
  eexists _, s, G, (S dG). cbn [offspring record res_cost]. norm_world.
  split.
  { intros l o Hl. eapply lookup_alloc_old, grown_lookup, Hl. exact HgrH. }
  split; [exact HloNone |].
  split; [apply lookup_insert_eq |].
  split.
  { intros l q. rewrite lookup_insert. case_decide as E.
    - intros _. left. symmetry. exact E.
    - intros Hl. right. apply HgrH, Hl. }
  cbn [stats genes class].
  split; [exact HlSNone |].
  split; [eapply lookup_alloc_old, HlS |].
  split; [exact HlgNone |].
  split; [eapply lookup_alloc_old, HlgH |].
  split; [repeat split |].
  split; [exact Hs0s |].
  repeat split.
Qed.

End Synthesis.

Section SynthesisTheorems.
Context {D : DateApi}.

Lemma executeSummon_summoned (parent1 parent2 : loc) (offspringName owner_ : string)
    (p1 p2 : SigilProfile) (g1 g2 : SigilGenome) (w : World) :
  draws_in_unit w ->
  heap w !! parent1 = Some (OProfile p1) -> heap w !! parent2 = Some (OProfile p2) ->
  heap w !! genes p1 = Some (OGenome g1) -> heap w !! genes p2 = Some (OGenome g2) ->
  exists res w',
    executeSummon parent1 parent2 offspringName owner_ w = Some (res, w')
    /\ summoned p1 p2 offspringName owner_ (heap w) res w'
    /\ randoms w' = randoms w /\ clock w' = clock w /\ ulids w' = ulids w.
Proof.
  destruct w as [h r d ck t u i]. norm_world. intros Hr H1 H2 HG1 HG2.
  pose proof (executeSummon_spec parent1 parent2 offspringName owner_
                p1 p2 g1 g2 h r d ck t u i Hr H1 H2 HG1 HG2) as H.
  apply wp_run in H. destruct H as (res & w' & Hrun & Hs & Hrest).
  exists res, w'. split; [exact Hrun |]. split; [exact Hs | exact Hrest].
Qed.

(** C5.  The profile that [executeSummon] returns has generation
    [max(parent generations) + 1], [maxSummons = max(1, min(parents'
    summonsRemaining) - 1)], [summonsRemaining = maxSummons], level 1 with
    the experience target of level 1, full health and mana for its stats at
    level 1, stamina at the level-1 maximum, no cooldown end, and the
    parents' ids in the order (parent 1, parent 2). *)
Theorem executeSummon_offspring (parent1 parent2 : loc) (offspringName owner_ : string)
    (p1 p2 : SigilProfile) (g1 g2 : SigilGenome) (w : World) :
  draws_in_unit w ->
  heap w !! parent1 = Some (OProfile p1) -> heap w !! parent2 = Some (OProfile p2) ->
  heap w !! genes p1 = Some (OGenome g1) -> heap w !! genes p2 = Some (OGenome g2) ->
  exists res w' o s,
    executeSummon parent1 parent2 offspringName owner_ w = Some (res, w')
    /\ heap w' !! offspring res = Some (OProfile o)
    /\ heap w' !! stats o = Some (OStats s)
    /\ generation o = Z.max (generation p1) (generation p2) + 1
    /\ maxSummons o = Z.max 1 (Z.min (summonsRemaining p1) (summonsRemaining p2) - 1)
    /\ summonsRemaining o = maxSummons o
    /\ level o = 1 /\ xp o = 0
    /\ xpToNextLevel o = xpForLevel (level o) /\ xpToNextLevel o = 100
    /\ hp o = maxHp o /\ maxHp o = calculateMaxHp s (level o)
    /\ mp o = maxMp o /\ maxMp o = calculateMaxMp s (level o)
    /\ stamina o = maxStamina o /\ maxStamina o = calculateMaxStamina (level o)
    /\ stamina o = 25
    /\ summonCooldownEnd o = None
    /\ parentIds o = Some (id p1, id p2).
Proof.
  intros Hr H1 H2 HG1 HG2.
  destruct (executeSummon_summoned parent1 parent2 offspringName owner_
              p1 p2 g1 g2 w Hr H1 H2 HG1 HG2)
    as (res & w' & Hrun & (o & s & G & d0 & _ & _ & Ho & _ & _ & Hs & _ & _ & Hf & _) & _).
  destruct Hf as (_ & _ & _ & _ & _ & _ & _ & _ & Hgen & Hmax & Hrem & Hlv & Hxp & Hxpt
                  & Hhp & Hmhp & Hmp & Hmmp & Hst & Hmst & Hcd & Hpar).
  exists res, w', o, s.
  rewrite Hlv, Hxp, Hxpt, Hhp, Hmhp, Hmp, Hmmp, Hst, Hmst, Hcd, Hpar, Hrem.
  repeat split; try assumption; reflexivity.
Qed.

(** C7.  The offspring that [executeSummon] makes has
    [0 <= summonsRemaining <= maxSummons] and [maxSummons >= 1], whatever
    the parents' counts; [applySummonToParent] keeps the invariant on a
    parent that has a summon left; both leave every other profile of the
    store as it was, so a store of profiles that satisfy the invariant
    stays one. *)
Theorem summons_invariant (parent1 parent2 : loc) (offspringName owner_ : string)
    (p1 p2 : SigilProfile) (g1 g2 : SigilGenome) (w : World) :
  draws_in_unit w ->
  heap w !! parent1 = Some (OProfile p1) -> heap w !! parent2 = Some (OProfile p2) ->
  heap w !! genes p1 = Some (OGenome g1) -> heap w !! genes p2 = Some (OGenome g2) ->
  (exists res w' o,
      executeSummon parent1 parent2 offspringName owner_ w = Some (res, w')
      /\ heap w' !! offspring res = Some (OProfile o)
      /\ summons_ok o
      /\ (store_ok w -> store_ok w'))
  /\ (summons_ok p1 -> 1 <= summonsRemaining p1 ->
      exists p' w',
        applySummonToParent parent1 w = Some (tt, w')
        /\ heap w' !! parent1 = Some (OProfile p')
        /\ summons_ok p'
        /\ (store_ok w -> store_ok w')).
Proof.
  intros Hr H1 H2 HG1 HG2. split.
  - destruct (executeSummon_summoned parent1 parent2 offspringName owner_
                p1 p2 g1 g2 w Hr H1 H2 HG1 HG2)
      as (res & w' & Hrun & (o & s & G & d0 & _ & _ & Ho & Hprof & _ & _ & _ & _ & Hf & _) & _).
    destruct Hf as (_ & _ & _ & _ & _ & _ & _ & _ & _ & Hmax & Hrem & _).
    assert (summons_ok o) as Hok by (unfold summons_ok; lia).
    exists res, w', o. repeat (split; [assumption |]).
    intros Hstore l q Hl. destruct (Hprof l q Hl) as [-> | Hold].
    + rewrite Ho in Hl. injection Hl as <-. exact Hok.
    + eapply Hstore, Hold.
  - intros (Hk0 & Hk1 & Hk2) Hleft.
    pose proof (applySummonToParent_run parent1 p1 w H1) as Hrun. cbv zeta in Hrun.
    eexists _, _. split; [exact Hrun |]. norm_world.
    split; [apply lookup_insert_eq |].
    assert (forall e, summons_ok (set_summonCooldownEnd e
              (set_summonsRemaining (summonsRemaining p1 - 1) p1))) as Hok
      by (intros e; unfold summons_ok; cbn; lia).
    split; [apply Hok |].
    intros Hstore l q. norm_world. rewrite lookup_insert. case_decide as E.
    + intros [= <-]. apply Hok.
    + apply Hstore.
Qed.

(** C9.  [applySummonToParent] replaces the parent object by one that
    differs in two fields: [summonsRemaining] is one less, and
    [summonCooldownEnd] is the date of the clock reading plus the cooldown
    hours computed with the count already decremented.  No other field
    and no other object changes, and no draw or id is used.  Applied a
    second time it takes one more summon away. *)
Theorem applySummonToParent_two_fields (parent : loc) (p : SigilProfile) (w : World) :
  heap w !! parent = Some (OProfile p) ->
  exists p' w',
    applySummonToParent parent w = Some (tt, w')
    /\ heap w' !! parent = Some (OProfile p')
    /\ summonsRemaining p' = summonsRemaining p - 1
    /\ (let used := maxSummons p - (summonsRemaining p - 1) in
        let hours := if generation p =? 0 then 4 + 4 * used
                     else (24 + 8 * generation p) * (used + 1) in
        summonCooldownEnd p'
        = Some (toISOString (clock w (ticks w) + hours * 60 * 60 * 1000)))
    /\ same_other_fields p p'
    /\ (forall l, l <> parent -> heap w' !! l = heap w !! l)
    /\ randoms w' = randoms w /\ drawn w' = drawn w
    /\ ulids w' = ulids w /\ issued w' = issued w /\ clock w' = clock w
    /\ exists p'' w'',
         applySummonToParent parent w' = Some (tt, w'')
         /\ heap w'' !! parent = Some (OProfile p'')
         /\ summonsRemaining p'' = summonsRemaining p - 2.
Proof.
  intros H.
  pose proof (applySummonToParent_run parent p w H) as Hrun. cbv zeta in Hrun.
  eexists _, _. split; [exact Hrun |]. norm_world.
  split; [apply lookup_insert_eq |].
  split; [reflexivity |].
  split; [reflexivity |].
  split; [repeat split |].
  split; [intros l Hl; apply lookup_insert_ne; congruence |].
  do 5 (split; [reflexivity |]).
  match goal with
  | |- context [applySummonToParent parent ?w1] =>
    pose proof (applySummonToParent_run parent _ w1 (lookup_insert_eq _ _ _)) as Hrun2
  end.
  cbv zeta in Hrun2.
  eexists _, _. split; [exact Hrun2 |]. norm_world.
  split; [apply lookup_insert_eq |]. cbn. lia.
Qed.

(** C10.  [executeSummon] returns an offspring reference, a record and a
    cost, and leaves every object of the store as it was: the two parent
    profiles, the stat blocks and genomes they refer to, and everything
    else.  The offspring is an object the store did not have. *)
Theorem executeSummon_keeps_parents (parent1 parent2 : loc) (offspringName owner_ : string)
    (p1 p2 : SigilProfile) (g1 g2 : SigilGenome) (w : World) :
  draws_in_unit w ->
  heap w !! parent1 = Some (OProfile p1) -> heap w !! parent2 = Some (OProfile p2) ->
  heap w !! genes p1 = Some (OGenome g1) -> heap w !! genes p2 = Some (OGenome g2) ->
  exists res w',
    executeSummon parent1 parent2 offspringName owner_ w = Some (res, w')
    /\ (forall l x, heap w !! l = Some x -> heap w' !! l = Some x)
    /\ heap w' !! parent1 = Some (OProfile p1)
    /\ heap w' !! parent2 = Some (OProfile p2)
    /\ heap w' !! genes p1 = Some (OGenome g1)
    /\ heap w' !! genes p2 = Some (OGenome g2)
    /\ (forall s, heap w !! stats p1 = Some (OStats s) ->
                  heap w' !! stats p1 = Some (OStats s))
    /\ (forall s, heap w !! stats p2 = Some (OStats s) ->
                  heap w' !! stats p2 = Some (OStats s))
    /\ heap w !! offspring res = None
    /\ offspring res <> parent1 /\ offspring res <> parent2
    /\ res_cost res = calculateSummonCost p1 p2
    /\ parent1Id (record res) = id p1 /\ parent2Id (record res) = id p2
    /\ randoms w' = randoms w /\ clock w' = clock w /\ ulids w' = ulids w.
Proof.
  intros Hr H1 H2 HG1 HG2.
  destruct (executeSummon_summoned parent1 parent2 offspringName owner_
              p1 p2 g1 g2 w Hr H1 H2 HG1 HG2)
    as (res & w' & Hrun
        & (o & s & G & d0 & Hkeep & Hnew & _ & _ & _ & _ & _ & _ & _ & _
           & Hcost & _ & Hp1 & Hp2 & _) & HR & HC & HU).
  exists res, w'. split; [exact Hrun |]. split; [exact Hkeep |].
  repeat (split; [first [apply Hkeep; assumption | intros ?; apply Hkeep
                         | assumption | congruence] |]).
  exact HU.
Qed.

End SynthesisTheorems.

Section StatTheorem.
Context {D : DateApi}.

(** C8.  [generateBaseStats] gives each of the eight stats its class base
    value plus a jitter [Math.floor(r * 5) - 2] of a draw of its own,
    raised to 1 if below: the jitter is one of -2..2, each on an interval
    of draws of length 1/5, and the stat lies between [max(1, base - 2)]
    and [base + 2].  [applyRarityBonuses] and [rollStatGrowth] return a new
    stat block in which no stat is below its value in the block given,
    and leave the block given as it was.  In the stat block of an offspring
    of [executeSummon], with the +2 of the stat-boost gene and the rarity
    bonuses, no stat is below the generated value; so every stat is at
    least 1. *)
Theorem stats_at_least_1 (c : SigilClass) (stats_ : loc) (s : SigilStats)
    (rarity_ : Rarity) (pg sg : StatGrowthRates)
    (parent1 parent2 : loc) (offspringName owner_ : string)
    (p1 p2 : SigilProfile) (g1 g2 : SigilGenome) (w : World) :
  draws_in_unit w ->
  heap w !! stats_ = Some (OStats s) ->
  heap w !! parent1 = Some (OProfile p1) -> heap w !! parent2 = Some (OProfile p2) ->
  heap w !! genes p1 = Some (OGenome g1) -> heap w !! genes p2 = Some (OGenome g2) ->
  (exists l w' s0,
      generateBaseStats c w = Some (l, w')
      /\ heap w !! l = None /\ heap w' !! l = Some (OStats s0)
      /\ forall k, exists n,
           (n < 8)%nat /\ nth_error STAT_KEYS n = Some k
           /\ let base := stat_get (baseStats (CLASS_DEFINITIONS c)) k in
              let variance := floorTimes (randoms w (n + drawn w)%nat) 5 - 2 in
              stat_get s0 k = Z.max 1 (base + variance)
              /\ -2 <= variance <= 2
              /\ Z.max 1 (base - 2) <= stat_get s0 k <= base + 2
              /\ 1 <= stat_get s0 k)
  /\ (forall (r : Q) (j : Z),
        floorTimes r 5 - 2 = j <->
        (inject_Z (j + 2) / 5 <= r)%Q /\ (r < inject_Z (j + 3) / 5)%Q)
  /\ (exists l w' s',
        applyRarityBonuses stats_ rarity_ w = Some (l, w')
        /\ heap w' !! l = Some (OStats s') /\ stats_le s s'
        /\ heap w' !! stats_ = Some (OStats s)
        /\ (stats_positive s -> stats_positive s'))
  /\ (exists l w' s',
        rollStatGrowth stats_ pg sg w = Some (l, w')
        /\ heap w' !! l = Some (OStats s') /\ stats_le s s'
        /\ heap w' !! stats_ = Some (OStats s)
        /\ (stats_positive s -> stats_positive s'))
  /\ (exists res w' o s' d0,
        executeSummon parent1 parent2 offspringName owner_ w = Some (res, w')
        /\ heap w' !! offspring res = Some (OProfile o)
        /\ heap w' !! stats o = Some (OStats s')
        /\ stats_le (jitteredStats (baseStats (CLASS_DEFINITIONS (class o)))
                                   (randoms w) d0) s'
        /\ stats_positive s').
Proof.
  intros Hr Hs H1 H2 HG1 HG2. split; [| split; [| split; [| split]]].
  - destruct w as [h r d ck t u i]. norm_world.
    eexists _, _, _. split; [apply generateBaseStats_run |]. norm_world.
    split; [apply fresh_loc_None |]. split; [apply lookup_insert_eq |].
    intros k.
    destruct (jitteredStats_get (baseStats (CLASS_DEFINITIONS c)) r d k)
      as (n & Hn & Hk & E).
    exists n. split; [exact Hn |]. split; [exact Hk |]. cbv zeta.
    rewrite E. unfold jitter.
    destruct (Hr (n + d)%nat) as [H0 Hlt]. cbn [randoms] in H0, Hlt.
    pose proof (floorTimes_range _ 5 H0 Hlt ltac:(lia)).
    pose proof (baseStats_at_least_4 c k). lia.
  - apply jitter_uniform.
  - destruct w as [h r d ck t u i]. cbn [heap] in Hs.
    destruct (applyRarityBonuses_run stats_ rarity_ s h r d ck t u i Hr Hs)
      as (s' & d' & Hrun & Hle).
    eexists _, _, s'. split; [exact Hrun |]. norm_world.
    split; [apply lookup_insert_eq |]. split; [exact Hle |].
    split; [eapply lookup_alloc_old, Hs | apply stats_le_positive, Hle].
  - destruct w as [h r d ck t u i]. cbn [heap] in Hs.
    destruct (rollStatGrowth_run stats_ pg sg s h r d ck t u i Hs)
      as (s' & d' & Hrun & Hle).
    eexists _, _, s'. split; [exact Hrun |]. norm_world.
    split; [apply lookup_insert_eq |]. split; [exact Hle |].
    split; [eapply lookup_alloc_old, Hs | apply stats_le_positive, Hle].
  - destruct (executeSummon_summoned parent1 parent2 offspringName owner_
                p1 p2 g1 g2 w Hr H1 H2 HG1 HG2)
      as (res & w' & Hrun
          & (o & s' & G & d0 & _ & _ & Ho & _ & _ & Hst & _ & _ & _ & Hle & _) & HR & _).
    rewrite HR in Hle.
    exists res, w', o, s', d0. repeat (split; [assumption |]).
    eapply stats_le_positive; [exact Hle | apply jitteredStats_positive].
Qed.

End StatTheorem.

(* ------------------------------------------------------------------ *)
(** * The theorems at a sample world *)

Example executeSummon_sample :
  match @executeSummon sampleDates 3%positive 6%positive "Kid" "me" sampleWorld with
  | Some (res, w') =>
    offspring res = 9%positive /\ res_cost res = 5000
    /\ heap w' !! 3%positive = Some (OProfile parentA)
    /\ heap w' !! 6%positive = Some (OProfile parentB)
    /\ drawn w' = 47%nat /\ ticks w' = 2%nat /\ issued w' = 2%nat
  | None => False
  end.
Proof. vm_compute. repeat split. Qed.

Lemma executeSummon_offspring_witness :
  exists res w' o,
    @executeSummon sampleDates 3%positive 6%positive "Kid" "me" sampleWorld
    = Some (res, w')
    /\ heap w' !! offspring res = Some (OProfile o)
    /\ generation o = 3 /\ maxSummons o = 2 /\ summonsRemaining o = 2.
Proof.
  destruct (@executeSummon_offspring sampleDates 3%positive 6%positive "Kid" "me"
              parentA parentB genomeA genomeB sampleWorld
              sampleWorld_draws eq_refl eq_refl eq_refl eq_refl)
    as (res & w' & o & s & Hrun & Ho & _ & Hgen & Hmax & Hrem & _).
  exists res, w', o. split; [exact Hrun |]. split; [exact Ho |].
  split; [exact Hgen |]. split; [exact Hmax |]. rewrite Hrem. exact Hmax.
Defined.

Lemma summons_invariant_witness :
  (exists res w' o,
      @executeSummon sampleDates 3%positive 6%positive "Kid" "me" sampleWorld
      = Some (res, w')
      /\ heap w' !! offspring res = Some (OProfile o) /\ summons_ok o)
  /\ (exists p' w',
        @applySummonToParent sampleDates 3%positive sampleWorld = Some (tt, w')
        /\ heap w' !! 3%positive = Some (OProfile p') /\ summons_ok p').
Proof.
  destruct (@summons_invariant sampleDates 3%positive 6%positive "Kid" "me"
              parentA parentB genomeA genomeB sampleWorld
              sampleWorld_draws eq_refl eq_refl eq_refl eq_refl)
    as [(res & w' & o & Hrun & Ho & Hok & _) Happly].
  split.
  - exists res, w', o. split; [exact Hrun |]. split; [exact Ho | exact Hok].
  - assert (summons_ok parentA) as HA by (unfold summons_ok; simpl; lia).
    assert (1 <= summonsRemaining parentA) as HB by (simpl; lia).
    destruct (Happly HA HB) as (p' & w'' & Hrun' & Hp' & Hok' & _).
    exists p', w''. split; [exact Hrun' |]. split; [exact Hp' | exact Hok'].
Defined.

Lemma stats_at_least_1_witness :
  exists res w' o s',
    @executeSummon sampleDates 3%positive 6%positive "Kid" "me" sampleWorld
    = Some (res, w')
    /\ heap w' !! offspring res = Some (OProfile o)
    /\ heap w' !! stats o = Some (OStats s')
    /\ stats_positive s'.
Proof.
  destruct (@stats_at_least_1 sampleDates ember 1%positive
              (baseStats (CLASS_DEFINITIONS ember)) mythic
              (primaryGrowth (CLASS_DEFINITIONS ember))
              (secondaryGrowth (CLASS_DEFINITIONS thorn))
              3%positive 6%positive "Kid" "me"
              parentA parentB genomeA genomeB sampleWorld
              sampleWorld_draws eq_refl eq_refl eq_refl eq_refl eq_refl)
    as (_ & _ & _ & _ & res & w' & o & s' & d0 & Hrun & Ho & Hs & _ & Hpos).
  exists res, w', o, s'. split; [exact Hrun |]. split; [exact Ho |].
  split; [exact Hs | exact Hpos].
Defined.

Lemma applySummonToParent_two_fields_witness :
  exists p' w',
    @applySummonToParent sampleDates 3%positive sampleWorld = Some (tt, w')
    /\ heap w' !! 3%positive = Some (OProfile p')
    /\ summonsRemaining p' = 4
    /\ summonCooldownEnd p' = Some "1970-01-01T00:00:05.000Z".
Proof.
  destruct (@applySummonToParent_two_fields sampleDates 3%positive parentA sampleWorld
              eq_refl)
    as (p' & w' & Hrun & Hp' & Hrem & Hcd & _).
  exists p', w'. split; [exact Hrun |]. split; [exact Hp' |].
  split; [exact Hrem | exact Hcd].
Defined.

Lemma executeSummon_keeps_parents_witness :
  exists res w',
    @executeSummon sampleDates 3%positive 6%positive "Kid" "me" sampleWorld
    = Some (res, w')
    /\ heap w' !! 3%positive = Some (OProfile parentA)
    /\ heap w' !! 6%positive = Some (OProfile parentB)
    /\ heap w' !! 1%positive = Some (OStats (baseStats (CLASS_DEFINITIONS ember)))
    /\ heap w' !! 2%positive = Some (OGenome genomeA).
Proof.
  destruct (@executeSummon_keeps_parents sampleDates 3%positive 6%positive "Kid" "me"
              parentA parentB genomeA genomeB sampleWorld
              sampleWorld_draws eq_refl eq_refl eq_refl eq_refl)
    as (res & w' & Hrun & _ & Hp1 & Hp2 & Hg1 & _ & Hs1 & _).
  exists res, w'. split; [exact Hrun |]. split; [exact Hp1 |]. split; [exact Hp2 |].
  split; [apply Hs1; reflexivity | exact Hg1].
Defined.

(* ------------------------------------------------------------------ *)
(** * Further properties: derived maxima and experience *)

(** X1.  From level 0 on, the stamina cap lies between 25 and 50, never
    falls when the level rises, is [25 + floor(level / 2)] below level 50
    and 50 from level 50 on; an odd level has the cap of the even level
    before it. *)
Theorem calculateMaxStamina_bounds (level level' : Z) :
  0 <= level -> level <= level' ->
  25 <= calculateMaxStamina level
  /\ calculateMaxStamina level <= calculateMaxStamina level'
  /\ calculateMaxStamina level' <= 50
  /\ (level < 50 -> calculateMaxStamina level = 25 + level / 2)
  /\ (50 <= level -> calculateMaxStamina level = 50)
  /\ calculateMaxStamina (2 * level + 1) = calculateMaxStamina (2 * level).
Proof.
  intros H0 Hle. unfold calculateMaxStamina. cbv zeta.
  assert (0 <= level / 2) by (apply Z.div_pos; lia).
  assert (level / 2 <= level' / 2) by (apply Z.div_le_mono; lia).
  assert (level < 50 -> level / 2 < 25) by (intros; apply Z.div_lt_upper_bound; lia).
  assert (50 <= level -> 25 <= level / 2) by (intros; apply Z.div_le_lower_bound; lia).
  assert ((2 * level + 1) / 2 = level) as ->
    by (symmetry; apply Z.div_unique with 1; lia).
  assert ((2 * level) / 2 = level) as ->
    by (symmetry; apply Z.div_unique with 0; lia).
  repeat split; try lia.
Qed.

Lemma calculateMaxStamina_bounds_witness :
  calculateMaxStamina 7 = 28 /\ calculateMaxStamina 7 <= calculateMaxStamina 120.
Proof.
  destruct (calculateMaxStamina_bounds 7 120 ltac:(lia) ltac:(lia))
    as (_ & Hmono & _ & Hlow & _).
  split; [rewrite Hlow by lia; reflexivity | exact Hmono].
Defined.

(** X2.  Health and mana caps never fall when stats or level rise; with
    every stat at least 1 and level at least 1 the health cap is at least
    65 and the mana cap at least 35. *)
Theorem derived_maxima_monotone (s s' : SigilStats) (level level' : Z) :
  stats_le s s' -> level <= level' ->
  calculateMaxHp s level <= calculateMaxHp s' level'
  /\ calculateMaxMp s level <= calculateMaxMp s' level'
  /\ (stats_positive s -> 1 <= level ->
      65 <= calculateMaxHp s level /\ 35 <= calculateMaxMp s level).
Proof.
  intros Hs Hl. unfold calculateMaxHp, calculateMaxMp.
  pose proof (Hs vit) as Hv. pose proof (Hs int) as Hi. pose proof (Hs wis) as Hw.
  cbn [stat_get] in Hv, Hi, Hw.
  repeat split; try lia.
  - pose proof (H vit) as Hp. cbn [stat_get] in Hp. lia.
  - pose proof (H int) as Hp1. pose proof (H wis) as Hp2. cbn [stat_get] in Hp1, Hp2. lia.
Qed.

Lemma derived_maxima_monotone_witness :
  calculateMaxHp (baseStats (CLASS_DEFINITIONS ember)) 1
  <= calculateMaxHp (baseStats (CLASS_DEFINITIONS ember)) 2.
Proof.
  destruct (derived_maxima_monotone (baseStats (CLASS_DEFINITIONS ember))
              (baseStats (CLASS_DEFINITIONS ember)) 1 2
              (stats_le_refl _) ltac:(lia)) as (H & _).
  exact H.
Defined.

Lemma Qpower_11_ge_1 (n : Z) : 0 <= n -> (1 <= Qpower 1.1 n)%Q.
Proof.
  intros Hn. pattern n. apply natlike_ind; [| | exact Hn].
  - discriminate.
  - intros x Hx IH. unfold Z.succ.
    rewrite Qpower_plus by discriminate.
    assert (E : (Qpower 1.1 1 == 1.1)%Q) by reflexivity. rewrite E.
    set (X := Qpower 1.1 x) in *. lra.
Qed.

Lemma Qfloor_plus_Z (x : Q) (k : Z) : Qfloor (x + inject_Z k) = Qfloor x + k.
Proof.
  apply Qfloor_iff. split.
  - rewrite inject_Z_plus. apply Qplus_le_l, Qfloor_le.
  - replace (Qfloor x + k + 1) with (Qfloor x + 1 + k) by lia.
    rewrite inject_Z_plus. apply Qplus_lt_l, Qlt_floor.
Qed.

(** X3.  The experience target is 0 up to level 0, at least 100 from
    level 1 on, and each level asks for at least 10 more than the one
    before. *)
Theorem xpForLevel_growth (level : Z) :
  (level <= 0 -> xpForLevel level = 0)
  /\ (1 <= level -> 100 <= xpForLevel level)
  /\ (1 <= level -> xpForLevel level + 10 <= xpForLevel (level + 1)).
Proof.
  unfold xpForLevel. split; [| split].
  - intros H. destruct (Z.leb_spec level 0); [reflexivity | lia].
  - intros H. destruct (Z.leb_spec level 0); [lia |].
    apply Z.le_trans with (Qfloor (inject_Z 100)); [rewrite Qfloor_Z; lia |].
    apply Qfloor_resp_le.
    pose proof (Qpower_11_ge_1 (level - 1) ltac:(lia)) as Hp.
    change (inject_Z 100) with 100%Q.
    set (X := Qpower 1.1 (level - 1)) in *. lra.
  - intros H. destruct (Z.leb_spec level 0); [lia |].
    destruct (Z.leb_spec (level + 1) 0); [lia |].
    rewrite <- Qfloor_plus_Z. apply Qfloor_resp_le.
    replace (level + 1 - 1) with ((level - 1) + 1) by lia.
    rewrite Qpower_plus by discriminate.
    assert (E : (Qpower 1.1 1 == 1.1)%Q) by reflexivity. rewrite E.
    pose proof (Qpower_11_ge_1 (level - 1) ltac:(lia)) as Hp.
    change (inject_Z 10) with 10%Q.
    set (X := Qpower 1.1 (level - 1)) in *. lra.
Qed.

Lemma xpForLevel_growth_witness : xpForLevel 1 + 10 <= xpForLevel 2.
Proof. apply (xpForLevel_growth 1). lia. Defined.

Lemma totalXp_loop_acc (n : nat) (i total : Z) :
  totalXp_loop n i total = total + totalXp_loop n i 0.
Proof.
  revert i total. induction n as [| n IH]; intros i total; cbn [totalXp_loop]; [lia |].
  rewrite (IH (i + 1) (total + xpForLevel i)), (IH (i + 1) (0 + xpForLevel i)). lia.
Qed.

Lemma totalXp_loop_last (n : nat) (i total : Z) :
  totalXp_loop (S n) i total = totalXp_loop n i total + xpForLevel (i + Z.of_nat n).
Proof.
  revert i total. induction n as [| n IH]; intros i total.
  - cbn [totalXp_loop]. replace (i + Z.of_nat 0) with i by lia. reflexivity.
  - change (totalXp_loop (S (S n)) i total)
      with (totalXp_loop (S n) (i + 1) (total + xpForLevel i)).
    rewrite IH. cbn [totalXp_loop].
    replace (i + 1 + Z.of_nat n) with (i + Z.of_nat (S n)) by lia. reflexivity.
Qed.

(** X4.  The total experience to reach a level is 0 up to level 1; from
    level 1 on, reaching one level more costs the target of the level left,
    so the total grows by at least 100 per level. *)
Theorem totalXpToLevel_step (targetLevel : Z) :
  (targetLevel <= 1 -> totalXpToLevel targetLevel = 0)
  /\ (1 <= targetLevel ->
      totalXpToLevel (targetLevel + 1)
      = totalXpToLevel targetLevel + xpForLevel targetLevel
      /\ totalXpToLevel targetLevel + 100 <= totalXpToLevel (targetLevel + 1)).
Proof.
  unfold totalXpToLevel. split.
  - intros H. replace (Z.to_nat (targetLevel - 1)) with 0%nat by lia. reflexivity.
  - intros H.
    replace (Z.to_nat (targetLevel + 1 - 1)) with (S (Z.to_nat (targetLevel - 1))) by lia.
    rewrite totalXp_loop_last.
    replace (1 + Z.of_nat (Z.to_nat (targetLevel - 1))) with targetLevel by lia.
    split; [reflexivity |].
    pose proof (proj1 (proj2 (xpForLevel_growth targetLevel)) H). lia.
Qed.

Lemma totalXpToLevel_step_witness : totalXpToLevel 3 = 100 + 110.
Proof.
  destruct (totalXpToLevel_step 2) as [_ H2]. destruct (H2 ltac:(lia)) as [-> _].
  destruct (totalXpToLevel_step 1) as [_ H1]. destruct (H1 ltac:(lia)) as [-> _].
  reflexivity.
Defined.

(* ------------------------------------------------------------------ *)
(** * Further properties: relatedness, cost, rarity *)

(** X5.  [areTooRelated] gives the same answer when the two sigils are
    exchanged; two sigils without recorded parents are never related; a
    sigil without recorded parents is related to another exactly when it
    is one of the other's parents. *)
Theorem areTooRelated_symmetric (ids1 ids2 : option (string * string))
    (id1 id2 : string) :
  areTooRelated ids1 ids2 id1 id2 = areTooRelated ids2 ids1 id2 id1
  /\ areTooRelated None None id1 id2 = false
  /\ (areTooRelated None ids2 id1 id2 = true <->
      exists ids, ids2 = Some ids /\ inPair id1 ids).
Proof.
  split; [| split].
  - unfold areTooRelated, includes.
    destruct ids1 as [[a1 a2] |], ids2 as [[b1 b2] |]; cbn [fst snd];
      rewrite ?(String.eqb_sym b1 a1), ?(String.eqb_sym b2 a2),
        ?(String.eqb_sym b1 a2), ?(String.eqb_sym b2 a1);
      repeat match goal with
             | |- context [String.eqb ?x ?y] => destruct (String.eqb x y)
             end; reflexivity.
  - reflexivity.
  - unfold areTooRelated. destruct ids2 as [ids |].
    + destruct (includes ids id1) eqn:E.
      * split; [intros _ | reflexivity]. exists ids.
        split; [reflexivity | apply includes_inPair, E].
      * split; [discriminate |]. intros (ids' & [= <-] & H).
        apply includes_inPair in H. congruence.
    + split; [discriminate |]. intros (ids' & [=] & _).
Qed.

Example areTooRelated_sample :
  areTooRelated (Some ("A", "B")) None "C" "A" = true
  /\ areTooRelated None (Some ("A", "B")) "A" "C" = true
  /\ areTooRelated (Some ("A", "B")) (Some ("B", "A")) "C" "D" = true
  /\ areTooRelated (Some ("A", "B")) (Some ("A", "E")) "C" "D" = false.
Proof. repeat split. Qed.

Section Escalation.
Context {D : DateApi}.

(** X6.  Each [applySummonToParent] makes the parent dearer and slower:
    its cost rises by exactly 1000, its cooldown by 4 hours in generation
    0 and by [24 + 8 * generation] hours in later generations, and no
    summoning with it as a parent gets cheaper. *)
Theorem applySummonToParent_escalates (parent : loc) (p : SigilProfile) (w : World) :
  heap w !! parent = Some (OProfile p) ->
  0 <= generation p ->
  exists p' w',
    applySummonToParent parent w = Some (tt, w')
    /\ heap w' !! parent = Some (OProfile p')
    /\ parentCost p' = parentCost p + 1000
    /\ cooldownHours p'
       = cooldownHours p + (if generation p =? 0 then 4 else 24 + 8 * generation p)
    /\ cooldownHours p < cooldownHours p'
    /\ forall q, calculateSummonCost p q <= calculateSummonCost p' q
                 /\ calculateSummonCost q p <= calculateSummonCost q p'.
Proof.
  intros H Hg.
  pose proof (applySummonToParent_run parent p w H) as Hrun. cbv zeta in Hrun.
  eexists _, _. split; [exact Hrun |]. norm_world.
  split; [apply lookup_insert_eq |].
  unfold calculateSummonCost, parentCost, cooldownHours, BASE_COST, COST_PER_SUMMON,
    COST_PER_GENERATION, GEN0_BASE_COOLDOWN_HOURS, GEN0_COOLDOWN_INCREMENT_HOURS.
  cbn [set_summonCooldownEnd set_summonsRemaining generation maxSummons summonsRemaining].
  destruct (Z.eqb_spec (generation p) 0) as [E | E].
  - repeat split; lia.
  - repeat split; first [lia | nia].
Qed.

End Escalation.

Lemma applySummonToParent_escalates_witness :
  exists p' w',
    @applySummonToParent sampleDates 3%positive sampleWorld = Some (tt, w')
    /\ heap w' !! 3%positive = Some (OProfile p')
    /\ parentCost p' = 6000 /\ cooldownHours p' = 160.
Proof.
  destruct (@applySummonToParent_escalates sampleDates 3%positive parentA sampleWorld
              eq_refl ltac:(simpl; lia))
    as (p' & w' & Hrun & Hp' & Hcost & Hcd & _).
  exists p', w'. split; [exact Hrun |]. split; [exact Hp' |].
  split; [exact Hcost | exact Hcd].
Defined.

Lemma parentBonus_monotone (p1 p2 q1 q2 : Rarity) :
  tierRank p1 <= tierRank q1 -> tierRank p2 <= tierRank q2 ->
  (parentBonus p1 p2 <= parentBonus q1 q2)%Q.
Proof.
  unfold tierRank, parentBonus. intros H1 H2.
  assert (inject_Z (indexOf RARITY_TIERS p1 + indexOf RARITY_TIERS p2)
          <= inject_Z (indexOf RARITY_TIERS q1 + indexOf RARITY_TIERS q2))%Q as H
    by (rewrite <- Zle_Qle; lia).
  set (a := inject_Z (indexOf RARITY_TIERS p1 + indexOf RARITY_TIERS p2)) in *.
  set (b := inject_Z (indexOf RARITY_TIERS q1 + indexOf RARITY_TIERS q2)) in *.
  unfold Qdiv. assert (E : (/ 2 == 0.5)%Q) by reflexivity. rewrite E. lra.
Qed.

(** X7.  The offspring rarity roll does not depend on the order of the
    parents, and for one and the same draw a parent of a higher tier never
    gives an offspring of a lower tier.  A draw gives [common] exactly
    when it is at least [0.20 + 0.15 * 0.03 * (rank 1 + rank 2) / 2]; so,
    whatever the parents, every draw from 0.218 on gives [common] (with
    two mythic parents these are the only ones), and at least 782 of 1000
    evenly spaced draws do: at least 78.2% of the draws give [common]. *)
Theorem rollOffspringRarity_monotone (p1 p2 q1 q2 : Rarity) (r : Q) :
  rollOffspringRarity_at p1 p2 r = rollOffspringRarity_at p2 p1 r
  /\ (tierRank p1 <= tierRank q1 -> tierRank p2 <= tierRank q2 ->
      tierRank (rollOffspringRarity_at p1 p2 r)
      <= tierRank (rollOffspringRarity_at q1 q2 r))
  /\ (rollOffspringRarity_at p1 p2 r = common
      <-> (0.20 + inject_Z (tierRank p1 + tierRank p2) / 2 * 0.03 * 0.15 <= r)%Q)
  /\ ((0.218 <= r)%Q -> rollOffspringRarity_at p1 p2 r = common)
  /\ (rollOffspringRarity_at mythic mythic r = common -> (0.218 <= r)%Q)
  /\ (782 <= countTier (rollOffspringRarity_at p1 p2) 1000 common)%nat.
Proof.
  assert (forall a b,
            rollOffspringRarity_at a b r = common
            <-> (0.20 + inject_Z (tierRank a + tierRank b) / 2 * 0.03 * 0.15 <= r)%Q)
    as Hcommon.
  { intros a b. rewrite rollOffspringRarity_at_unfold.
    destruct (parentBonus_range a b) as [Hb0 _].
    unfold tierUpper, tierRank. fold (parentBonus a b).
    set (c := parentBonus a b) in *.
    repeat case_Qltb; split; intros H; first [discriminate | reflexivity | lra]. }
  split; [| split; [| split; [| split; [| split]]]].
  - rewrite !rollOffspringRarity_at_unfold. unfold tierUpper, parentBonus.
    rewrite (Z.add_comm (indexOf RARITY_TIERS p2)). reflexivity.
  - intros H1 H2. pose proof (parentBonus_monotone p1 p2 q1 q2 H1 H2) as Hb.
    rewrite !rollOffspringRarity_at_unfold. unfold tierUpper.
    set (b := parentBonus p1 p2) in *. set (b' := parentBonus q1 q2) in *.
    repeat case_Qltb; first [lra | vm_compute; discriminate].
  - apply Hcommon.
  - intros Hr. apply Hcommon.
    destruct (parentBonus_range p1 p2) as [_ Hb1].
    unfold tierRank. fold (parentBonus p1 p2).
    set (c := parentBonus p1 p2) in *. lra.
  - intros H. apply Hcommon in H.
    assert (E : (0.20 + inject_Z (tierRank mythic + tierRank mythic) / 2 * 0.03 * 0.15
                 == 0.218)%Q) by reflexivity.
    rewrite E in H. exact H.
  - destruct p1, p2; vm_compute; lia.
Qed.

Lemma rollOffspringRarity_monotone_witness :
  tierRank (rollOffspringRarity_at common common 0.0015)
  <= tierRank (rollOffspringRarity_at mythic mythic 0.0015)
  /\ rollOffspringRarity_at common common 0.0015 = legendary
  /\ rollOffspringRarity_at mythic mythic 0.0015 = mythic
  /\ rollOffspringRarity_at rare uncommon 0.25 = common.
Proof.
  destruct (rollOffspringRarity_monotone common common mythic mythic 0.0015)
    as (_ & H & _).
  destruct (rollOffspringRarity_monotone rare uncommon rare uncommon 0.25)
    as (_ & _ & _ & Hc & _).
  split; [apply H; vm_compute; discriminate |].
  split; [reflexivity |]. split; [reflexivity |].
  apply Hc. vm_compute. discriminate.
Defined.

(* ------------------------------------------------------------------ *)
(** * Further properties: who may breed after a summoning *)

Ltac refusal_cases :=
  repeat match goal with
  | |- _ /\ _ => split
  | |- _ <-> _ => split
  end;
  intros;
  try reflexivity; try discriminate; try tauto.

Section Refusals.
Context {D : DateApi}.

(** When [checkSummonEligibility] refuses, and what it says to kin. *)
Lemma checkSummonEligibility_refusal (parent1 parent2 : loc)
    (p1 p2 : SigilProfile) (w : World) :
  heap w !! parent1 = Some (OProfile p1) ->
  heap w !! parent2 = Some (OProfile p2) ->
  let now1 := clock w (ticks w) in
  let now2 := clock w ((if cooldownSet p1 then 1 else 0) + ticks w)%nat in
  exists v k,
    checkSummonEligibility parent1 parent2 w = Some (v, with_ticks (k + ticks w) w)
    /\ (k <= 2)%nat
    /\ (eligible v = false <->
        sameIdentity p1 p2 \/ related p1 p2 \/ exhausted p1 \/ exhausted p2
        \/ cooling now1 p1 \/ cooling now2 p2)
    /\ (sameIdentity p1 p2 \/ related p1 p2 ->
        v = ineligible "Cannot summon with self"
        \/ v = ineligible "Parents are too closely related (siblings or parent-child)")
    /\ (eligible v = true -> cost v = Some (calculateSummonCost p1 p2)).
Proof.
  intros H1 H2 now1 now2.
  unfold checkSummonEligibility.
  unfold bind at 1. unfold readProfile at 1. rewrite H1.
  unfold bind at 1. unfold readProfile at 1. rewrite H2.
  pose proof (areTooRelated_related p1 p2) as Hrel.
  unfold sameIdentity, exhausted.
  destruct (String.eqb_spec (id p1) (id p2)) as [Hid | Hid].
  { exists (ineligible "Cannot summon with self"), 0%nat.
    split; [destruct w; reflexivity |]. split; [lia |]. refusal_cases. }
  destruct (areTooRelated (parentIds p1) (parentIds p2) (id p1) (id p2)).
  { assert (related p1 p2) by (apply Hrel; reflexivity).
    exists (ineligible "Parents are too closely related (siblings or parent-child)"), 0%nat.
    split; [destruct w; reflexivity |]. split; [lia |]. refusal_cases. }
  assert (~ related p1 p2) as Hnr by (intros H; apply Hrel in H; discriminate).
  destruct (Z.leb_spec (summonsRemaining p1) 0) as [He1 | He1].
  { eexists _, 0%nat. split; [destruct w; reflexivity |]. split; [lia |].
    refusal_cases. }
  destruct (Z.leb_spec (summonsRemaining p2) 0) as [He2 | He2].
  { eexists _, 0%nat. split; [destruct w; reflexivity |]. split; [lia |].
    refusal_cases. }
  unfold bind at 1.
  destruct (onCooldown_run p1 w) as (c1 & -> & Hc1).
  fold now1 in Hc1.
  destruct c1.
  { assert (cooling now1 p1) by (apply Hc1; reflexivity).
    eexists _, _. split; [reflexivity |]. split; [destruct (cooldownSet p1); lia |].
    refusal_cases. }
  assert (~ cooling now1 p1) as Hn1 by (intros H; apply Hc1 in H; discriminate).
  unfold bind at 1.
  destruct (onCooldown_run p2
              (with_ticks ((if cooldownSet p1 then 1 else 0) + ticks w) w))
    as (c2 & -> & Hc2).
  cbn [clock ticks with_ticks] in Hc2. fold now2 in Hc2.
  destruct c2.
  { assert (cooling now2 p2) by (apply Hc2; reflexivity).
    eexists _, ((if cooldownSet p2 then 1 else 0) + (if cooldownSet p1 then 1 else 0))%nat.
    split; [cbn [ticks with_ticks]; rewrite <- Nat.add_assoc; reflexivity |].
    split; [destruct (cooldownSet p1), (cooldownSet p2); lia |].
    refusal_cases. }
  assert (~ cooling now2 p2) as Hn2 by (intros H; apply Hc2 in H; discriminate).
  eexists _, ((if cooldownSet p2 then 1 else 0) + (if cooldownSet p1 then 1 else 0))%nat.
  split; [cbn [ticks with_ticks]; rewrite <- Nat.add_assoc; reflexivity |].
  split; [destruct (cooldownSet p1), (cooldownSet p2); lia |].
  refusal_cases.
  exfalso. intuition lia.
Qed.

End Refusals.

Section AfterSummoning.
Context {D : DateApi}.

Lemma kin_refused (l1 l2 : loc) (p1 p2 : SigilProfile) (w : World) :
  heap w !! l1 = Some (OProfile p1) -> heap w !! l2 = Some (OProfile p2) ->
  sameIdentity p1 p2 \/ related p1 p2 ->
  refused_as_kin (checkSummonEligibility l1 l2) w.
Proof.
  intros H1 H2 Hkin.
  destruct (checkSummonEligibility_refusal l1 l2 p1 p2 w H1 H2)
    as (v & k & Hrun & _ & Hiff & Hmsg & _).
  exists v, (with_ticks (k + ticks w) w). split; [exact Hrun |].
  split; [apply Hiff; tauto | apply Hmsg, Hkin].
Qed.

Lemma child_related (o p1 p2 pa : SigilProfile) :
  parentIds o = Some (id p1, id p2) -> pa = p1 \/ pa = p2 ->
  related o pa /\ related pa o.
Proof.
  intros Ho Hpa.
  assert (inPair (id pa) (id p1, id p2)) as Hin
    by (destruct Hpa as [-> | ->]; [left | right]; reflexivity).
  split.
  - left. exists (id p1, id p2). split; assumption.
  - right. left. exists (id p1, id p2). split; assumption.
Qed.

(** X8.  The offspring that [executeSummon] has just made can breed with
    neither of its parents: [checkSummonEligibility] refuses the pair in
    either order, for kinship (or for identity, should the offspring have
    been given the id of a parent). *)
Theorem offspring_refused_with_parents (parent1 parent2 : loc)
    (offspringName owner_ : string)
    (p1 p2 : SigilProfile) (g1 g2 : SigilGenome) (w : World) :
  draws_in_unit w ->
  heap w !! parent1 = Some (OProfile p1) -> heap w !! parent2 = Some (OProfile p2) ->
  heap w !! genes p1 = Some (OGenome g1) -> heap w !! genes p2 = Some (OGenome g2) ->
  exists res w',
    executeSummon parent1 parent2 offspringName owner_ w = Some (res, w')
    /\ refused_as_kin (checkSummonEligibility (offspring res) parent1) w'
    /\ refused_as_kin (checkSummonEligibility parent1 (offspring res)) w'
    /\ refused_as_kin (checkSummonEligibility (offspring res) parent2) w'
    /\ refused_as_kin (checkSummonEligibility parent2 (offspring res)) w'.
Proof.
  intros Hr H1 H2 HG1 HG2.
  destruct (executeSummon_summoned parent1 parent2 offspringName owner_
              p1 p2 g1 g2 w Hr H1 H2 HG1 HG2)
    as (res & w' & Hrun
        & (o & s & G & d0 & Hkeep & _ & Ho & _ & _ & _ & _ & _ & Hf & _) & _).
  assert (parentIds o = Some (id p1, id p2)) as Hpar by apply Hf.
  destruct (child_related o p1 p2 p1 Hpar (or_introl eq_refl)) as [Ra Rb].
  destruct (child_related o p1 p2 p2 Hpar (or_intror eq_refl)) as [Rc Rd].
  exists res, w'. split; [exact Hrun |].
  repeat split; eapply kin_refused; eauto.
Qed.

(** X9.  Two offspring of the same two parents cannot breed with each
    other, whether the second summoning names the parents in the same
    order or in the opposite order. *)
Theorem siblings_refused (parent1 parent2 : loc) (name1 name2 owner_ : string)
    (p1 p2 : SigilProfile) (g1 g2 : SigilGenome) (w : World) :
  draws_in_unit w ->
  heap w !! parent1 = Some (OProfile p1) -> heap w !! parent2 = Some (OProfile p2) ->
  heap w !! genes p1 = Some (OGenome g1) -> heap w !! genes p2 = Some (OGenome g2) ->
  exists res1 w1,
    executeSummon parent1 parent2 name1 owner_ w = Some (res1, w1)
    /\ (exists res2 w2,
          executeSummon parent1 parent2 name2 owner_ w1 = Some (res2, w2)
          /\ offspring res2 <> offspring res1
          /\ refused_as_kin (checkSummonEligibility (offspring res1) (offspring res2)) w2
          /\ refused_as_kin (checkSummonEligibility (offspring res2) (offspring res1)) w2)
    /\ (exists res2 w2,
          executeSummon parent2 parent1 name2 owner_ w1 = Some (res2, w2)
          /\ offspring res2 <> offspring res1
          /\ refused_as_kin (checkSummonEligibility (offspring res1) (offspring res2)) w2
          /\ refused_as_kin (checkSummonEligibility (offspring res2) (offspring res1)) w2).
Proof.
  intros Hr H1 H2 HG1 HG2.
  destruct (executeSummon_summoned parent1 parent2 name1 owner_
              p1 p2 g1 g2 w Hr H1 H2 HG1 HG2)
    as (res1 & w1 & Hrun1
        & (o1 & s1 & G1 & d1 & Hkeep1 & _ & Ho1 & _ & _ & _ & _ & _ & Hf1 & _) & HR1 & _).
  assert (parentIds o1 = Some (id p1, id p2)) as Hpar1 by apply Hf1.
  assert (draws_in_unit w1) as Hr1 by (intros n; rewrite HR1; apply Hr).
  exists res1, w1. split; [exact Hrun1 |]. split.
  - destruct (executeSummon_summoned parent1 parent2 name2 owner_
                p1 p2 g1 g2 w1 Hr1 (Hkeep1 _ _ H1) (Hkeep1 _ _ H2)
                (Hkeep1 _ _ HG1) (Hkeep1 _ _ HG2))
      as (res2 & w2 & Hrun2
          & (o2 & s2 & G2 & d2 & Hkeep2 & Hnew2 & Ho2 & _ & _ & _ & _ & _ & Hf2 & _) & _).
    assert (parentIds o2 = Some (id p1, id p2)) as Hpar2 by apply Hf2.
    exists res2, w2. split; [exact Hrun2 |].
    split; [intros E; rewrite E, Ho1 in Hnew2; discriminate |].
    split; eapply kin_refused; eauto; right; right; right;
      eexists _, _; (split; [eassumption |]); (split; [eassumption |]);
      left; split; reflexivity.
  - destruct (executeSummon_summoned parent2 parent1 name2 owner_
                p2 p1 g2 g1 w1 Hr1 (Hkeep1 _ _ H2) (Hkeep1 _ _ H1)
                (Hkeep1 _ _ HG2) (Hkeep1 _ _ HG1))
      as (res2 & w2 & Hrun2
          & (o2 & s2 & G2 & d2 & Hkeep2 & Hnew2 & Ho2 & _ & _ & _ & _ & _ & Hf2 & _) & _).
    assert (parentIds o2 = Some (id p2, id p1)) as Hpar2 by apply Hf2.
    exists res2, w2. split; [exact Hrun2 |].
    split; [intros E; rewrite E, Ho1 in Hnew2; discriminate |].
    split; eapply kin_refused; eauto; right; right; right;
      eexists _, _; (split; [eassumption |]); (split; [eassumption |]);
      right; split; reflexivity.
Qed.

(** X10.  A parent to which [applySummonToParent] has been applied is
    refused by [checkSummonEligibility], with any partner and in either
    position, for as long as the clock reads less than the cooldown end
    that was written (printing a date and parsing it must give the date
    back). *)
Theorem parent_refused_during_cooldown (parent : loc) (p : SigilProfile) (w : World) :
  dates_round_trip D ->
  heap w !! parent = Some (OProfile p) ->
  let ends := clock w (ticks w)
              + cooldownHours (set_summonsRemaining (summonsRemaining p - 1) p)
                * 60 * 60 * 1000 in
  clock w (1 + ticks w)%nat < ends -> clock w (2 + ticks w)%nat < ends ->
  exists w',
    applySummonToParent parent w = Some (tt, w')
    /\ forall other q,
         heap w' !! other = Some (OProfile q) ->
         refused (checkSummonEligibility parent other) w'
         /\ refused (checkSummonEligibility other parent) w'.
Proof.
  intros HD H ends Hc1 Hc2.
  pose proof (applySummonToParent_run parent p w H) as Hrun. cbv zeta in Hrun.
  eexists. split; [exact Hrun |].
  set (p' := set_summonCooldownEnd (Some (toISOString ends))
               (set_summonsRemaining (summonsRemaining p - 1) p)).
  match goal with
  | |- forall other q, heap ?w1 !! other = _ -> _ => set (w' := w1)
  end.
  assert (heap w' !! parent = Some (OProfile p')) as Hp' by apply lookup_insert_eq.
  assert (forall now, now < ends -> cooling now p') as Hcool.
  { intros now Hnow. exists (toISOString ends), ends.
    destruct (HD ends) as [Hparse Hne]. repeat split; assumption. }
  intros other q Hq. split.
  - destruct (checkSummonEligibility_refusal parent other p' q w' Hp' Hq)
      as (v & k & Hrun1 & _ & Hiff & _).
    exists v, (with_ticks (k + ticks w') w'). split; [exact Hrun1 |].
    apply Hiff. do 4 right. left. apply Hcool. exact Hc1.
  - destruct (checkSummonEligibility_refusal other parent q p' w' Hq Hp')
      as (v & k & Hrun1 & _ & Hiff & _).
    exists v, (with_ticks (k + ticks w') w'). split; [exact Hrun1 |].
    apply Hiff. do 5 right. apply Hcool.
    subst w'. norm_world. destruct (cooldownSet q); assumption.
Qed.

(** X11.  The offspring that [executeSummon] has just made passes
    [canQuest] (stamina 25, health at least 65) and fails [canLevelUp]
    with the message that 100 more experience are needed. *)
Theorem newborn_can_quest_not_level (parent1 parent2 : loc)
    (offspringName owner_ : string)
    (p1 p2 : SigilProfile) (g1 g2 : SigilGenome) (w : World) :
  draws_in_unit w ->
  heap w !! parent1 = Some (OProfile p1) -> heap w !! parent2 = Some (OProfile p2) ->
  heap w !! genes p1 = Some (OGenome g1) -> heap w !! genes p2 = Some (OGenome g2) ->
  exists res w' o,
    executeSummon parent1 parent2 offspringName owner_ w = Some (res, w')
    /\ heap w' !! offspring res = Some (OProfile o)
    /\ canQuest o = {| ok := true; verdict_reason := None |}
    /\ 65 <= hp o
    /\ canLevelUp o
       = {| ok := false; verdict_reason := Some "Need 100 more XP (0/100)" |}.
Proof.
  intros Hr H1 H2 HG1 HG2.
  destruct (executeSummon_summoned parent1 parent2 offspringName owner_
              p1 p2 g1 g2 w Hr H1 H2 HG1 HG2)
    as (res & w' & Hrun
        & (o & s & G & d0 & _ & _ & Ho & _ & _ & _ & _ & _ & Hf & Hle & _) & _).
  destruct Hf as (_ & _ & _ & _ & _ & _ & _ & _ & _ & _ & _ & Hlv & Hxp & Hxpt
                  & Hhp & _ & _ & _ & Hst & _).
  assert (stats_positive s) as Hpos
    by (eapply stats_le_positive; [exact Hle | apply jitteredStats_positive]).
  assert (65 <= hp o) as Hhp65.
  { rewrite Hhp. unfold calculateMaxHp. pose proof (Hpos vit) as Hv.
    cbn [stat_get] in Hv. lia. }
  exists res, w', o. split; [exact Hrun |]. split; [exact Ho |].
  split; [| split; [exact Hhp65 |]].
  - unfold canQuest, STAMINA_COST. rewrite Hst.
    destruct (Z.leb_spec (hp o) 0); [lia | reflexivity].
  - unfold canLevelUp. rewrite Hlv, Hxp, Hxpt. reflexivity.
Qed.

End AfterSummoning.

Lemma decimalDates_round_trip : dates_round_trip decimalDates.
Proof.
  intros t. cbn [toISOString parseDate decimalDates].
  assert (NilZero.int_of_string (NilZero.string_of_int (Z.to_int t))
          = Some (Z.to_int t)) as E.
  { apply NilZero.isi.
    - destruct t; cbn; try discriminate.
      intros [= H]. exact (Unsigned.to_uint_nonnil _ H).
    - destruct t; cbn; try discriminate.
      intros [= H]. exact (Unsigned.to_uint_nonnil _ H). }
  split.
  - rewrite E. cbn. rewrite DecimalZ.of_to. reflexivity.
  - intros H. rewrite H in E. discriminate.
Qed.

Lemma offspring_refused_with_parents_witness :
  exists res w',
    @executeSummon sampleDates 3%positive 6%positive "Kid" "me" sampleWorld
    = Some (res, w')
    /\ refused_as_kin (@checkSummonEligibility sampleDates (offspring res) 3%positive) w'.
Proof.
  destruct (@offspring_refused_with_parents sampleDates 3%positive 6%positive "Kid" "me"
              parentA parentB genomeA genomeB sampleWorld
              sampleWorld_draws eq_refl eq_refl eq_refl eq_refl)
    as (res & w' & Hrun & Hkin & _).
  exists res, w'. split; [exact Hrun | exact Hkin].
Defined.

Lemma siblings_refused_witness :
  exists res1 w1 res2 w2,
    @executeSummon sampleDates 3%positive 6%positive "Kid" "me" sampleWorld
    = Some (res1, w1)
    /\ @executeSummon sampleDates 6%positive 3%positive "Sib" "me" w1 = Some (res2, w2)
    /\ refused_as_kin
         (@checkSummonEligibility sampleDates (offspring res1) (offspring res2)) w2.
Proof.
  destruct (@siblings_refused sampleDates 3%positive 6%positive "Kid" "Sib" "me"
              parentA parentB genomeA genomeB sampleWorld
              sampleWorld_draws eq_refl eq_refl eq_refl eq_refl)
    as (res1 & w1 & Hrun1 & _ & res2 & w2 & Hrun2 & _ & Hkin & _).
  exists res1, w1, res2, w2. split; [exact Hrun1 |]. split; [exact Hrun2 | exact Hkin].
Defined.

Example siblings_sample :
  match @executeSummon sampleDates 3%positive 6%positive "Kid" "me" sampleWorld with
  | Some (res1, w1) =>
    match @executeSummon sampleDates 6%positive 3%positive "Sib" "me" w1 with
    | Some (res2, w2) =>
      match @checkSummonEligibility sampleDates (offspring res1) (offspring res2) w2 with
      | Some (v, _) =>
        reason v = Some "Parents are too closely related (siblings or parent-child)"
      | None => False
      end
    | None => False
    end
  | None => False
  end.
Proof. vm_compute. reflexivity. Qed.

Lemma parent_refused_during_cooldown_witness :
  exists w',
    @applySummonToParent decimalDates 3%positive sampleWorld = Some (tt, w')
    /\ refused (@checkSummonEligibility decimalDates 3%positive 6%positive) w'.
Proof.
  destruct (@parent_refused_during_cooldown decimalDates 3%positive parentA sampleWorld
              decimalDates_round_trip eq_refl eq_refl eq_refl)
    as (w' & Hrun & Hall).
  exists w'. split; [exact Hrun |].
  apply (Hall 6%positive parentB).
  rewrite (f_equal (fun o => match o with Some (_, w) => heap w !! 6%positive | None => None end)
             (eq_sym Hrun)).
  reflexivity.
Defined.

Lemma newborn_can_quest_not_level_witness :
  exists res w' o,
    @executeSummon sampleDates 3%positive 6%positive "Kid" "me" sampleWorld
    = Some (res, w')
    /\ heap w' !! offspring res = Some (OProfile o)
    /\ ok (canQuest o) = true /\ ok (canLevelUp o) = false.
Proof.
  destruct (@newborn_can_quest_not_level sampleDates 3%positive 6%positive "Kid" "me"
              parentA parentB genomeA genomeB sampleWorld
              sampleWorld_draws eq_refl eq_refl eq_refl eq_refl)
    as (res & w' & o & Hrun & Ho & Hq & _ & Hl).
  exists res, w', o. split; [exact Hrun |]. split; [exact Ho |].
  rewrite Hq, Hl. split; reflexivity.
Defined.

(* ------------------------------------------------------------------ *)
(** * Further properties: genomes *)

Lemma pick_In {T} (pool : list T) (r : Q) (x : T) : pick pool r = Some x -> In x pool.
Proof.
  unfold pick, at_index.
  destruct (_ <? 0); [discriminate |]. apply nth_error_In.
Qed.

Lemma otherClasses_spec (c x : SigilClass) :
  otherClasses c <> [] /\ (In x (otherClasses c) -> x <> c).
Proof.
  split; [destruct c; discriminate |].
  unfold otherClasses. rewrite filter_In, negb_true_iff, bool_decide_eq_false. tauto.
Qed.

(** X12.  A generation-0 genome made for a class has that class as its
    dominant class gene and another class as its recessive class gene; its
    dominant profession gene is the profession of the class in the
    registry, so [hasProfessionBonus] holds for that profession and for no
    other.  Making it takes 16 draws and adds one object to the store. *)
Theorem generateGen0Genes_class (sigilClass : SigilClass) (w : World) :
  draws_in_unit w ->
  exists G,
    generateGen0Genes sigilClass w
    = Some (fresh (dom (heap w)),
            with_heap (<[fresh (dom (heap w)) := OGenome G]> (heap w))
                      (with_drawn (16 + drawn w) w))
    /\ dominant (gene_class G) = sigilClass
    /\ recessive (gene_class G) <> sigilClass
    /\ dominant (gene_profession G) = getClassProfession sigilClass
    /\ (forall q, hasProfessionBonus G q = true <-> q = getClassProfession sigilClass).
Proof.
  intros Hd.
  assert (wp (generateGen0Genes sigilClass) w (fun l w' =>
    exists G,
      l = fresh (dom (heap w))
      /\ w' = with_heap (<[fresh (dom (heap w)) := OGenome G]> (heap w))
                        (with_drawn (16 + drawn w) w)
      /\ dominant (gene_class G) = sigilClass
      /\ recessive (gene_class G) <> sigilClass
      /\ dominant (gene_profession G) = professionForClass sigilClass)) as H.
  { unfold generateGen0Genes. cbv zeta.
    apply wp_bind, wp_randomFrom; [exact Hd | apply otherClasses_spec; exact sigilClass |].
    intros c_r Hcr.
    do 15 (apply wp_bind, wp_randomFrom; [exact Hd | discriminate |]; intros ? _).
    apply wp_alloc. eexists. split; [reflexivity |]. split; [reflexivity |].
    cbn [gene_class gene_profession dominant recessive].
    split; [reflexivity |]. split; [| reflexivity].
    apply (otherClasses_spec sigilClass c_r), (pick_In _ _ _ Hcr). }
  apply wp_run in H. destruct H as (l & w' & Hrun & G & -> & -> & HD & HR & HP).
  assert (professionForClass sigilClass = getClassProfession sigilClass) as E
    by (destruct sigilClass; reflexivity).
  exists G. split; [exact Hrun |]. split; [exact HD |]. split; [exact HR |].
  split; [congruence |].
  intros q. unfold hasProfessionBonus. rewrite bool_decide_eq_true, HP, E.
  split; intros; congruence.
Qed.

Lemma generateGen0Genes_class_witness :
  exists G w',
    generateGen0Genes veil sampleWorld = Some (7%positive, w')
    /\ heap w' !! 7%positive = Some (OGenome G)
    /\ dominant (gene_class G) = veil /\ dominant (gene_profession G) = foraging.
Proof.
  destruct (generateGen0Genes_class veil sampleWorld sampleWorld_draws)
    as (G & Hrun & HD & _ & HP & _).
  exists G. eexists. split; [exact Hrun |].
  split; [apply lookup_insert_eq |]. split; [exact HD | exact HP].
Defined.

Lemma mutated_at_cases {T} (gene : T) (pool : list T) (check next : Q) (x : T) :
  mutated_at gene pool check next = Some x -> x = gene \/ In x pool.
Proof.
  unfold mutated_at. destruct (Qltb check MUTATION_RATE).
  - intros H. right. eapply pick_In, H.
  - intros [= <-]. left. reflexivity.
Qed.

Lemma selectGene_at_layer {T} (layers : GeneLayers T) (r : Q) :
  In (selectGene_at layers r) [dominant layers; recessive layers; hidden layers].
Proof.
  unfold selectGene_at. repeat destruct (Qltb _ _); cbn; auto.
Qed.

Lemma mutation_draws_range (check : Q) :
  (1 <= mutation_draws check <= 2)%nat.
Proof. unfold mutation_draws. destruct (Qltb _ _); lia. Qed.

(** X13.  In the slot that [inheritSlot] returns, the dominant value is
    one of the three layers of parent 1 or a value of the pool, the
    recessive value is one of the three layers of parent 2 or a value of
    the pool, and the hidden value is a value of the pool.  The call takes
    between 6 and 9 draws and leaves the store as it is. *)
Theorem inheritSlot_values {T} (p1 p2 : GeneLayers T) (pool : list T) (w : World) :
  draws_in_unit w -> pool <> [] ->
  exists L n,
    inheritSlot p1 p2 pool w = Some (L, with_drawn (n + drawn w) w)
    /\ (6 <= n <= 9)%nat
    /\ (In (dominant L) [dominant p1; recessive p1; hidden p1] \/ In (dominant L) pool)
    /\ (In (recessive L) [dominant p2; recessive p2; hidden p2] \/ In (recessive L) pool)
    /\ In (hidden L) pool.
Proof.
  intros Hd Hp.
  destruct (inheritSlot_draws p1 p2 pool w Hd Hp) as (L & h0 & Hrun & Hh & HD & HR & HH).
  cbv zeta in *.
  set (dD := mutation_draws (randoms w (3 + drawn w)%nat)) in *.
  set (dR := mutation_draws (randoms w (dD + (3 + drawn w))%nat)) in *.
  set (dH := mutation_draws (randoms w (dR + (dD + (3 + drawn w)))%nat)) in *.
  pose proof (mutation_draws_range (randoms w (3 + drawn w)%nat)) as RD. fold dD in RD.
  pose proof (mutation_draws_range (randoms w (dD + (3 + drawn w))%nat)) as RR.
  fold dR in RR.
  pose proof (mutation_draws_range (randoms w (dR + (dD + (3 + drawn w)))%nat)) as RH.
  fold dH in RH.
  exists L, (dH + dR + dD + 3)%nat. split.
  - rewrite Hrun. do 2 f_equal. unfold with_drawn. f_equal. lia.
  - split; [lia |].
    apply mutated_at_cases in HD, HR, HH. apply pick_In in Hh.
    repeat split.
    + destruct HD as [-> | HD]; [left; apply selectGene_at_layer | right; exact HD].
    + destruct HR as [-> | HR]; [left; apply selectGene_at_layer | right; exact HR].
    + destruct HH as [-> | HH]; assumption.
Qed.

Lemma inheritSlot_values_witness :
  exists L n,
    inheritSlot (gene_class genomeA) (gene_class genomeB) CLASSES sampleWorld
    = Some (L, with_drawn (n + drawn sampleWorld) sampleWorld)
    /\ (6 <= n <= 9)%nat.
Proof.
  destruct (inheritSlot_values (gene_class genomeA) (gene_class genomeB) CLASSES
              sampleWorld sampleWorld_draws ltac:(discriminate))
    as (L & n & Hrun & Hn & _).
  exists L, n. split; [exact Hrun | exact Hn].
Defined.

(* ------------------------------------------------------------------ *)
(** * Further properties: quests *)

Lemma rollDrops_loop_run (table : list DropTableEntry) (lck_ : Z)
    (drops : list QuestItemDrop) h r d ck t u i :
  rollDrops_loop table lck_ drops (mkWorld h r d ck t u i)
  = Some (drops ++ map dropOf (droppedEntries table lck_ r d),
          mkWorld h r (length table + d) ck t u i).
Proof.
  revert drops d. induction table as [| entry rest IH]; intros drops d.
  - cbn. rewrite app_nil_r. reflexivity.
  - cbn [rollDrops_loop droppedEntries length]. unfold bind, mathRandom.
    norm_world. fold (dropChance entry lck_).
    destruct (Qltb (r d) (dropChance entry lck_));
      unfold with_drawn; cbn [heap randoms drawn clock ticks ulids issued].
    + rewrite IH. cbn [map]. rewrite <- app_assoc. cbn [app].
      do 3 f_equal. lia.
    + rewrite IH. do 3 f_equal. lia.
Qed.

Lemma droppedEntries_sublist (table : list DropTableEntry) (lck_ : Z) rnd d :
  sublist (droppedEntries table lck_ rnd d) table.
Proof.
  revert d. induction table as [| entry rest IH]; intros d; cbn [droppedEntries].
  - constructor.
  - destruct (Qltb _ _); [apply sublist_skip | apply sublist_cons]; apply IH.
Qed.

Lemma droppedEntries_luck (table : list DropTableEntry) (lck_ lck' : Z) rnd d :
  Forall (fun e => (0 <= lckScaling e)%Q) table -> lck_ <= lck' ->
  sublist (droppedEntries table lck_ rnd d) (droppedEntries table lck' rnd d).
Proof.
  intros Hs Hl. revert d. induction Hs as [| entry rest He _ IH]; intros d;
    cbn [droppedEntries]; [constructor |].
  assert (dropChance entry lck_ <= dropChance entry lck')%Q as Hc.
  { unfold dropChance. apply Qplus_le_r, Qmult_le_compat_r; [| exact He].
    rewrite <- Zle_Qle. exact Hl. }
  destruct (Qltb (rnd d) (dropChance entry lck_)) eqn:E1;
    destruct (Qltb (rnd d) (dropChance entry lck')) eqn:E2.
  - apply sublist_skip, IH.
  - apply Qltb_lt in E1. apply Qltb_ge in E2. exfalso.
    apply (Qlt_irrefl (rnd d)). eapply Qlt_le_trans; [exact E1 |].
    eapply Qle_trans; eassumption.
  - apply sublist_cons, IH.
  - apply IH.
Qed.

Lemma droppedEntries_all (table : list DropTableEntry) (lck_ : Z) rnd d :
  (forall n, (rnd n < 1)%Q) ->
  Forall (fun e => (1 <= dropChance e lck_)%Q) table ->
  droppedEntries table lck_ rnd d = table.
Proof.
  intros Hr Hs. revert d. induction Hs as [| entry rest He _ IH]; intros d;
    cbn [droppedEntries]; [reflexivity |].
  assert (Qltb (rnd d) (dropChance entry lck_) = true) as ->
    by (apply Qltb_lt; eapply Qlt_le_trans; [apply Hr | exact He]).
  rewrite IH. reflexivity.
Qed.

Lemma droppedEntries_none (table : list DropTableEntry) (lck_ : Z) rnd d :
  (forall n, (0 <= rnd n)%Q) ->
  Forall (fun e => (dropChance e lck_ <= 0)%Q) table ->
  droppedEntries table lck_ rnd d = [].
Proof.
  intros Hr Hs. revert d. induction Hs as [| entry rest He _ IH]; intros d;
    cbn [droppedEntries]; [reflexivity |].
  assert (Qltb (rnd d) (dropChance entry lck_) = false) as ->
    by (apply Qltb_ge; eapply Qle_trans; [exact He | apply Hr]).
  apply IH.
Qed.

Lemma sublist_map {A B} (f : A -> B) (l1 l2 : list A) :
  sublist l1 l2 -> sublist (map f l1) (map f l2).
Proof. induction 1; cbn [map]; constructor; assumption. Qed.

Lemma DROP_TABLES_scaling (questType : Profession) :
  Forall (fun e => (0 <= lckScaling e)%Q) (DROP_TABLES questType)
  /\ length (DROP_TABLES questType) = 4%nat.
Proof. destruct questType; split; try reflexivity; repeat constructor; discriminate. Qed.

(** X14.  [rollDrops] takes four draws, one per entry of the quest's
    table, and returns drops of quantity 1 for a selection of the entries
    in table order.  For the same draws, more luck never loses a drop.
    When every chance is at least 1 every entry drops, and when every
    chance is at most 0 (luck far below zero) nothing drops. *)
Theorem rollDrops_selection (questType : Profession) (lck_ lck' : Z) (w : World) :
  draws_in_unit w -> lck_ <= lck' ->
  exists drops drops',
    rollDrops questType lck_ w = Some (drops, with_drawn (4 + drawn w) w)
    /\ rollDrops questType lck' w = Some (drops', with_drawn (4 + drawn w) w)
    /\ sublist drops (map dropOf (DROP_TABLES questType))
    /\ sublist drops drops'
    /\ Forall (fun d => quantity d = 1) drops
    /\ (Forall (fun e => (1 <= dropChance e lck_)%Q) (DROP_TABLES questType) ->
        drops = map dropOf (DROP_TABLES questType))
    /\ (Forall (fun e => (dropChance e lck_ <= 0)%Q) (DROP_TABLES questType) ->
        drops = []).
Proof.
  intros Hd Hl. destruct w as [h r d ck t u i]. unfold rollDrops.
  rewrite !rollDrops_loop_run. cbn [app].
  destruct (DROP_TABLES_scaling questType) as [Hs ->].
  eexists _, _. split; [reflexivity |]. split; [reflexivity |].
  split; [apply sublist_map, droppedEntries_sublist |].
  split; [apply sublist_map, droppedEntries_luck; assumption |].
  split; [apply Forall_forall; intros x Hx; apply list_elem_of_In, in_map_iff in Hx;
          destruct Hx as (e & <- & _); reflexivity |].
  split.
  - intros Hall. rewrite droppedEntries_all; [reflexivity | | exact Hall].
    intros n. apply (Hd n).
  - intros Hnone. rewrite droppedEntries_none; [reflexivity | | exact Hnone].
    intros n. apply (Hd n).
Qed.

Example rollDrops_sample :
  rollDrops fishing 20 sampleWorld
  = Some ([{| drop_name := "Abyssal Pearl"; quantity := 1; drop_rarity := legendary |}],
          with_drawn 4 sampleWorld).
Proof. vm_compute. reflexivity. Qed.

Lemma rollDrops_selection_witness :
  exists drops drops',
    rollDrops fishing 20 sampleWorld = Some (drops, with_drawn 4 sampleWorld)
    /\ rollDrops fishing 1000 sampleWorld = Some (drops', with_drawn 4 sampleWorld)
    /\ sublist drops drops'.
Proof.
  destruct (rollDrops_selection fishing 20 1000 sampleWorld sampleWorld_draws
              ltac:(lia))
    as (drops & drops' & H1 & H2 & _ & Hsub & _).
  exists drops, drops'. split; [exact H1 |]. split; [exact H2 | exact Hsub].
Defined.

Lemma recommend_loop_run (sigil : loc) (p : SigilProfile)
    (s : SigilStats) (g : SigilGenome) (w : World)
    (quests : list Profession) (bestQuest : Profession) (bestScore : Z) :
  heap w !! sigil = Some (OProfile p) ->
  heap w !! stats p = Some (OStats s) ->
  heap w !! genes p = Some (OGenome g) ->
  recommend_loop sigil quests bestQuest bestScore w
  = Some (fst (fold_left
                 (fun acc q => if snd acc <? questScore s g q
                               then (q, questScore s g q) else acc)
                 quests (bestQuest, bestScore)), w).
Proof.
  intros Hp Hs Hg. revert bestQuest bestScore.
  induction quests as [| quest rest IH]; intros bestQuest bestScore.
  - reflexivity.
  - cbn [recommend_loop fold_left snd]. unfold questScore.
    destruct (getQuestStats quest) as [a b]. cbn [fst snd].
    unfold field, bind, readProfile, readStats, readGenome, ret. cbv beta.
    repeat (first [rewrite Hp | rewrite Hs | rewrite Hg]; cbv beta iota).
    destruct (bestScore <? _); apply IH.
Qed.

(** X15.  [recommendQuest] reads the store and changes nothing.  When
    some quest has a positive score (stats of the quest's two stats, plus
    20 for a matching dominant profession gene) it returns a quest whose
    score no quest exceeds, the first such in the order mining, fishing,
    foraging, gardening; when no score is positive it returns the sigil's
    own profession.  With every stat at least 1 the first case applies. *)
Theorem recommendQuest_best (sigil : loc) (p : SigilProfile)
    (s : SigilStats) (g : SigilGenome) (w : World) :
  heap w !! sigil = Some (OProfile p) ->
  heap w !! stats p = Some (OStats s) ->
  heap w !! genes p = Some (OGenome g) ->
  exists best,
    recommendQuest sigil w = Some (best, w)
    /\ ((forall q, questScore s g q <= 0) -> best = profession p)
    /\ ((exists q, 0 < questScore s g q) ->
        0 < questScore s g best
        /\ forall q, questScore s g q <= questScore s g best
                     /\ (questScore s g q = questScore s g best ->
                         questRank best <= questRank q))
    /\ (stats_positive s -> forall q, questScore s g q <= questScore s g best).
Proof.
  intros Hp Hs Hg.
  set (sc := questScore s g).
  assert (wp (recommendQuest sigil) w (fun best w' =>
            w' = w
            /\ ((forall q, sc q <= 0) -> best = profession p)
            /\ ((exists q, 0 < sc q) ->
                0 < sc best
                /\ forall q, sc q <= sc best
                             /\ (sc q = sc best -> questRank best <= questRank q)))) as H.
  { unfold recommendQuest. apply wp_bind. eapply wp_field; [exact Hp |].
    apply wp_run. eexists _, _. split; [eapply recommend_loop_run; eassumption |].
    split; [reflexivity |].
    cbn [fold_left fst snd]. fold sc.
    destruct (Z.ltb_spec 0 (sc mining)) as [C1 | C1]; cbn [fst snd];
      match goal with |- context [?a <? sc fishing] =>
        destruct (Z.ltb_spec a (sc fishing)) as [C2 | C2] end; cbn [fst snd];
      match goal with |- context [?a <? sc foraging] =>
        destruct (Z.ltb_spec a (sc foraging)) as [C3 | C3] end; cbn [fst snd];
      match goal with |- context [?a <? sc gardening] =>
        destruct (Z.ltb_spec a (sc gardening)) as [C4 | C4] end; cbn [fst snd];
      split.
    all: try (intros Hall;
              pose proof (Hall mining); pose proof (Hall fishing);
              pose proof (Hall foraging); pose proof (Hall gardening);
              first [reflexivity | lia]).
    all: intros [q0 Hq0]; split;
      [ destruct q0; lia
      | intros q; destruct q; destruct q0; cbn [questRank]; lia ]. }
  apply wp_run in H. destruct H as (best & w' & Hrun & -> & Hnone & Hsome).
  exists best. split; [exact Hrun |]. split; [exact Hnone |]. split; [exact Hsome |].
  intros Hpos q. apply Hsome. exists mining.
  unfold sc, questScore. cbn [getQuestStats fst snd].
  pose proof (Hpos str). pose proof (Hpos end_).
  destruct (hasProfessionBonus g mining); lia.
Qed.

Example recommendQuest_sample : recommendQuest 3%positive sampleWorld = Some (mining, sampleWorld).
Proof. vm_compute. reflexivity. Qed.

Lemma recommendQuest_best_witness :
  exists best,
    recommendQuest 3%positive sampleWorld = Some (best, sampleWorld)
    /\ forall q, questScore (baseStats (CLASS_DEFINITIONS ember)) genomeA q
                 <= questScore (baseStats (CLASS_DEFINITIONS ember)) genomeA best.
Proof.
  destruct (recommendQuest_best 3%positive parentA
              (baseStats (CLASS_DEFINITIONS ember)) genomeA sampleWorld
              eq_refl eq_refl eq_refl)
    as (best & Hrun & _ & _ & Hbest).
  exists best. split; [exact Hrun |]. apply Hbest.
  intros k. destruct k; simpl; lia.
Defined.

Lemma minutes_floor (elapsed : Z) :
  Qfloor (inject_Z elapsed / inject_Z (1000 * 60) / inject_Z STAMINA_RECOVERY_MINUTES)
  = elapsed / 1200000.
Proof.
  rewrite (Zdiv_Qdiv elapsed 1200000). apply Qfloor_comp.
  change (inject_Z (1000 * 60)) with 60000%Q.
  change (inject_Z STAMINA_RECOVERY_MINUTES) with 20%Q.
  change (inject_Z 1200000) with 1200000%Q.
  field.
Qed.

Section StaminaRecovery.
Context {D : DateApi}.

(** X16.  [calculateStaminaRecovery] reads the clock once.  For a valid
    check time it returns the current stamina plus one point per full 20
    minutes (1 200 000 ms) elapsed, capped at the maximum: never above
    the maximum, unchanged before 20 minutes have passed (if below the
    maximum), and not above the current stamina when the check time lies
    in the future.  For an invalid check time it returns [NaN]. *)
Theorem calculateStaminaRecovery_bounds (lastCheckTime : string)
    (currentStamina maxStamina_ : Z) (w : World) :
  exists res,
    calculateStaminaRecovery lastCheckTime currentStamina maxStamina_ w
    = Some (res, with_ticks (S (ticks w)) w)
    /\ (parseDate lastCheckTime = None -> res = None)
    /\ (forall last, parseDate lastCheckTime = Some last ->
        let elapsed := clock w (ticks w) - last in
        exists v,
          res = Some v
          /\ v = Z.min (currentStamina + elapsed / 1200000) maxStamina_
          /\ v <= maxStamina_
          /\ (0 <= elapsed -> Z.min currentStamina maxStamina_ <= v)
          /\ (0 <= elapsed < 1200000 -> v = Z.min currentStamina maxStamina_)
          /\ (elapsed < 0 -> v < currentStamina \/ v = maxStamina_)).
Proof.
  unfold calculateStaminaRecovery, bind, dateNow, ret. cbv zeta.
  destruct (parseDate lastCheckTime) as [last |].
  - eexists. split; [reflexivity |]. split; [discriminate |].
    intros last' [= <-]. rewrite minutes_floor.
    set (elapsed := clock w (ticks w) - last).
    eexists. split; [reflexivity |]. split; [reflexivity |].
    assert (0 <= elapsed -> 0 <= elapsed / 1200000) by (intros; apply Z.div_pos; lia).
    assert (0 <= elapsed < 1200000 -> elapsed / 1200000 = 0)
      by (intros; apply Z.div_small; lia).
    assert (elapsed < 0 -> elapsed / 1200000 < 0)
      by (intros; apply Z.div_lt_upper_bound; lia).
    repeat split; lia.
  - eexists. split; [reflexivity |]. split; [reflexivity |]. discriminate.
Qed.

End StaminaRecovery.

Example calculateStaminaRecovery_sample :
  @calculateStaminaRecovery decimalDates "1000" 10 25
     (with_ticks 0 (mkWorld sampleHeap sampleDraws 0 (fun _ => 6001000) 0 (fun _ => "") 0))
  = Some (Some 15,
          with_ticks 1 (mkWorld sampleHeap sampleDraws 0 (fun _ => 6001000) 0 (fun _ => "") 0)).
Proof. vm_compute. reflexivity. Qed.

(* ------------------------------------------------------------------ *)
(** * Further properties: levelling *)

Lemma wp_assign (sigil : loc) (set : SigilProfile -> SigilProfile) (p : SigilProfile)
    w (Q : unit -> World -> Prop) :
  heap w !! sigil = Some (OProfile p) ->
  Q tt (with_heap (<[sigil := OProfile (set p)]> (heap w)) w) ->
  wp (assign sigil set) w Q.
Proof.
  intros Hp HQ. unfold assign. apply wp_bind.
  eapply wp_readProfile; [exact Hp |].
  eapply wp_writeProfile; [exact Hp | exact HQ].
Qed.

(** The loop ends, with a stat other than [s1], when [s2] already
    differs or one of the next [fuel] draws picks another stat. *)
Lemma wp_rerollWhileSame (fuel : nat) (s1 s2 : StatName)
    h r d ck t u i (Q : StatName -> World -> Prop) :
  (forall k, (0 <= r k)%Q /\ (r k < 1)%Q) ->
  s2 <> s1
  \/ (exists k, (k < fuel)%nat /\ pick STAT_KEYS (r (d + k)%nat) <> Some s1) ->
  (forall s d', s <> s1 -> Q s (mkWorld h r d' ck t u i)) ->
  wp (rerollWhileSame fuel STAT_KEYS s1 s2) (mkWorld h r d ck t u i) Q.
Proof.
  intros Hr. revert s2 d.
  induction fuel as [| fuel IH]; intros s2 d Hex HQ; cbn [rerollWhileSame].
  - destruct (decide (s2 = s1)) as [E | E].
    + destruct Hex as [Hne | (k & Hk & _)]; [congruence | lia].
    + apply wp_ret, HQ, E.
  - destruct (decide (s2 = s1)) as [E | E]; [| apply wp_ret, HQ, E].
    destruct Hex as [Hne | (k & Hk & Hpick)]; [congruence |].
    apply wp_bind, wp_randomFrom; [exact Hr | discriminate |].
    norm_world. intros s2' Hs2'. apply IH; [| exact HQ].
    destruct k as [| k].
    + left. rewrite Nat.add_0_r in Hpick. congruence.
    + right. exists k. split; [lia |].
      replace (S d + k)%nat with (d + S k)%nat by lia. exact Hpick.
Qed.

Lemma levelUp_spec (fuel : nat) (sigil : loc) (chosen : option StatName)
    (p : SigilProfile) (s : SigilStats) h r d ck t u i :
  (forall k, (0 <= r k)%Q /\ (r k < 1)%Q) ->
  no_long_run fuel r ->
  h !! sigil = Some (OProfile p) ->
  h !! stats p = Some (OStats s) ->
  wp (levelUp fuel sigil chosen) (mkWorld h r d ck t u i)
     (fun res w' =>
        leveledUp p s h sigil chosen res w'
        /\ randoms w' = r /\ clock w' = ck /\ ticks w' = t
        /\ ulids w' = u /\ issued w' = i).
Proof.
  intros Hr Hrun Hp Hs. unfold levelUp.
  (* oldStats *)
  apply wp_bind. apply wp_bind. eapply wp_field; [exact Hp |].
  apply wp_bind. eapply wp_readStats; [exact Hs |].
  apply wp_alloc. norm_world.
  assert (h !! fresh (dom h) = None) as HlO by apply fresh_loc_None.
  assert (grown h (<[fresh (dom h) := OStats s]> h)) as HgrO
    by (apply grown_alloc; [apply grown_refl | exact I]).
  assert (<[fresh (dom h) := OStats s]> h !! fresh (dom h) = Some (OStats s)) as HlOs
    by apply lookup_insert_eq.
  set (lO := fresh (dom h)) in *.
  set (hO := <[lO := OStats s]> h) in *. clearbody hO.
  assert (hO !! sigil = Some (OProfile p)) as HpO by (eapply grown_lookup; eassumption).
  assert (hO !! stats p = Some (OStats s)) as HsO by (eapply grown_lookup; eassumption).
  (* class definitions *)
  apply wp_bind. apply wp_bind. eapply wp_field; [exact HpO |]. apply wp_ret.
  apply wp_bind. apply wp_bind. eapply wp_field; [exact HpO |]. apply wp_ret.
  (* growth *)
  apply wp_bind. apply wp_bind. eapply wp_field; [exact HpO |].
  eapply wp_rollStatGrowth; [exact HsO |]. intros sN dN HleN.
  assert (h !! fresh (dom hO) = None) as HlN by (apply grown_fresh, HgrO).
  assert (fresh (dom hO) <> lO) as HNO by (eapply fresh_ne, HlOs).
  assert (fresh (dom hO) <> sigil) as HNs by (eapply fresh_ne, HpO).
  set (lN := fresh (dom hO)) in *.
  apply wp_bind.
  assert (wp (match chosen with
              | Some chosen0 => addToStat lN chosen0 1
              | None => ret tt
              end)
             (mkWorld (<[lN := OStats sN]> hO) r dN ck t u i)
             (fun _ w1 => exists sC,
                w1 = mkWorld (<[lN := OStats sC]> hO) r dN ck t u i
                /\ stats_le s sC
                /\ (forall c, chosen = Some c -> stat_get s c + 1 <= stat_get sC c)))
    as Hchosen.
  { destruct chosen as [c |].
    - eapply wp_addToStat; [apply lookup_insert_eq |]. norm_world.
      rewrite insert_insert_eq. eexists. split; [reflexivity |]. split.
      + eapply stats_le_trans; [exact HleN | apply stats_le_add; lia].
      + intros c' [= <-]. rewrite stat_get_set.
        destruct (decide (c = c)); [| congruence]. pose proof (HleN c). lia.
    - apply wp_ret. exists sN. split; [reflexivity |]. split; [exact HleN |].
      intros c [=]. }
  eapply wp_mono; [exact Hchosen |]. clear Hchosen.
  intros ? w1 (sC & -> & HleC & HchC).
  (* blessing *)
  apply wp_bind, wp_mathRandom. norm_world.
  apply wp_bind.
  assert (wp (if Qltb (r dN) 0.5
              then
                let statKeys := [str; dex; agi; vit; end_; int; wis; lck] in
                s1 <- randomFrom statKeys ;;
                s2 <- randomFrom statKeys ;;
                s2 <- rerollWhileSame fuel statKeys s1 s2 ;;
                addToStat lN s1 1 ;;; addToStat lN s2 1
              else ret tt)
             (mkWorld (<[lN := OStats sC]> hO) r (S dN) ck t u i)
             (fun _ w1 => exists sB dB,
                w1 = mkWorld (<[lN := OStats sB]> hO) r dB ck t u i
                /\ stats_le sC sB)) as Hbless.
  { destruct (Qltb (r dN) 0.5).
    - cbv zeta.
      apply wp_bind, wp_randomFrom; [exact Hr | discriminate |]. norm_world.
      intros s1 _.
      apply wp_bind, wp_randomFrom; [exact Hr | discriminate |]. norm_world.
      intros s2 _.
      apply wp_bind. apply wp_rerollWhileSame; [exact Hr | right; apply Hrun |].
      intros s2' d' _.
      apply wp_bind. eapply wp_addToStat; [apply lookup_insert_eq |]. norm_world.
      rewrite insert_insert_eq.
      eapply wp_addToStat; [apply lookup_insert_eq |]. norm_world.
      rewrite insert_insert_eq.
      eexists _, _. split; [reflexivity |].
      eapply stats_le_trans; apply stats_le_add; lia.
    - apply wp_ret. exists sC, (S dN). split; [reflexivity | apply stats_le_refl]. }
  eapply wp_mono; [exact Hbless |]. clear Hbless.
  intros ? w1 (sB & dB & -> & HleB).
  assert (grown h (<[lN := OStats sB]> hO)) as HgrB
    by (apply grown_write; [exact HgrO | exact HlN | exact I]).
  assert (<[lN := OStats sB]> hO !! sigil = Some (OProfile p)) as HpB
    by (rewrite lookup_insert_ne; [exact HpO | exact HNs]).
  assert (<[lN := OStats sB]> hO !! lO = Some (OStats s)) as HOB
    by (rewrite lookup_insert_ne; [exact HlOs | exact HNO]).
  assert (<[lN := OStats sB]> hO !! lN = Some (OStats sB)) as HNB
    by apply lookup_insert_eq.
  set (hB := <[lN := OStats sB]> hO) in *. clearbody hB.
  (* level, rarity bonus *)
  apply wp_bind. apply wp_bind. eapply wp_field; [exact HpB |]. apply wp_ret.
  apply wp_bind. apply wp_bind. eapply wp_field; [exact HpB |]. apply wp_ret.
  set (lv := level p + 1).
  set (rba := (Z.rem lv 5 =? 0) && negb (bool_decide (rarity p = common))).
  apply wp_bind.
  assert (wp (if rba
              then rar <- field sigil rarity ;; applyRarityBonuses lN rar
              else ret lN)
             (mkWorld hB r dB ck t u i)
             (fun lS w1 => exists hS sF dS,
                w1 = mkWorld hS r dS ck t u i
                /\ grown h hS /\ hS !! sigil = Some (OProfile p)
                /\ hS !! lO = Some (OStats s) /\ hS !! lS = Some (OStats sF)
                /\ h !! lS = None /\ lS <> lO /\ stats_le sB sF)) as Hrar.
  { destruct rba.
    - apply wp_bind. eapply wp_field; [exact HpB |].
      eapply wp_applyRarityBonuses; [exact Hr | exact HNB |].
      intros sR dR HleR. eexists _, sR, dR. split; [reflexivity |].
      split; [apply grown_alloc; [exact HgrB | exact I] |].
      split; [eapply lookup_alloc_old, HpB |].
      split; [eapply lookup_alloc_old, HOB |].
      split; [apply lookup_insert_eq |].
      split; [apply grown_fresh, HgrB |].
      split; [eapply fresh_ne, HOB | exact HleR].
    - apply wp_ret. exists hB, sB, dB. split; [reflexivity |].
      repeat (split; [assumption |]). apply stats_le_refl. }
  eapply wp_mono; [exact Hrar |]. clear Hrar.
  intros lS w1 (hS & sF & dS & -> & HgrS & HpS & HOS & HSS & HlS & HSO & HleF).
  assert (lS <> sigil) as HSs by (intros ->; rewrite Hp in HlS; discriminate).
  assert (lO <> sigil) as HOs by (intros E; rewrite E, Hp in HlO; discriminate).
  (* stat changes and maxima *)
  apply wp_bind. apply wp_bind. eapply wp_readStats; [exact HSS |].
  apply wp_bind. eapply wp_readStats; [exact HOS |]. apply wp_ret.
  apply wp_bind. apply wp_bind. eapply wp_readStats; [exact HSS |]. apply wp_ret.
  apply wp_bind. apply wp_bind. eapply wp_readStats; [exact HSS |]. apply wp_ret.
  cbv zeta.
  (* the assignments *)
  apply wp_bind. eapply wp_assign; [exact HpS |]. norm_world.
  do 8 (apply wp_bind; (eapply wp_assign; [apply lookup_insert_eq |]); norm_world;
        rewrite insert_insert_eq).
  apply wp_bind.
  destruct (Z.rem lv 2 =? 0) eqn:Erem.
  - eapply wp_assign; [apply lookup_insert_eq |]. norm_world. rewrite insert_insert_eq.
    apply wp_ret. unfold leveledUp. norm_world. split; [| repeat split].
    exists sF. cbn [newStats oldStats newLevel statChanges rarityBonusApplied
                    newMaxHp newMaxMp newMaxStamina]. cbv zeta. fold lv. rewrite Erem.
    split; [rewrite lookup_insert_eq; reflexivity |].
    split; [exact HlS |].
    split; [rewrite lookup_insert_ne; [exact HSS | congruence] |].
    split; [exact HlO |].
    split; [rewrite lookup_insert_ne; [exact HOS | congruence] |].
    split; [exact HSO |].
    split; [intros l x Hl Hx; rewrite lookup_insert_ne;
            [eapply grown_lookup; eassumption | congruence] |].
    assert (stats_le sC sF) as HCF by (eapply stats_le_trans; eassumption).
    split; [eapply stats_le_trans; eassumption |].
    split; [intros c Hc; pose proof (HchC c Hc); pose proof (HCF c); lia |].
    repeat split.
  - apply wp_ret. apply wp_ret. unfold leveledUp. norm_world. split; [| repeat split].
    exists sF. cbn [newStats oldStats newLevel statChanges rarityBonusApplied
                    newMaxHp newMaxMp newMaxStamina]. cbv zeta. fold lv. rewrite Erem.
    split; [rewrite lookup_insert_eq; reflexivity |].
    split; [exact HlS |].
    split; [rewrite lookup_insert_ne; [exact HSS | congruence] |].
    split; [exact HlO |].
    split; [rewrite lookup_insert_ne; [exact HOS | congruence] |].
    split; [exact HSO |].
    split; [intros l x Hl Hx; rewrite lookup_insert_ne;
            [eapply grown_lookup; eassumption | congruence] |].
    assert (stats_le sC sF) as HCF by (eapply stats_le_trans; eassumption).
    split; [eapply stats_le_trans; eassumption |].
    split; [intros c Hc; pose proof (HchC c Hc); pose proof (HCF c); lia |].
    repeat split.
Qed.

Lemma levelUp_run (fuel : nat) (sigil : loc) (chosen : option StatName)
    (p : SigilProfile) (s : SigilStats) (w : World) :
  draws_in_unit w ->
  no_long_run fuel (randoms w) ->
  heap w !! sigil = Some (OProfile p) ->
  heap w !! stats p = Some (OStats s) ->
  exists res w',
    levelUp fuel sigil chosen w = Some (res, w')
    /\ leveledUp p s (heap w) sigil chosen res w'.
Proof.
  intros Hd Hrun Hp Hs. destruct w as [h r d ck t u i]. cbn in Hd, Hrun, Hp, Hs.
  apply wp_run. eapply wp_mono; [apply (levelUp_spec fuel); eassumption |].
  intros res w' [H _]. exact H.
Qed.

Lemma alternating_unit (k : nat) : (0 <= alternating k)%Q /\ (alternating k < 1)%Q.
Proof. unfold alternating. destruct (Nat.even k); split; unfold Qle, Qlt; cbn; lia. Qed.

Lemma alternating_no_long_run : no_long_run 2 alternating.
Proof.
  intros a s1. unfold alternating.
  destruct (Nat.even a) eqn:Ea.
  - destruct (decide (s1 = str)) as [-> | Hne].
    + exists 1%nat. split; [lia |]. rewrite Nat.add_1_r, Nat.even_succ, <- Nat.negb_even, Ea.
      vm_compute. discriminate.
    + exists 0%nat. split; [lia |]. rewrite Nat.add_0_r, Ea.
      vm_compute. congruence.
  - destruct (decide (s1 = str)) as [-> | Hne].
    + exists 0%nat. split; [lia |]. rewrite Nat.add_0_r, Ea.
      vm_compute. discriminate.
    + exists 1%nat. split; [lia |]. rewrite Nat.add_1_r, Nat.even_succ, <- Nat.negb_even, Ea.
      vm_compute. congruence.
Qed.

Lemma levelWorld_draws : draws_in_unit levelWorld.
Proof. intros k. apply alternating_unit. Qed.

Lemma In_STAT_KEYS (k : StatName) : In k STAT_KEYS.
Proof. destruct k; cbn; tauto. Qed.

Lemma changesOf_In (old new : SigilStats) (k : StatName) (v : Z) :
  In (k, v) (changesOf old new) <-> v = stat_get new k - stat_get old k /\ v <> 0.
Proof.
  unfold changesOf. rewrite List.filter_In, in_map_iff. cbn [snd].
  rewrite negb_true_iff, Z.eqb_neq. split.
  - intros [(k' & [= <- <-] & _) Hv]. split; [reflexivity | exact Hv].
  - intros [-> Hv]. split; [| exact Hv]. exists k. split; [reflexivity | apply In_STAT_KEYS].
Qed.

Lemma changes_keys_NoDup {K} (f : K * Z -> bool) (g : K -> Z) (l : list K) :
  List.NoDup l ->
  List.NoDup (map fst (List.filter f (map (fun key => (key, g key)) l))).
Proof.
  induction 1 as [| k l Hk Hl IH]; cbn; [constructor |].
  destruct (f (k, g k)); [| exact IH]. cbn. constructor; [| exact IH].
  intros Hin. apply Hk. apply in_map_iff in Hin as ([k' v] & Hfst & Hin).
  cbn in Hfst. subst k'. apply List.filter_In in Hin as [Hin _].
  apply in_map_iff in Hin as (k' & [= <- _] & Hin). exact Hin.
Qed.

(** X17.  Levelling up a sigil whose stat block is in the store returns,
    when no [fuel] draws in a row pick the same stat.  It raises the level
    by one, takes the old threshold off the experience without looking at
    its sign, sets the threshold of the new level, and sets hit points and
    mana to their new maxima.  The stats of the profile become a new
    object in which no stat is lower than before and the chosen stat is at
    least one higher; the returned old stats are a copy that holds the
    values from before; stamina rises by one, up to the new cap, on even
    new levels only; the seventeen other fields of the profile and every
    other object of the store are as before. *)
Theorem levelUp_effect (fuel : nat) (sigil : loc) (chosen : option StatName)
    (p : SigilProfile) (s : SigilStats) (w : World) :
  draws_in_unit w ->
  no_long_run fuel (randoms w) ->
  heap w !! sigil = Some (OProfile p) ->
  heap w !! stats p = Some (OStats s) ->
  exists res w',
    levelUp fuel sigil chosen w = Some (res, w')
    /\ leveledUp p s (heap w) sigil chosen res w'.
Proof.
  intros Hd Hrun Hp Hs. destruct w as [h r d ck t u i]. cbn in Hd, Hrun, Hp, Hs.
  norm_world. apply wp_run.
  eapply wp_mono; [apply (levelUp_spec fuel); eassumption |].
  intros res w' [H _]. exact H.
Qed.

Lemma levelUp_effect_witness :
  exists res w',
    levelUp 2 3%positive (Some lck) levelWorld = Some (res, w')
    /\ leveledUp veteranA (baseStats (CLASS_DEFINITIONS ember)) (heap levelWorld)
         3%positive (Some lck) res w'.
Proof.
  apply (levelUp_effect 2 3%positive (Some lck) veteranA
           (baseStats (CLASS_DEFINITIONS ember)) levelWorld).
  - exact levelWorld_draws.
  - exact alternating_no_long_run.
  - reflexivity.
  - reflexivity.
Defined.

(** X18.  After [canLevelUp] has answered ok, levelling up leaves a level
    of at most [MAX_LEVEL] and an experience that is not negative; hit
    points and mana are at their maxima, the stamina cap is the one of the
    new level, and a stamina that was within the cap of the old level is
    not lowered and is within the new cap. *)
Theorem levelUp_after_canLevelUp (fuel : nat) (sigil : loc)
    (chosen : option StatName) (p : SigilProfile) (s : SigilStats) (w : World) :
  draws_in_unit w ->
  no_long_run fuel (randoms w) ->
  heap w !! sigil = Some (OProfile p) ->
  heap w !! stats p = Some (OStats s) ->
  ok (canLevelUp p) = true ->
  0 <= level p ->
  stamina p <= calculateMaxStamina (level p) ->
  exists res w' p',
    levelUp fuel sigil chosen w = Some (res, w')
    /\ heap w' !! sigil = Some (OProfile p')
    /\ level p' = level p + 1 /\ level p' <= MAX_LEVEL
    /\ xp p' = xp p - xpToNextLevel p /\ 0 <= xp p'
    /\ xpToNextLevel p' = xpForLevel (level p')
    /\ hp p' = maxHp p' /\ mp p' = maxMp p'
    /\ maxStamina p' = calculateMaxStamina (level p')
    /\ stamina p <= stamina p' /\ stamina p' <= maxStamina p'
    /\ stamina p' <= stamina p + 1.
Proof.
  intros Hd Hrun Hp Hs Hok H0 Hst.
  destruct (levelUp_run fuel sigil chosen p s w Hd Hrun Hp Hs)
    as (res & w' & Hres & s' & Hp' & _).
  cbv zeta in Hp'. exists res, w'. eexists. split; [exact Hres |].
  split; [exact Hp' |]. cbn [leveled level xp xpToNextLevel hp maxHp mp maxMp
                            maxStamina stamina].
  unfold canLevelUp in Hok.
  destruct (MAX_LEVEL <=? level p) eqn:Emax; [discriminate |].
  destruct (xp p <? xpToNextLevel p) eqn:Exp; [discriminate |].
  apply Z.leb_gt in Emax. apply Z.ltb_ge in Exp.
  assert (calculateMaxStamina (level p) <= calculateMaxStamina (level p + 1)) as Hmono.
  { unfold calculateMaxStamina. cbv zeta.
    assert (level p / 2 <= (level p + 1) / 2) by (apply Z.div_le_mono; lia). lia. }
  repeat split; try lia; destruct (Z.rem (level p + 1) 2 =? 0); lia.
Qed.

Lemma levelUp_after_canLevelUp_witness :
  exists res w' p',
    levelUp 2 3%positive None levelWorld = Some (res, w')
    /\ heap w' !! 3%positive = Some (OProfile p')
    /\ level p' = 2 /\ xp p' = 50 /\ stamina p' = 26.
Proof.
  destruct (levelUp_after_canLevelUp 2 3%positive None veteranA
              (baseStats (CLASS_DEFINITIONS ember)) levelWorld
              levelWorld_draws alternating_no_long_run eq_refl eq_refl eq_refl
              ltac:(cbn; lia) ltac:(vm_compute; discriminate))
    as (res & w' & p' & Hrun & Hp' & Hl & _ & Hx & _ & _ & _ & _ & Hcap & Hlo & Hhi & _).
  exists res, w', p'. split; [exact Hrun |]. split; [exact Hp' |].
  split; [exact Hl |]. split; [exact Hx |].
  rewrite Hl in Hcap. rewrite Hcap in Hhi. vm_compute in Hhi.
  apply Z.le_antisymm; [exact Hhi |].
  destruct res; cbn in *. clear - Hrun Hp'.
  vm_compute in Hrun. injection Hrun as <- <- <- <- <- <- <- <- <-.
  vm_compute in Hp'. injection Hp' as <-. discriminate.
Defined.

(** X19.  The stat changes that [levelUp] returns list exactly the stats
    whose value differs between the old and the new stat block, each once
    and with its difference, which is positive; a chosen stat is always
    among them. *)
Theorem levelUp_statChanges (fuel : nat) (sigil : loc) (chosen : option StatName)
    (p : SigilProfile) (s : SigilStats) (w : World) :
  draws_in_unit w ->
  no_long_run fuel (randoms w) ->
  heap w !! sigil = Some (OProfile p) ->
  heap w !! stats p = Some (OStats s) ->
  exists res w' s',
    levelUp fuel sigil chosen w = Some (res, w')
    /\ heap w' !! newStats res = Some (OStats s')
    /\ heap w' !! oldStats res = Some (OStats s)
    /\ (forall k v, In (k, v) (statChanges res)
                    <-> v = stat_get s' k - stat_get s k /\ 0 < v)
    /\ List.NoDup (map fst (statChanges res))
    /\ (forall c, chosen = Some c -> exists v, In (c, v) (statChanges res) /\ 1 <= v).
Proof.
  intros Hd Hrun Hp Hs.
  destruct (levelUp_run fuel sigil chosen p s w Hd Hrun Hp Hs)
    as (res & w' & Hres & s' & _ & _ & HN & _ & HO & _ & _ & Hle & Hch & _ & Hchanges & _).
  exists res, w', s'. split; [exact Hres |]. split; [exact HN |]. split; [exact HO |].
  rewrite Hchanges. split; [| split].
  - intros k v. rewrite changesOf_In. pose proof (Hle k). lia.
  - unfold changesOf. apply changes_keys_NoDup.
    unfold STAT_KEYS. repeat constructor; cbn; intuition discriminate.
  - intros c Hc. exists (stat_get s' c - stat_get s c).
    pose proof (Hch c Hc). split; [apply changesOf_In |]; lia.
Qed.

Lemma levelUp_statChanges_witness :
  exists res w' s',
    levelUp 2 3%positive (Some lck) levelWorld = Some (res, w')
    /\ heap w' !! newStats res = Some (OStats s')
    /\ exists v, In (lck, v) (statChanges res) /\ 1 <= v.
Proof.
  destruct (levelUp_statChanges 2 3%positive (Some lck) veteranA
              (baseStats (CLASS_DEFINITIONS ember)) levelWorld
              levelWorld_draws alternating_no_long_run eq_refl eq_refl)
    as (res & w' & s' & Hrun & HN & _ & _ & _ & Hch).
  exists res, w', s'. split; [exact Hrun |]. split; [exact HN |].
  apply Hch. reflexivity.
Defined.

(* ------------------------------------------------------------------ *)
(** * Further properties: the stat synthesizer *)

(** X20.  The stats generated for a class are a new object, made with
    eight draws, one per stat in the order of [STAT_KEYS]; each stat is
    the class's base value plus [floor(5 r) - 2] for its draw [r], hence
    within 2 of the base value, and at least 2: with the base values of
    the registry the lower bound 1 of the code is never what is taken. *)
Theorem generateBaseStats_variance (c : SigilClass) (w : World) :
  draws_in_unit w ->
  exists s,
    generateBaseStats c w
    = Some (fresh (dom (heap w)),
            with_heap (<[fresh (dom (heap w)) := OStats s]> (heap w))
                      (with_drawn (8 + drawn w) w))
    /\ forall k,
         stat_get s k
         = stat_get (baseStats (CLASS_DEFINITIONS c)) k
           + (floorTimes (randoms w (statIndex k + drawn w)%nat) 5 - 2)
         /\ -2 <= stat_get s k - stat_get (baseStats (CLASS_DEFINITIONS c)) k <= 2
         /\ 2 <= stat_get s k.
Proof.
  intros Hd. destruct w as [h r d ck t u i]. cbn in Hd. norm_world.
  rewrite generateBaseStats_run. eexists. split; [reflexivity |].
  intros k. destruct (Hd (statIndex k + d)%nat) as [H0 H1].
  pose proof (floorTimes_range _ 5 H0 H1 ltac:(lia)) as Hf.
  destruct c, k;
    cbn [jitteredStats stat_get s_str s_dex s_agi s_vit s_end s_int s_wis s_lck
         CLASS_DEFINITIONS baseStats stats8];
    cbn [statIndex Nat.add randoms] in Hf |- *; unfold jitter; lia.
Qed.

Lemma generateBaseStats_variance_witness :
  exists s w',
    generateBaseStats ember sampleWorld = Some (7%positive, w')
    /\ heap w' !! 7%positive = Some (OStats s)
    /\ 10 <= stat_get s str <= 14.
Proof.
  destruct (generateBaseStats_variance ember sampleWorld sampleWorld_draws)
    as (s & Hrun & Hs).
  exists s. eexists. split; [exact Hrun |]. split; [apply lookup_insert_eq |].
  destruct (Hs str) as (_ & Hb & _).
  cbn [stat_get baseStats CLASS_DEFINITIONS stats8 s_str] in Hb |- *. lia.
Defined.

Lemma stat_add_twice (s : SigilStats) (key : StatName) (a b : Z) :
  stat_set (stat_set s key (stat_get s key + a)) key
           (stat_get (stat_set s key (stat_get s key + a)) key + b)
  = stat_set s key (stat_get s key + a + b).
Proof. destruct s, key; reflexivity. Qed.

Lemma stat_add_zero (s : SigilStats) (key : StatName) :
  stat_set s key (stat_get s key + 0) = s.
Proof. destruct s, key; cbn; rewrite Z.add_0_r; reflexivity. Qed.

(** The two growth rolls of one stat. *)
Lemma wp_growth_key (l : loc) (key : StatName) (pg sg : StatGrowthRates)
    (s : SigilStats) h r d ck t u i (Q : unit -> World -> Prop) :
  Q tt (mkWorld (<[l := OStats (stat_set s key
                     (stat_get s key + grow1 (stat_get pg key) (r d)
                      + grow1 (stat_get sg key) (r (S d))))]> h)
                r (S (S d)) ck t u i) ->
  wp (r1 <- mathRandom ;;
      (if Qltb r1 (stat_get pg key) then addToStat l key 1 else ret tt) ;;;
      r2 <- mathRandom ;;
      (if Qltb r2 (stat_get sg key) then addToStat l key 1 else ret tt))
     (mkWorld (<[l := OStats s]> h) r d ck t u i) Q.
Proof.
  intros H. unfold grow1 in H.
  apply wp_bind, wp_mathRandom. norm_world. apply wp_bind.
  destruct (Qltb (r d) (stat_get pg key)).
  - eapply wp_addToStat; [apply lookup_insert_eq |]. norm_world.
    rewrite insert_insert_eq.
    apply wp_bind, wp_mathRandom. norm_world.
    destruct (Qltb (r (S d)) (stat_get sg key)).
    + eapply wp_addToStat; [apply lookup_insert_eq |]. norm_world.
      rewrite insert_insert_eq, stat_add_twice. exact H.
    + apply wp_ret. rewrite Z.add_0_r in H. exact H.
  - apply wp_ret. apply wp_bind, wp_mathRandom. norm_world.
    destruct (Qltb (r (S d)) (stat_get sg key)).
    + eapply wp_addToStat; [apply lookup_insert_eq |]. norm_world.
      rewrite insert_insert_eq. rewrite Z.add_0_r in H. exact H.
    + apply wp_ret. rewrite Z.add_0_r, stat_add_zero in H. exact H.
Qed.

(** X21.  Stat growth makes a new object with sixteen draws and leaves the
    stats it was given as they were.  In the order of [STAT_KEYS], stat
    number [j] takes the draws [2 j] and [2 j + 1]: it gains one for the
    first when that is below its primary rate and one for the second when
    that is below its secondary rate, so it gains 0, 1 or 2. *)
Theorem rollStatGrowth_exact (currentStats : loc) (pg sg : StatGrowthRates)
    (s : SigilStats) (w : World) :
  heap w !! currentStats = Some (OStats s) ->
  exists s',
    rollStatGrowth currentStats pg sg w
    = Some (fresh (dom (heap w)),
            with_heap (<[fresh (dom (heap w)) := OStats s']> (heap w))
                      (with_drawn (16 + drawn w) w))
    /\ forall k,
         stat_get s' k
         = stat_get s k
           + grow1 (stat_get pg k) (randoms w (2 * statIndex k + drawn w)%nat)
           + grow1 (stat_get sg k) (randoms w (S (2 * statIndex k + drawn w))%nat)
         /\ 0 <= stat_get s' k - stat_get s k <= 2.
Proof.
  intros Hs. destruct w as [h r d ck t u i]. cbn in Hs. norm_world.
  assert (wp (rollStatGrowth currentStats pg sg) (mkWorld h r d ck t u i)
            (fun l w' => exists s',
               (l, w') = (fresh (dom h),
                          mkWorld (<[fresh (dom h) := OStats s']> h) r (16 + d) ck t u i)
               /\ forall k,
                    stat_get s' k
                    = stat_get s k
                      + grow1 (stat_get pg k) (r (2 * statIndex k + d)%nat)
                      + grow1 (stat_get sg k) (r (S (2 * statIndex k + d))%nat))) as H.
  { unfold rollStatGrowth.
    apply wp_bind. eapply wp_readStats; [exact Hs |].
    apply wp_bind, wp_alloc. norm_world.
    apply wp_bind. cbn [forEach STAT_KEYS].
    do 8 (apply wp_bind, wp_growth_key).
    apply wp_ret, wp_ret. eexists. split; [reflexivity |].
    intros k. destruct s, k; reflexivity. }
  apply wp_run in H as (l & w' & Hrun & s' & [= -> ->] & Hk).
  exists s'. split; [exact Hrun |].
  intros k. split; [apply Hk |]. rewrite Hk. unfold grow1.
  repeat destruct (Qltb _ _); lia.
Qed.

Lemma rollStatGrowth_exact_witness :
  exists s' w',
    rollStatGrowth 1%positive (primaryGrowth (CLASS_DEFINITIONS ember))
      (secondaryGrowth (CLASS_DEFINITIONS thorn)) sampleWorld
    = Some (7%positive, w')
    /\ heap w' !! 7%positive = Some (OStats s')
    /\ 12 <= stat_get s' str <= 14.
Proof.
  destruct (rollStatGrowth_exact 1%positive (primaryGrowth (CLASS_DEFINITIONS ember))
              (secondaryGrowth (CLASS_DEFINITIONS thorn))
              (baseStats (CLASS_DEFINITIONS ember)) sampleWorld eq_refl)
    as (s' & Hrun & Hk).
  exists s'. eexists. split; [exact Hrun |]. split; [apply lookup_insert_eq |].
  destruct (Hk str) as (_ & Hb).
  cbn [stat_get baseStats CLASS_DEFINITIONS stats8 s_str] in Hb |- *. lia.
Defined.

Lemma firstn_skipn_middle {A} (l1 : list A) (x : A) (l2 : list A) :
  firstn (length l1) (l1 ++ x :: l2) ++ skipn (S (length l1)) (l1 ++ x :: l2)
  = l1 ++ l2.
Proof. induction l1 as [| a l1 IH]; cbn; [reflexivity | f_equal; exact IH]. Qed.

(** What [splice] takes out of a list without repetitions. *)
Lemma splice1_NoDup {A} (idx : Z) (available : list A) :
  0 <= idx < Z.of_nat (length available) ->
  List.NoDup available ->
  exists x rest,
    splice1 idx available = Some (x, rest)
    /\ In x available /\ ~ In x rest /\ List.NoDup rest
    /\ (forall y, In y rest -> In y available)
    /\ length available = S (length rest).
Proof.
  intros Hidx Hnd. unfold splice1, at_index.
  destruct (Z.ltb_spec idx 0) as [? | _]; [lia |].
  destruct (nth_error available (Z.to_nat idx)) as [x |] eqn:E.
  - destruct (nth_error_split _ _ E) as (l1 & l2 & -> & Hlen).
    exists x. eexists. split; [reflexivity |].
    rewrite <- Hlen, firstn_skipn_middle.
    apply List.NoDup_remove in Hnd as [Hnd Hx].
    split; [apply in_or_app; right; left; reflexivity |].
    split; [exact Hx |]. split; [exact Hnd |]. split.
    + intros y Hy. apply in_app_or in Hy as [Hy | Hy]; apply in_or_app;
        [left | right; right]; exact Hy.
    + rewrite !length_app. cbn. lia.
  - apply nth_error_None in E. lia.
Qed.

Lemma statSum_add (s : SigilStats) (key : StatName) (n : Z) :
  statSum (stat_set s key (stat_get s key + n)) = statSum s + n.
Proof. destruct s, key; unfold statSum; cbn; lia. Qed.

(** One bonus entry on a list of stats without repetitions: [n] draws,
    [n] different stats of the list get the amount. *)
Lemma wp_bonusPass_exact (l : loc) (b : StatBonus) (n : nat)
    (available : list StatName) (s : SigilStats) h r d ck t u i :
  (forall k, (0 <= r k)%Q /\ (r k < 1)%Q) ->
  List.NoDup available -> (n <= length available)%nat ->
  wp (bonusPass l b n available) (mkWorld (<[l := OStats s]> h) r d ck t u i)
     (fun _ w' => exists s',
        w' = mkWorld (<[l := OStats s']> h) r (n + d) ck t u i
        /\ statSum s' = statSum s + Z.of_nat n * amount b
        /\ forall k, stat_get s' k = stat_get s k
                     \/ (In k available /\ stat_get s' k = stat_get s k + amount b)).
Proof.
  intros Hr. revert available s d.
  induction n as [| n IH]; intros available s d Hnd Hlen; cbn [bonusPass].
  - apply wp_ret. exists s. split; [reflexivity |]. split; [lia |]. intros k. left. reflexivity.
  - destruct (Nat.eqb_spec (length available) 0) as [E | E]; [lia |].
    apply wp_bind, wp_mathRandom. norm_world.
    destruct (Hr d) as [H0 H1].
    assert (0 <= floorTimes (r d) (Z.of_nat (length available))
            < Z.of_nat (length available)) as Hidx
      by (apply floorTimes_range; [assumption .. | lia]).
    destruct (splice1_NoDup _ available Hidx Hnd)
      as (x & rest & Hsp & Hx & Hxr & Hndr & Hsub & Hl).
    assert ((if random b
             then floorTimes (r d) (Z.of_nat (length available))
             else floorTimes (r d) (Z.of_nat (length available)))
            = floorTimes (r d) (Z.of_nat (length available))) as ->
      by (destruct (random b); reflexivity).
    rewrite Hsp.
    apply wp_bind. eapply wp_addToStat; [apply lookup_insert_eq |].
    norm_world. rewrite insert_insert_eq.
    eapply wp_mono; [apply IH; [exact Hndr | lia] |].
    intros ? w' (s' & -> & Hsum & Hk). exists s'. norm_world.
    split; [f_equal; lia |].
    split; [rewrite Hsum, statSum_add; lia |].
    intros k. specialize (Hk k). rewrite stat_get_set in Hk.
    destruct (decide (x = k)) as [<- | Hne].
    + right. split; [exact Hx |]. destruct Hk as [Hk | [Hin _]]; [exact Hk | contradiction].
    + destruct Hk as [Hk | [Hin Hk]]; [left; exact Hk | right; split; [apply Hsub, Hin | exact Hk]].
Qed.

Lemma NoDup_STAT_KEYS : List.NoDup STAT_KEYS.
Proof. unfold STAT_KEYS. repeat constructor; cbn; intuition discriminate. Qed.

(** The entries of a bonus list, one after the other, on the eight stats. *)
Lemma wp_bonuses (l : loc) (bs : list StatBonus) (s : SigilStats)
    h r d ck t u i :
  (forall k, (0 <= r k)%Q /\ (r k < 1)%Q) ->
  Forall (fun b => (count b <= 8)%nat /\ 0 <= amount b) bs ->
  wp (forEach bs (fun b => bonusPass l b (count b) STAT_KEYS))
     (mkWorld (<[l := OStats s]> h) r d ck t u i)
     (fun _ w' => exists s',
        w' = mkWorld (<[l := OStats s']> h) r (bonusDraws bs + d) ck t u i
        /\ statSum s' = statSum s + bonusPoints bs
        /\ forall k, stat_get s k <= stat_get s' k <= stat_get s k + bonusCap bs).
Proof.
  intros Hr Hbs. revert s d.
  induction Hbs as [| b bs [Hc Ha] _ IH]; intros s d; cbn [forEach].
  - apply wp_ret. exists s. split; [reflexivity |].
    unfold bonusPoints, bonusCap. cbn. split; [lia |]. intros k. lia.
  - apply wp_bind. eapply wp_mono;
      [apply wp_bonusPass_exact; [exact Hr | exact NoDup_STAT_KEYS | exact Hc] |].
    intros ? w1 (s1 & -> & Hsum1 & Hk1).
    eapply wp_mono; [apply IH |].
    intros ? w2 (s2 & -> & Hsum2 & Hk2). exists s2. norm_world.
    split; [f_equal; unfold bonusDraws; cbn; lia |].
    unfold bonusPoints, bonusCap in *. cbn [map fold_right].
    split; [lia |].
    intros k. specialize (Hk1 k). specialize (Hk2 k).
    destruct Hk1 as [Hk1 | [_ Hk1]]; lia.
Qed.

Lemma rarity_bonus_entries (rarity_ : Rarity) :
  Forall (fun b => (count b <= 8)%nat /\ 0 <= amount b)
         (statBonuses (RARITY_DEFINITIONS rarity_)).
Proof. destruct rarity_; cbn; repeat constructor; cbn; lia. Qed.

(** X22.  The rarity bonuses go to a new copy of the stats, which are
    themselves left as they were.  The copy's stats add up to the sum of
    the given stats plus the points of the rarity's bonus entries (count
    times amount, summed: 0, 2, 4, 7 and 10 from common to mythic); one
    draw is taken per point handed out in an entry (0, 2, 4, 6 and 7
    draws); no stat falls, and since the stats of one entry are all
    different, no stat gains more than the amounts of the entries added
    up (0, 1, 2, 4 and 4). *)
Theorem applyRarityBonuses_points (stats_ : loc) (rarity_ : Rarity)
    (s : SigilStats) (w : World) :
  draws_in_unit w ->
  heap w !! stats_ = Some (OStats s) ->
  let bs := statBonuses (RARITY_DEFINITIONS rarity_) in
  (exists s',
     applyRarityBonuses stats_ rarity_ w
     = Some (fresh (dom (heap w)),
             with_heap (<[fresh (dom (heap w)) := OStats s']> (heap w))
                       (with_drawn (bonusDraws bs + drawn w) w))
     /\ statSum s' = statSum s + bonusPoints bs
     /\ forall k, stat_get s k <= stat_get s' k <= stat_get s k + bonusCap bs)
  /\ map (fun t => bonusPoints (statBonuses (RARITY_DEFINITIONS t))) RARITY_KEYS
     = [0; 2; 4; 7; 10]
  /\ map (fun t => bonusDraws (statBonuses (RARITY_DEFINITIONS t))) RARITY_KEYS
     = [0; 2; 4; 6; 7]%nat
  /\ map (fun t => bonusCap (statBonuses (RARITY_DEFINITIONS t))) RARITY_KEYS
     = [0; 1; 2; 4; 4].
Proof.
  intros Hd Hs bs. split; [| repeat split].
  destruct w as [h r d ck t u i]. cbn in Hd, Hs. norm_world.
  assert (wp (applyRarityBonuses stats_ rarity_) (mkWorld h r d ck t u i)
            (fun l w' => exists s',
               (l, w') = (fresh (dom h),
                          mkWorld (<[fresh (dom h) := OStats s']> h) r
                                  (bonusDraws bs + d) ck t u i)
               /\ statSum s' = statSum s + bonusPoints bs
               /\ forall k, stat_get s k <= stat_get s' k
                            <= stat_get s k + bonusCap bs)) as H.
  { unfold applyRarityBonuses.
    apply wp_bind. eapply wp_readStats; [exact Hs |].
    apply wp_bind, wp_alloc. norm_world. cbv zeta.
    apply wp_bind. eapply wp_mono;
      [apply wp_bonuses; [exact Hd | apply rarity_bonus_entries] |].
    intros ? w' (s' & -> & Hsum & Hk). apply wp_ret. exists s'.
    split; [reflexivity |]. split; [exact Hsum | exact Hk]. }
  apply wp_run in H as (l & w' & Hrun & s' & [= -> ->] & Hsum & Hk).
  exists s'. split; [exact Hrun |]. split; [exact Hsum | exact Hk].
Qed.

Lemma applyRarityBonuses_points_witness :
  exists s' w',
    applyRarityBonuses 1%positive mythic sampleWorld = Some (7%positive, w')
    /\ heap w' !! 7%positive = Some (OStats s')
    /\ statSum s' = 72.
Proof.
  destruct (applyRarityBonuses_points 1%positive mythic
              (baseStats (CLASS_DEFINITIONS ember)) sampleWorld
              sampleWorld_draws eq_refl)
    as ((s' & Hrun & Hsum & _) & _).
  exists s'. eexists. split; [exact Hrun |]. split; [apply lookup_insert_eq |].
  exact Hsum.
Defined.

(** X23.  The [random] flag of a bonus entry has no effect: an entry and
    the same entry with the flag turned over run alike from every world. *)
Theorem bonusPass_random_ignored (result : loc) (b : StatBonus) (n : nat)
    (available : list StatName) (w : World) :
  bonusPass result (flipRandom b) n available w = bonusPass result b n available w.
Proof.
  revert available w. induction n as [| n IH]; intros available w; cbn [bonusPass].
  - reflexivity.
  - destruct (length available =? 0)%nat; [reflexivity |].
    unfold bind. destruct (mathRandom w) as [[r w1] |]; [| reflexivity].
    cbn [flipRandom random amount].
    replace (if negb (random b)
             then floorTimes r (Z.of_nat (length available))
             else floorTimes r (Z.of_nat (length available)))
      with (if random b
            then floorTimes r (Z.of_nat (length available))
            else floorTimes r (Z.of_nat (length available)))
      by (destruct (random b); reflexivity).
    destruct (splice1 _ available) as [[stat available'] |]; [| reflexivity].
    destruct (addToStat result stat (amount b) w1) as [[[] w2] |]; [| reflexivity].
    apply IH.
Qed.
